(** * gopkg2nix-incremental: the package build driver

    A shallow embedding of the Go sources of the [builder] command
    (package.go, compile.go, link.go, context.go and the file of the
    toolchain handle [GoSDK]) together with the properties of its import
    closure, import configuration, compiler and linker command lines, and
    environment handling.

    Go strings are byte strings and are modelled by [string]; Go maps by
    [gmap]; the sets written as [map[string]struct{}] by [gset].  A Go
    function that returns an [error], exits through [log.Fatal] or panics is
    modelled by a function into [result]. *)

From Stdlib Require Import OrdersEx DecimalString Ascii.
From stdpp Require Import gmap strings list sorting.

(** * Outcomes of Go code *)

Inductive error :=
| ImportError (Import Parent : string)
| ErrMsg (msg : string)
| ErrWrap (msg : string) (cause : error).

(** [Err] is a returned [error] value, [Fatal] a call of [log.Fatal] or
    [log.Fatalf] (the process exits with status 1), [Panic] a run-time
    panic. *)
Inductive result (A : Type) :=
| Ok (a : A)
| Err (e : error)
| Fatal (msg : string)
| Panic (msg : string).
Arguments Ok {A} a.
Arguments Err {A} e.
Arguments Fatal {A} msg.
Arguments Panic {A} msg.

(** * The parts of the Go standard library the driver calls *)

Module Go.

(** [strings.Compare]: byte-wise lexicographic comparison. *)
Definition Compare (a b : string) : comparison := String_as_OT.compare a b.

Definition str_lt (a b : string) : Prop := Compare a b = Lt.
Definition str_le (a b : string) : Prop := Compare a b ≠ Gt.

#[global] Instance str_lt_dec : RelDecision str_lt.
Proof. intros a b. unfold str_lt. apply _. Defined.
#[global] Instance str_le_dec : RelDecision str_le.
Proof. intros a b. unfold str_le. apply _. Defined.

(** [slices.Sort] on strings and [slices.Sorted(maps.Keys(m))]. *)
Definition Sort (l : list string) : list string := merge_sort str_le l.
Definition SortedKeys (s : gset string) : list string := Sort (elements s).

(** [strings.HasPrefix], [strings.HasSuffix], [strings.CutPrefix],
    [strings.CutSuffix]. *)
Fixpoint HasPrefix (s p : string) : bool :=
  match p, s with
  | EmptyString, _ => true
  | String _ _, EmptyString => false
  | String b p', String a s' => if Ascii.eqb a b then HasPrefix s' p' else false
  end.

Fixpoint dropBytes (n : nat) (s : string) : string :=
  match n, s with
  | O, _ => s
  | S _, EmptyString => EmptyString
  | S n', String _ s' => dropBytes n' s'
  end.

Fixpoint takeBytes (n : nat) (s : string) : string :=
  match n, s with
  | O, _ => EmptyString
  | S _, EmptyString => EmptyString
  | S n', String a s' => String a (takeBytes n' s')
  end.

Definition HasSuffix (s p : string) : bool :=
  bool_decide (String.length p ≤ String.length s) &&
  String.eqb (dropBytes (String.length s - String.length p) s) p.

Definition CutPrefix (s p : string) : string * bool :=
  if HasPrefix s p then (dropBytes (String.length p) s, true) else (s, false).

Definition CutSuffix (s p : string) : string * bool :=
  if HasSuffix s p
  then (takeBytes (String.length s - String.length p) s, true)
  else (s, false).

(** [strings.LastIndex s "."], as the offset of the last dot. *)
Fixpoint LastIndexDot (s : string) : option nat :=
  match s with
  | EmptyString => None
  | String a s' =>
      match LastIndexDot s' with
      | Some i => Some (S i)
      | None => if Ascii.eqb a "."%char then Some 0 else None
      end
  end.

(** [strings.Fields]: the maximal runs of bytes between white space.  A
    string of ASCII bytes is split at tab, line feed, vertical tab, form
    feed, carriage return and space.  A string with a byte outside ASCII is
    decoded as UTF-8 and split at the runes of [unicode.IsSpace], which are
    those six and U+0085, U+00A0, U+1680, U+2000 to U+200A, U+2028, U+2029,
    U+202F, U+205F and U+3000.  The first byte of the encoding of each of
    these is no continuation byte, so the decoder always meets it at the
    start of a rune, and the encoding is recognised on the bytes:
    [spaceWidth] is the number of bytes of the white space at the head of
    the string, 0 when there is none. *)
Definition isSpace (a : ascii) : bool :=
  let n := Ascii.nat_of_ascii a in
  bool_decide (9 ≤ n ≤ 13) || bool_decide (n = 32).

Definition spaceWidth (s : string) : nat :=
  match s with
  | EmptyString => 0
  | String a s1 =>
      if isSpace a then 1 else
      match s1 with
      | EmptyString => 0
      | String b s2 =>
          let a := Ascii.nat_of_ascii a in
          let b := Ascii.nat_of_ascii b in
          (* U+0085 is C2 85, U+00A0 is C2 A0 *)
          if (a =? 194) && ((b =? 133) || (b =? 160)) then 2 else
          match s2 with
          | EmptyString => 0
          | String c _ =>
              let c := Ascii.nat_of_ascii c in
              (* U+1680 is E1 9A 80 *)
              if (a =? 225) && (b =? 154) && (c =? 128) then 3
              (* U+2000 to U+200A are E2 80 80 to E2 80 8A; U+2028, U+2029
                 and U+202F are E2 80 A8, E2 80 A9 and E2 80 AF *)
              else if (a =? 226) && (b =? 128)
                      && ((128 <=? c) && (c <=? 138)
                          || (c =? 168) || (c =? 169) || (c =? 175)) then 3
              (* U+205F is E2 81 9F *)
              else if (a =? 226) && (b =? 129) && (c =? 159) then 3
              (* U+3000 is E3 80 80 *)
              else if (a =? 227) && (b =? 128) && (c =? 128) then 3
              else 0
          end
      end
  end.

(** [skip] counts the bytes of a white space of several bytes that are
    still to be passed over. *)
Fixpoint FieldsFrom (skip : nat) (cur : string) (s : string) : list string :=
  match s with
  | EmptyString => if String.eqb cur "" then [] else [cur]
  | String a s' =>
      match skip with
      | S k => FieldsFrom k cur s'
      | O =>
          match spaceWidth s with
          | O => FieldsFrom 0 (cur +:+ String a "") s'
          | S k =>
              if String.eqb cur "" then FieldsFrom k "" s'
              else cur :: FieldsFrom k "" s'
          end
      end
  end.

Definition Fields (s : string) : list string := FieldsFrom 0 "" s.

(** [filepath.Base] (Unix): the last element of a path, trailing separators
    removed; ["."] for the empty path and ["/"] for a path of separators. *)
Definition isSep (a : ascii) : bool := Ascii.eqb a "/"%char.

Fixpoint stripTrailingSeps (s : string) : string :=
  match s with
  | EmptyString => EmptyString
  | String a s' =>
      let r := stripTrailingSeps s' in
      if String.eqb r "" then (if isSep a then "" else String a "") else String a r
  end.

Fixpoint afterLastSep (s : string) : option string :=
  match s with
  | EmptyString => None
  | String a s' =>
      match afterLastSep s' with
      | Some r => Some r
      | None => if isSep a then Some s' else None
      end
  end.

Definition Base (path : string) : string :=
  if String.eqb path "" then "." else
  let p := stripTrailingSeps path in
  let p := default p (afterLastSep p) in
  if String.eqb p "" then "/" else p.

(** [filepath.Ext]: the suffix that starts at the last dot of the last
    element of the path, empty when that element has no dot. *)
Fixpoint hasByte (b : ascii) (s : string) : bool :=
  match s with
  | EmptyString => false
  | String a s' => Ascii.eqb a b || hasByte b s'
  end.

Fixpoint Ext (path : string) : string :=
  match path with
  | EmptyString => EmptyString
  | String a s' =>
      if hasByte "/"%char s' || hasByte "."%char s' then Ext s'
      else if Ascii.eqb a "."%char then path else ""
  end.

(** [strconv.ParseInt s 10 32]: an optional sign followed by one or more
    decimal digits, whose value fits a signed 32-bit integer.  [None] stands
    for the syntax and range errors. *)
Definition digit (a : ascii) : option Z :=
  let n := Z.of_nat (Ascii.nat_of_ascii a) in
  if bool_decide (48 ≤ n ≤ 57)%Z then Some (n - 48)%Z else None.

Fixpoint digitsFrom (acc : Z) (s : string) : option Z :=
  match s with
  | EmptyString => Some acc
  | String a s' =>
      match digit a with
      | Some d => digitsFrom (10 * acc + d)%Z s'
      | None => None
      end
  end.

(** [strconv.ParseUint s 10 _] before the range check. *)
Definition ParseUint (s : string) : option Z :=
  if String.eqb s "" then None else digitsFrom 0 s.

Definition ParseInt32 (s : string) : option Z :=
  match s with
  | EmptyString => None
  | String a s' =>
      let neg := Ascii.eqb a "-"%char in
      let body := if Ascii.eqb a "+"%char || neg then s' else s in
      match ParseUint body with
      | None => None
      | Some un =>
          let cutoff := (2 ^ 31)%Z in
          if negb neg && bool_decide (cutoff ≤ un)%Z then None
          else if neg && bool_decide (cutoff < un)%Z then None
          else Some (if neg then - un else un)%Z
      end
  end.

(** [fmt.Sprint] of an [int]. *)
Definition Sprint (n : Z) : string := NilZero.string_of_int (Z.to_int n).

(** [maps.Copy dst src]: every entry of [src] is written into [dst]; an
    entry of [dst] under a key of [src] is overwritten. *)
Definition maps_Copy (dst src : gmap string string) : gmap string string :=
  map_fold (λ k v d, <[k:=v]> d) dst src.

(** Reading a Go map: a missing key reads as the zero value. *)
Definition index (m : gmap string string) (k : string) : string :=
  default "" (m !! k).

End Go.

(** [result] is the error monad of the driver: the first outcome that is
    not [Ok] ends the computation. *)
#[global] Instance result_ret : MRet result := λ A a, Ok a.
#[global] Instance result_bind : MBind result := λ A B f m,
  match m with
  | Ok a => f a
  | Err e => Err e
  | Fatal msg => Fatal msg
  | Panic msg => Panic msg
  end.

Fixpoint foldM {A B} (f : B → A → result B) (l : list A) (b : B) : result B :=
  match l with
  | [] => Ok b
  | x :: l' => b' ← f b x; foldM f l' b'
  end.

(** [fmt.Errorf("...: %w", err)] on a returned error. *)
Definition wrap {A} (msg : string) (r : result A) : result A :=
  match r with
  | Err e => Err (ErrWrap msg e)
  | _ => r
  end.

(** * The data model (package.go) *)

Record Import := { StorePath : string; ImportPath : string }.

#[global] Instance Import_eq_dec : EqDecision Import.
Proof. solve_decision. Defined.

Record Package := {
  pkgImportPath : string;
  Imports : list string;
  Deps : list string;
}.

Record MetaPackage := {
  metaImportPath : string;
  SubPackages : list Import;
  ImportMap : gmap string string;
}.

(** What opening and decoding a JSON file gives. *)
Inductive file (A : Type) :=
| NoFile
| BadJSON
| Decoded (a : A).
Arguments NoFile {A}.
Arguments BadJSON {A}.
Arguments Decoded {A} a.

(** * The world of one invocation

    Everything the driver reads from outside: the platform, the environment,
    the derivation attributes common to all commands, the files of the store
    and the behaviour of the child processes.  [filepath.Dir] and
    [filepath.Join] are taken as given. *)
Record World := {
  GOOS : string;
  GOARCH : string;
  NumCPU : Z;
  NIX_BUILD_CORES : string;
  Outputs : gmap string string;
  filepath_Dir : string → string;
  filepath_Join : list string → string;
  (** [Context.MatchFile dir name]; [None] is an error. *)
  MatchFile : string → string → option bool;
  (** The unquoted import paths of a .go file, in source order; [None] when
      the file cannot be opened, parsed or unquoted. *)
  parseImports : string → option (list string);
  (** [os.Open] followed by [json.Decode] into a [Package]: the fields
      [Imports] and [Deps]. *)
  readPackage : string → file (list string * list string);
  (** The same into a [MetaPackage]: [SubPackages] and [ImportMap]. *)
  readMetaPackage : string → file (list Import * gmap string string);
  (** [os.MkdirTemp(os.TempDir(), "builder")]. *)
  MkdirTemp : option string;
  (** [os.Create], [os.Mkdir] and [os.Symlink] succeed at this path. *)
  creates : string → bool;
  (** The child process with this argument vector exits with status 0. *)
  runs : list string → bool;
  (** The combined output of [go version]; [None] when it fails. *)
  goVersion : option string;
}.

(** [MetaPackages] are special import paths which represent a commonly used
    set of packages. *)
Definition MetaPackages : list string := ["std"].

(** [FilterInternalPackages] returns true if a package named [importPath] is
    an internal package that should be filtered from the output. *)
Definition FilterInternalPackages (importPath : string) : bool :=
  String.eqb importPath "runtime/cgo" || String.eqb importPath "unsafe".

(** [SortImports] sorts a slice of imports lexicographically by import path.
    [slices.SortFunc] leaves the relative order of entries with equal import
    paths unspecified; see [SortImports_unique]. *)
Definition import_le (a b : Import) : Prop :=
  Go.str_le (ImportPath a) (ImportPath b).

#[global] Instance import_le_dec : RelDecision import_le.
Proof. intros a b. unfold import_le. apply _. Defined.

Definition SortImports (imports : list Import) : list Import :=
  merge_sort import_le imports.

Section package.
Variable w : World.

(** [LoadMetadata[Package]] loads the metadata for a single package from a
    store path; the import path is stamped onto the result. *)
Definition LoadMetadata (dir importPath : string) : result Package :=
  match readPackage w (filepath_Join w [dir; Go.Base importPath +:+ ".json"]) with
  | NoFile => Err (ErrWrap "failed to read package metadata" (ErrMsg "open"))
  | BadJSON => Err (ErrMsg "json")
  | Decoded (i, d) =>
      Ok {| pkgImportPath := importPath; Imports := i; Deps := d |}
  end.

(** [Package.StorePath]. *)
Definition Package_StorePath (p : Package) (dir : string) : string :=
  filepath_Join w [dir; Go.Base (pkgImportPath p) +:+ ".json"].

(** The body of the loop over [pkg.SubPackages]: a package that already
    exists was declared by the user and overrides the meta package. *)
Definition addSubPackage (pkgs : gmap string string) (subPkg : Import)
  : gmap string string :=
  match pkgs !! ImportPath subPkg with
  | Some _ => pkgs
  | None => <[ImportPath subPkg := StorePath subPkg]> pkgs
  end.

(** [ResolveMetaPackages] replaces known meta packages with their
    subpackages.  The two Go maps are updated in place: the function returns
    them as they are left, also when it fails.  [importMap] is [None] for a
    nil map.  The guard [pkgs == nil] of the source is never true where it
    stands (a nil map has no non-empty entry), so no copy is ever made. *)
Fixpoint resolveLoop (metas : list string)
    (pkgs : gmap string string) (importMap : option (gmap string string))
  : gmap string string * option (gmap string string) * result () :=
  match metas with
  | [] => (pkgs, importMap, Ok ())
  | importPath :: rest =>
      let storePath := Go.index pkgs importPath in
      if String.eqb storePath "" then resolveLoop rest pkgs importMap else
      let pkgs := delete importPath pkgs in
      let name := Go.Base importPath in
      match readMetaPackage w (filepath_Join w [storePath; name +:+ ".json"]) with
      | NoFile =>
          (pkgs, importMap, Err (ErrWrap "failed to read meta package" (ErrMsg "open")))
      | BadJSON =>
          (pkgs, importMap, Err (ErrWrap ("failed to read " +:+ importPath) (ErrMsg "json")))
      | Decoded (subPackages, metaMap) =>
          let pkgs := foldl addSubPackage pkgs subPackages in
          let importMap :=
            match importMap with
            | Some m => Some (Go.maps_Copy m metaMap)
            | None => None
            end in
          resolveLoop rest pkgs importMap
      end
  end.

Definition ResolveMetaPackages
    (pkgs : gmap string string) (importMap : option (gmap string string))
  : gmap string string * option (gmap string string) * result () :=
  resolveLoop MetaPackages pkgs importMap.

(** [listFileImports] parses a .go file and returns a list of all package
    paths imported by the file. *)
Definition listFileImports (path : string) : result (list string) :=
  match parseImports w path with
  | Some l => Ok l
  | None => Err (ErrMsg ("parse input at " +:+ path))
  end.

(** The state of the two loops of [ScanImports]. *)
Record scan := {
  scan_imports : list Import;
  scan_rewrites : list Import;
  scan_found : gset string;
}.

Definition scanImport (pkgs : gmap string string)
    (importMap : option (gmap string string)) (path : string)
    (st : scan) (importPath : string) : result scan :=
  if decide (importPath ∈ scan_found st) then Ok st else
  let found := {[importPath]} ∪ scan_found st in
  if FilterInternalPackages importPath
  then Ok {| scan_imports := scan_imports st;
             scan_rewrites := scan_rewrites st;
             scan_found := found |}
  else
    let truePath := Go.index (default ∅ importMap) importPath in
    let rewritten := negb (String.eqb truePath "") in
    let rewrites :=
      if rewritten
      then scan_rewrites st ++ [{| StorePath := truePath; ImportPath := importPath |}]
      else scan_rewrites st in
    let importPath := if rewritten then truePath else importPath in
    match pkgs !! importPath with
    | Some storePath =>
        Ok {| scan_imports :=
                scan_imports st ++ [{| StorePath := storePath; ImportPath := importPath |}];
              scan_rewrites := rewrites;
              scan_found := found |}
    | None => Err (ImportError importPath path)
    end.

Definition scanFile (pkgs : gmap string string)
    (importMap : option (gmap string string))
    (st : scan) (path : string) : result scan :=
  fileImports ← listFileImports path;
  foldM (scanImport pkgs importMap path) fileImports st.

(** [ScanImports] searches through a list of files and resolves each import
    to its export data.  If any imports were rewritten by the import map, an
    import for the original import path pointing to the rewritten path is
    added to the second list of imports.  Both returned lists are sorted. *)
Definition ScanImports (srcs : list string) (pkgs : gmap string string)
    (importMap : option (gmap string string))
  : result (list Import * list Import) :=
  st ← foldM (scanFile pkgs importMap) srcs
       {| scan_imports := []; scan_rewrites := []; scan_found := ∅ |};
  Ok (SortImports (scan_imports st), SortImports (scan_rewrites st)).

End package.

(** * Effects: the files written and the processes run *)

Record EmbedCfg := {
  Patterns : gmap string (list string);
  Files : gmap string string;
}.

(** An [exec.Cmd]: the argument vector (the program first) and the
    environment, [None] when it is inherited. *)
Record Cmd := { Args : list string; Env : option (list string) }.

(** The effects on the file system and the processes run: [os.Mkdir],
    [os.MkdirTemp], the files written, [os.Symlink] and [cmd.Run]. *)
Inductive event :=
| Mkdir (path : string)
| TempDir (path : string)
| WriteFile (path : string) (lines : list string)
| WriteEmbedCfg (path : string) (cfg : EmbedCfg)
| Touch (path : string)
| Symlink (oldname newname : string)
| Run (cmd : Cmd)
| SavePackage (path : string) (pkg : Package).

(** A method with a pointer receiver of type [S]: it may update the
    receiver, appends to the trace of effects, and ends in a [result]. *)
Definition M (S A : Type) : Type := S → list event → S * list event * result A.

#[global] Instance M_ret {S} : MRet (M S) := λ A a s t, (s, t, Ok a).
#[global] Instance M_bind {S} : MBind (M S) := λ A B f m s t,
  match m s t with
  | (s', t', Ok a) => f a s' t'
  | (s', t', Err e) => (s', t', Err e)
  | (s', t', Fatal msg) => (s', t', Fatal msg)
  | (s', t', Panic msg) => (s', t', Panic msg)
  end.

Definition get {S} : M S S := λ s t, (s, t, Ok s).
Definition modify {S} (f : S → S) : M S () := λ s t, (f s, t, Ok ()).
Definition emit {S} (e : event) : M S () := λ s t, (s, t ++ [e], Ok ()).
Definition liftR {S A} (r : result A) : M S A := λ s t, (s, t, r).

(** * The toolchain handle [GoSDK] *)

Record GoSDK := {
  Path : string;
  Version : string;
  CompatVersion : string;
}.

Section sdk.
Variable w : World.

(** The current host platform. This is "$GOOS_$GOARCH". *)
Definition HostPlatform : string := GOOS w +:+ "_" +:+ GOARCH w.

(** [ShortVersion] returns the "major.minor" of the SDK, without the patch
    number. *)
Definition ShortVersion (sdk : GoSDK) : string :=
  match Go.LastIndexDot (Version sdk) with
  | None => Version sdk
  | Some dot => Go.takeBytes dot (Version sdk)
  end.

(** [Include] returns the "pkg/include" directory of the SDK. *)
Definition Include (sdk : GoSDK) : string :=
  filepath_Join w [Path sdk; "pkg"; "include"].

(** [RunTool] creates a new [exec.Cmd] for calling a given tool in the Go
    SDK. *)
Definition RunTool (sdk : GoSDK) (tool : string) (args : list string) : Cmd :=
  {| Args := filepath_Join w [Path sdk; "pkg"; "tool"; HostPlatform; tool] :: args;
     Env := None |}.

(** [RunGo] creates a new [exec.Cmd] for calling the main "go" binary. *)
Definition RunGo (sdk : GoSDK) (args : list string) : Cmd :=
  {| Args := filepath_Join w [Path sdk; "bin"; "go"] :: args; Env := None |}.

(** [compilerVersion] parses the Go compiler version from the output of
    "go version".  [fields[i]] panics when [i] is out of range; the operands
    of [&&] are evaluated from the left, and only while they are true. *)
Definition at_ (fields : list string) (i : nat) : result string :=
  match fields !! i with
  | Some f => Ok f
  | None => Panic "index out of range"
  end.

Definition compilerVersion (sdk : GoSDK) : result string :=
  match goVersion w with
  | None => Err (ErrMsg "exit status")
  | Some info =>
      let fields := Go.Fields info in
      malformed ←
        (if bool_decide (length fields < 3) then
           f0 ← at_ fields 0;
           if negb (String.eqb f0 "go") then
             f1 ← at_ fields 1;
             Ok (negb (String.eqb f1 "version"))
           else Ok false
         else Ok false);
      if (malformed : bool) then Err (ErrMsg ("malformed output " +:+ info)) else
      fullVersion ← at_ fields 2;
      Ok (fst (Go.CutPrefix fullVersion "go"))
  end.

(** [LoadSDK] loads information about a copy of the Go SDK and creates a
    [GoSDK] handle for using it. *)
Definition LoadSDK (path compat : string) : result GoSDK :=
  let sdk := {| Path := path; Version := ""; CompatVersion := compat |} in
  version ← wrap "failed to parse go compiler version" (compilerVersion sdk);
  let sdk := {| Path := path; Version := version; CompatVersion := compat |} in
  Ok (if String.eqb (CompatVersion sdk) ""
      then {| Path := path; Version := version;
              CompatVersion := "go" +:+ ShortVersion sdk |}
      else sdk).

End sdk.

(** * The build workspace (context.go) *)

Section context.
Variable w : World.

(** The package variable [buildDir] is set once the temporary directory
    has been created, which the trace records. *)
Definition buildDirSet (t : list event) : bool :=
  existsb (λ e, match e with TempDir _ => true | _ => false end) t.

(** [BuildDir] creates a shared temporary directory for build-related
    files; every call after the first returns the directory of the first.
    [MkdirTemp w] is the directory that [os.MkdirTemp] gives in this run,
    [None] when it fails: the first call creates it, or ends the program,
    and the variable [buildDir] holds it from then on. *)
Definition BuildDir {S} : M S string := λ s t,
  match MkdirTemp w with
  | Some dir => (s, if buildDirSet t then t else t ++ [TempDir dir], Ok dir)
  | None => (s, t, Fatal "failed to initialize build directory")
  end.

(** [BuildParallelism] returns the number of CPU cores Nix has asked us to
    use.  If NIX_BUILD_CORES is not present, this is 1. *)
Definition BuildParallelism : result Z :=
  let cores := NIX_BUILD_CORES w in
  if String.eqb cores "" then Ok 1%Z
  else if String.eqb cores "0" then Ok (NumCPU w)
  else match Go.ParseInt32 cores with
       | None => Fatal "failed to parse NIX_BUILD_CORES"
       | Some cores => Ok cores
       end.

End context.

(** * The compile driver (compile.go) *)

(** A [Compilation] represents a call to the Go compiler.  The field
    [imports] is [None] while the slice is nil. *)
Record Compilation := {
  SDK : GoSDK;
  c_ImportPath : string;
  Srcs : list string;
  c_Imports : gmap string string;
  c_ImportMap : option (gmap string string);
  c_EmbedCfg : option EmbedCfg;
  goSrcs : list string;
  hSrcs : list string;
  sSrcs : list string;
  includes : list string;
  importCfg : string;
  imports : option (list Import);
  trimPath : string;
}.

Definition set_srcs (g h s : list string) (c : Compilation) : Compilation :=
  {| SDK := SDK c; c_ImportPath := c_ImportPath c; Srcs := Srcs c;
     c_Imports := c_Imports c; c_ImportMap := c_ImportMap c;
     c_EmbedCfg := c_EmbedCfg c;
     goSrcs := g; hSrcs := h; sSrcs := s;
     includes := includes c; importCfg := importCfg c; imports := imports c;
     trimPath := trimPath c |}.

Definition set_importCfg (deps : gmap string string)
    (importMap : option (gmap string string))
    (cfg : string) (l : option (list Import)) (c : Compilation) : Compilation :=
  {| SDK := SDK c; c_ImportPath := c_ImportPath c; Srcs := Srcs c;
     c_Imports := deps; c_ImportMap := importMap;
     c_EmbedCfg := c_EmbedCfg c;
     goSrcs := goSrcs c; hSrcs := hSrcs c; sSrcs := sSrcs c;
     includes := includes c; importCfg := cfg; imports := l;
     trimPath := trimPath c |}.

Definition set_trimPath (p : string) (c : Compilation) : Compilation :=
  {| SDK := SDK c; c_ImportPath := c_ImportPath c; Srcs := Srcs c;
     c_Imports := c_Imports c; c_ImportMap := c_ImportMap c;
     c_EmbedCfg := c_EmbedCfg c;
     goSrcs := goSrcs c; hSrcs := hSrcs c; sSrcs := sSrcs c;
     includes := includes c; importCfg := importCfg c; imports := imports c;
     trimPath := p |}.

Definition set_includes (l : list string) (c : Compilation) : Compilation :=
  {| SDK := SDK c; c_ImportPath := c_ImportPath c; Srcs := Srcs c;
     c_Imports := c_Imports c; c_ImportMap := c_ImportMap c;
     c_EmbedCfg := c_EmbedCfg c;
     goSrcs := goSrcs c; hSrcs := hSrcs c; sSrcs := sSrcs c;
     includes := l; importCfg := importCfg c; imports := imports c;
     trimPath := trimPath c |}.

(** [cmd.Args = append(cmd.Args, ...)]. *)
Definition addArgs (cmd : Cmd) (args : list string) : Cmd :=
  {| Args := Args cmd ++ args; Env := Env cmd |}.

Definition setEnv (cmd : Cmd) (env : list string) : Cmd :=
  {| Args := Args cmd; Env := Some env |}.

Section compile.
Variable w : World.

(** [cmd.Run()], the command line having been printed. *)
Definition run {S} (msg : string) (cmd : Cmd) : M S () :=
  emit (Run cmd);;
  liftR (if runs w (Args cmd) then Ok () else Err (ErrWrap msg (ErrMsg "exit status"))).

(** [os.Create] and its kin at [path], recorded as [e] when it succeeds. *)
Definition create {S} (path : string) (e : event) : M S () :=
  if creates w path then emit e else liftR (Err (ErrMsg ("create " +:+ path))).

(** [sortSrcs] sorts the Srcs list and splits it into Go files, header
    files, and assembly files. *)
Definition classify (acc : list string * list string * list string)
    (src : string) : result (list string * list string * list string) :=
  match MatchFile w (filepath_Dir w src) (Go.Base src) with
  | None => Err (ErrMsg ("match " +:+ src))
  | Some false => Ok acc
  | Some true =>
      let '(g, h, s) := acc in
      let ext := Go.Ext src in
      if String.eqb ext ".go" then Ok (g ++ [src], h, s)
      else if String.eqb ext ".h" then Ok (g, h ++ [src], s)
      else if String.eqb ext ".s" then Ok (g, h, s ++ [src])
      else Fatal ("source " +:+ src +:+ " was neither a .go, .h, or .s file")
  end.

Definition sortSrcs (srcs : list string)
  : result (list string * list string * list string) :=
  '(g, h, s) ← foldM classify srcs ([], [], []);
  Ok (Go.Sort g, Go.Sort h, Go.Sort s).

(** The lines of the compiler's importcfg. *)
Definition importmapLine (pkg : Import) : string :=
  "importmap " +:+ ImportPath pkg +:+ "=" +:+ StorePath pkg.

Definition packagefileLine (ext : string) (pkg : Import) : string :=
  "packagefile " +:+ ImportPath pkg +:+ "=" +:+ StorePath pkg +:+ "/"
    +:+ Go.Base (ImportPath pkg) +:+ ext.

(** [compileImportCfg] creates the importcfg neccesary for the Go compiler
    and returns the path to it, as well as a list of imports for writing the
    metadata later.  The two maps are the caller's, updated in place. *)
Definition compileImportCfg (srcs : list string)
  : M (gmap string string * option (gmap string string)) (string * list Import) :=
  (λ '(deps, importMap) t,
     let '(deps, importMap, r) := ResolveMetaPackages w deps importMap in
     (deps, importMap, t, r));;
  '(deps, importMap) ← get;
  '(imports, rewrites) ← liftR (ScanImports w srcs deps importMap);
  dir ← BuildDir w;
  let cfgPath := filepath_Join w [dir; "importcfg"] in
  create cfgPath
    (WriteFile cfgPath
       (map importmapLine rewrites ++ map (packagefileLine ".x") imports));;
  mret (cfgPath, imports).

(** [packageTrimPath] builds a "-trimpath" argument for the Go compiler to
    remove absolute file paths from the output binary. *)
Definition trimStep (importPath : string) (acc : string * gset string)
    (src : string) : string * gset string :=
  let '(trimPath, srcPaths) := acc in
  let dir := filepath_Dir w src in
  if decide (dir ∈ srcPaths) then acc
  else (trimPath +:+ dir +:+ "=>" +:+ importPath +:+ ";", {[dir]} ∪ srcPaths).

Definition packageTrimPath (srcs : list string) (importPath out : string) : string :=
  fst (foldl (trimStep importPath) ("", ∅) srcs) +:+ out +:+ "=>".

(** [findIncludes] returns a sorted list of include directories for the
    header sources. *)
Definition findIncludes {S} (sdkInclude : string) (hSrcs : list string)
  : M S (list string) :=
  dir ← BuildDir w;
  let hDirs :=
    foldl (λ (hDirs : gset string) src,
             let dir := filepath_Dir w src in
             if Go.HasPrefix dir sdkInclude then hDirs else {[dir]} ∪ hDirs)
          ({[dir]} ∪ {[sdkInclude]}) hSrcs in
  mret (Go.SortedKeys hDirs).

(** [symlinkArchHeaders] symlinks architecture-specific headers (ending in
    _$GOOS or _$GOARCH) to the generic path (ending in _GOOS or _GOARCH). *)
Definition archHeaderAlias (base : string) : string :=
  let platformSuffix := "_" +:+ HostPlatform w +:+ ".h" in
  let goosSuffix := "_" +:+ GOOS w +:+ ".h" in
  let goarchSuffix := "_" +:+ GOARCH w +:+ ".h" in
  if Go.HasSuffix base platformSuffix
  then fst (Go.CutSuffix base platformSuffix) +:+ "_GOOS_GOARCH.h"
  else if Go.HasSuffix base goosSuffix
  then fst (Go.CutSuffix base goosSuffix) +:+ "_GOOS.h"
  else if Go.HasSuffix base goarchSuffix
  then fst (Go.CutSuffix base goarchSuffix) +:+ "_GOARCH.h"
  else "".

Fixpoint symlinkArchHeaders {S} (hFiles : list string) : M S () :=
  match hFiles with
  | [] => mret ()
  | path :: rest =>
      let newBase := archHeaderAlias (Go.Base path) in
      (if String.eqb newBase "" then mret ()
       else
         dir ← BuildDir w;
         let link := filepath_Join w [dir; newBase] in
         create link (Symlink path link));;
      symlinkArchHeaders rest
  end.

(** [touchFile] creates an empty file at path. *)
Definition touchFile {S} (path : string) : M S () := create path (Touch path).

(** [appendArchive] adds object files to an archive. *)
Definition appendArchive {S} (sdk : GoSDK) (archive : string)
    (objs : list string) : M S () :=
  let cmd := RunTool w sdk "pack" ["r"; archive] in
  let cmd := addArgs cmd objs in
  run "failed to pack archive" cmd.

(** [hasForwardDecl] contains hard-coded exceptions for packages in the
    standard library with forward declarations. *)
Definition hasForwardDecl (importPath : string) : bool :=
  if String.eqb importPath "bytes" || String.eqb importPath "internal/poll"
     || String.eqb importPath "net" || String.eqb importPath "os"
     || String.eqb importPath "runtime/metrics"
  then true
  else if String.eqb importPath "runtime/pprof"
     || String.eqb importPath "runtime/trace" || String.eqb importPath "sync"
     || String.eqb importPath "syscall" || String.eqb importPath "time"
  then true
  else false.

(** [compileEmbedCfg] creates the embedcfg neccesary for the Go compiler and
    returns the path to it. *)
Definition compileEmbedCfg {S} (cfg : EmbedCfg) : M S string :=
  dir ← BuildDir w;
  let cfgPath := filepath_Join w [dir; "embedcfg"] in
  create cfgPath (WriteEmbedCfg cfgPath cfg);;
  mret cfgPath.

(** [AssembleSources] assembles .s source file into an object for packing
    into the package archive. *)
Definition AssembleSources (srcs : list string) (out : string)
    (extraArgs : list string) : M Compilation string :=
  c ← get;
  let cmd := RunTool w (SDK c) "asm" extraArgs in
  let cmd := setEnv cmd ["CGO_ENABLED=0"] in
  let cmd := addArgs cmd ["-p"; c_ImportPath c; "-trimpath"; trimPath c] in
  let cmd := foldl (λ cmd dir, addArgs cmd ["-I"; dir]) cmd (includes c) in
  let cmd := addArgs cmd ["-D"; "GOOS_" +:+ GOOS w;
                          "-D"; "GOARCH_" +:+ GOARCH w;
                          "-o"; out] in
  let cmd := addArgs cmd srcs in
  run "failed to assemble sources" cmd;;
  mret out.

End compile.

(** [return fmt.Errorf("...: %w", err)] and [log.Fatal(err)] around a call. *)
Definition wrapM {S A} (msg : string) (m : M S A) : M S A := λ s t,
  let '(s', t', r) := m s t in (s', t', wrap msg r).

Definition fatal {S A} (m : M S A) : M S A := λ s t,
  let '(s', t', r) := m s t in
  (s', t', match r with Err _ => Fatal "fatal" | _ => r end).

(** A method called on a receiver [s] created on the spot. *)
Definition withState {S S' A} (s : S) (m : M S A) : M S' A := λ s' t,
  let '(_, t', r) := m s t in (s', t', r).

Record CompileAttrs := {
  PackagePath : string;
  a_Srcs : list string;
  a_Imports : gmap string string;
  a_ImportMap : option (gmap string string);
  a_EmbedCfg : option EmbedCfg;
  CompileFlags : list string;
}.

Section driver.
Variable w : World.

(** [SaveMetadata] writes the metadata for a package to a store path. *)
Definition SaveMetadata {S} (dir : string) (data : Package) : M S () :=
  let path := Package_StorePath w data dir in
  create w path (SavePackage path data).

(** [OutputPath] looks up a derivation output and creates an empty
    directory there. *)
Definition OutputPath {S} (output : string) : M S string :=
  let dir := Go.index (Outputs w) output in
  if String.eqb dir ""
  then liftR (Err (ErrMsg ("derivation was expected to produce an output " +:+ output)))
  else
    wrapM "failed to create output directory" (create w dir (Mkdir dir));;
    mret dir.

(** [Deps] resolves a list of all packages directly imported by the compiled
    package, and all packages depended on by those imports.  This must be
    called after the package has already been compiled. *)
Definition depsStep (acc : list string * gset string) (dep : Import)
  : result (list string * gset string) :=
  let '(imports, deps) := acc in
  let imports := imports ++ [ImportPath dep] in
  let deps := {[ImportPath dep]} ∪ deps in
  pkg ← LoadMetadata w (StorePath dep) (ImportPath dep);
  Ok (imports, foldl (λ deps subDep, {[subDep]} ∪ deps) deps (Deps pkg)).

Definition Compilation_Deps (c : Compilation)
  : result (list string * list string) :=
  match imports c with
  | None => Panic "Compilation.Deps() called before Compilation.CompilePackage()"
  | Some l =>
      '(imports, deps) ← foldM depsStep l ([], ∅);
      Ok (imports, Go.SortedKeys deps)
  end.

(** The loop of [CompilePackage] that assembles every .s file on its own. *)
Fixpoint assembleEach (srcs : list string) (sObjs : list string)
  : M Compilation (list string) :=
  match srcs with
  | [] => mret sObjs
  | src :: rest =>
      let base := fst (Go.CutSuffix (Go.Base src) ".s") in
      dir ← BuildDir w;
      obj ← AssembleSources w [src] (filepath_Join w [dir; base +:+ ".o"]) [];
      assembleEach rest (sObjs ++ [obj])
  end.

(** The first part of [CompilePackage], up to the call of [cmd.Run()]: the
    sources are classified, the importcfg written, the assembly pre-pass
    run, and the command of the compiler assembled. *)
Definition compileCommand (obj exportData : string) (extraArgs : list string)
  : M Compilation Cmd :=
  (λ c t,
     match sortSrcs w (Srcs c) with
     | Ok (g, h, s) => (set_srcs g h s c, t, Ok ())
     | Err e =>
         (set_srcs [] [] [] c, t,
          Err (ErrWrap "failed to enumerate source files" e))
     | Fatal msg => (c, t, Fatal msg)
     | Panic msg => (c, t, Panic msg)
     end);;
  (λ c t,
     let '(deps, importMap, t', r) :=
       compileImportCfg w (goSrcs c) (c_Imports c, c_ImportMap c) t in
     match r with
     | Ok (cfg, l) => (set_importCfg deps importMap cfg (Some l) c, t', Ok ())
     | Err e =>
         (set_importCfg deps importMap "" None c, t',
          Err (ErrWrap "failed to generate compiler importcfg" e))
     | Fatal msg => (c, t', Fatal msg)
     | Panic msg => (c, t', Panic msg)
     end);;
  c ← get;
  modify (set_trimPath
            (packageTrimPath w (Srcs c) (c_ImportPath c) (filepath_Dir w obj)));;
  (if bool_decide (0 < length (sSrcs c)) then
     dir ← BuildDir w;
     c ← get;
     modify (set_trimPath (trimPath c +:+ ";" +:+ dir +:+ "=>"))
   else mret ());;
  c ← get;
  let cmd := RunTool w (SDK c) "compile" extraArgs in
  let cmd := setEnv cmd ["CGO_ENABLED=0"] in
  let cmd := addArgs cmd ["-o"; exportData;
                          "-linkobj"; obj;
                          "-trimpath"; trimPath c;
                          "-p"; c_ImportPath c;
                          "-lang"; CompatVersion (SDK c)] in
  cmd ←
    (if bool_decide (0 < length (sSrcs c)) then
       incl ← findIncludes w (Include w (SDK c)) (hSrcs c);
       modify (set_includes incl);;
       dir ← BuildDir w;
       let asmHeader := filepath_Join w [dir; "go_asm.h"] in
       touchFile w asmHeader;;
       symlinkArchHeaders w (hSrcs c);;
       symabis ← AssembleSources w (sSrcs c) (filepath_Join w [dir; "symabis"])
                   ["-gensymabis"];
       mret (addArgs cmd ["-symabis"; symabis; "-asmhdr"; asmHeader])
     else if negb (hasForwardDecl (c_ImportPath c)) then
       mret (addArgs cmd ["-complete"])
     else mret cmd);
  cmd ←
    match c_EmbedCfg c with
    | Some cfg =>
        embedCfg ← wrapM "failed to generate compiler embedcfg"
                     (compileEmbedCfg w cfg);
        mret (addArgs cmd ["-embedcfg"; embedCfg])
    | None => mret cmd
    end;
  cores ← liftR (BuildParallelism w);
  let cmd := addArgs cmd ["-c"; Go.Sprint cores;
                          "-nolocalimports";
                          "-importcfg"; importCfg c;
                          "-pack";
                          "--"] in
  mret (addArgs cmd (goSrcs c)).

(** [CompilePackage] invokes the Go compiler to execute the Compilation. *)
Definition CompilePackage (obj exportData : string) (extraArgs : list string)
  : M Compilation () :=
  cmd ← compileCommand obj exportData extraArgs;
  run w "failed to compile binary" cmd;;
  c ← get;
  sObjs ← assembleEach (sSrcs c) [];
  match sObjs with
  | [] => mret ()
  | _ => appendArchive w (SDK c) obj sObjs
  end.

(** The [Compilation] that [compile] creates from the attributes. *)
Definition newCompilation (sdk : GoSDK) (attrs : CompileAttrs) : Compilation :=
  {| SDK := sdk; c_ImportPath := PackagePath attrs; Srcs := a_Srcs attrs;
     c_Imports := a_Imports attrs; c_ImportMap := a_ImportMap attrs;
     c_EmbedCfg := a_EmbedCfg attrs;
     goSrcs := []; hSrcs := []; sSrcs := []; includes := [];
     importCfg := ""; imports := None; trimPath := "" |}.

(** [compile], the compile command. *)
Definition compile (sdk : GoSDK) (attrs : CompileAttrs) : M Compilation () :=
  libDir ← fatal (OutputPath "lib");
  exportDir ← fatal (OutputPath "export");
  let name := Go.Base (PackagePath attrs) in
  fatal (CompilePackage (filepath_Join w [libDir; name +:+ ".a"])
                        (filepath_Join w [exportDir; name +:+ ".x"])
                        (CompileFlags attrs));;
  c ← get;
  '(imports, deps) ← fatal (liftR (Compilation_Deps c));
  let pkg := {| pkgImportPath := PackagePath attrs;
                Imports := imports; Deps := deps |} in
  fatal (SaveMetadata exportDir pkg).

Definition run_compile (sdk : GoSDK) (attrs : CompileAttrs)
  : list event * result () :=
  let '(_, t, r) := compile sdk attrs (newCompilation sdk attrs) [] in (t, r).

End driver.

(** * The link driver (link.go) *)

Record LinkAttrs := {
  l_PackagePath : string;
  Main : string;
  Name : string;
  a_Deps : gmap string string;
  LinkFlags : list string;
}.

(** A [Linkage] represents a call to the Go linker. *)
Record Linkage := {
  l_SDK : GoSDK;
  l_Main : Package;
  l_Deps : gmap string string;
  l_importCfg : string;
}.

Definition set_link (deps : gmap string string) (cfg : string) (l : Linkage)
  : Linkage :=
  {| l_SDK := l_SDK l; l_Main := l_Main l; l_Deps := deps; l_importCfg := cfg |}.

Section link.
Variable w : World.

(** The entries of the linker's importcfg, before they are written. *)
Definition linkEntry (main : Package) (deps : gmap string string)
    (acc : list Import) (importPath : string) : result (list Import) :=
  let storePath := Go.index deps importPath in
  if negb (String.eqb storePath "")
  then Ok (acc ++ [{| StorePath := storePath; ImportPath := importPath |}])
  else Err (ImportError importPath (pkgImportPath main)).

Definition linkImports (main : Package) (mainPath : string)
    (deps : gmap string string) : result (list Import) :=
  l ← foldM (linkEntry main deps) (Deps main) [];
  Ok (SortImports
        (l ++ [{| StorePath := mainPath; ImportPath := "command-line-arguments" |}])).

(** [linkImportCfg] creates the importcfg neccesary for the Go linker and
    returns the path to it.  [deps] is the caller's map, updated in place. *)
Definition linkImportCfg (main : Package) (mainPath : string)
  : M (gmap string string) string :=
  (λ deps t,
     let '(deps, _, r) := ResolveMetaPackages w deps None in (deps, t, r));;
  deps ← get;
  l ← liftR (linkImports main mainPath deps);
  dir ← BuildDir w;
  let cfgPath := filepath_Join w [dir; "importcfg.link"] in
  create w cfgPath (WriteFile cfgPath (map (packagefileLine ".a") l));;
  mret cfgPath.

(** [LinkPackage] invokes the Go linker to execute the Linkage. *)
Definition LinkPackage (out : string) (extraArgs : list string) : M Linkage () :=
  l ← get;
  let storePath := Go.index (l_Deps l) (pkgImportPath (l_Main l)) in
  if String.eqb storePath ""
  then liftR (Err (ImportError (pkgImportPath (l_Main l)) (pkgImportPath (l_Main l))))
  else
    (λ l t,
       let '(deps, t', r) := linkImportCfg (l_Main l) storePath (l_Deps l) t in
       match r with
       | Ok cfg => (set_link deps cfg l, t', Ok ())
       | Err e =>
           (set_link deps "" l, t',
            Err (ErrWrap "failed to generate linker importcfg" e))
       | Fatal msg => (l, t', Fatal msg)
       | Panic msg => (l, t', Panic msg)
       end);;
    l ← get;
    let cmd := RunTool w (l_SDK l) "link" extraArgs in
    let cmd := setEnv cmd ["CGO_ENABLED=0"; "GOROOT="] in
    let cmd := addArgs cmd
                 ["-o"; out;
                  "-importcfg"; l_importCfg l;
                  "-buildmode"; "exe";
                  storePath +:+ "/" +:+ Go.Base (pkgImportPath (l_Main l)) +:+ ".a"] in
    run w "failed to link binary" cmd.

(** [link], the link command. *)
Definition link (sdk : GoSDK) (attrs : LinkAttrs) : M () () :=
  outDir ← fatal (OutputPath w "out");
  let binDir := filepath_Join w [outDir; "bin"] in
  fatal (create w binDir (Mkdir binDir));;
  main ← fatal (liftR (LoadMetadata w (Main attrs) (l_PackagePath attrs)));
  let linkage := {| l_SDK := sdk; l_Main := main; l_Deps := a_Deps attrs;
                    l_importCfg := "" |} in
  fatal (withState linkage
           (LinkPackage (filepath_Join w [binDir; Name attrs]) (LinkFlags attrs))).

Definition run_link (sdk : GoSDK) (attrs : LinkAttrs) : list event * result () :=
  let '(_, t, r) := link sdk attrs () [] in (t, r).

End link.

(** * Notions used to state the properties *)

(** The effect of a call of [BuildDir] on the trace [t]: the creation of
    the directory, unless the trace has it already. *)
Definition createdBy (dir : string) (t : list event) : list event :=
  if buildDirSet t then [] else [TempDir dir].

(** The store path that a list of bindings gives to [p]: that of the first
    entry with this import path. *)
Fixpoint firstStorePath (p : string) (subs : list Import) : option string :=
  match subs with
  | [] => None
  | sub :: rest =>
      if decide (ImportPath sub = p) then Some (StorePath sub)
      else firstStorePath p rest
  end.

(** A list of import paths is strictly ascending. *)
Definition ascending (l : list string) : Prop := StronglySorted Go.str_lt l.

#[global] Instance ascending_dec l : Decision (ascending l).
Proof. unfold ascending. apply _. Defined.

(** The forward-declaration allowlist as the specification lists it. *)
Definition allowlist_spec : list string :=
  ["bytes"; "internal/poll"; "net"; "os"; "runtime/metrics";
   "runtime/pprof"; "runtime/trace"; "sync"; "syscall"; "time"].

(** The entries of a trim path: one per source directory, then the output
    directory, then the build directory when there is assembly. *)
Definition trimEntries (dirs : list string) (importPath outDir : string)
    (asmBuildDir : option string) : list string :=
  map (λ dir, dir +:+ "=>" +:+ importPath) dirs
  ++ [outDir +:+ "=>"]
  ++ match asmBuildDir with Some dir => [dir +:+ "=>"] | None => [] end.

(** The same entries in the order of the specification: the build
    directory before the output directory. *)
Definition trimEntries_spec (dirs : list string) (importPath outDir : string)
    (asmBuildDir : option string) : list string :=
  map (λ dir, dir +:+ "=>" +:+ importPath) dirs
  ++ match asmBuildDir with Some dir => [dir +:+ "=>"] | None => [] end
  ++ [outDir +:+ "=>"].

(** [s] is the decimal numeral of [n]: an optional sign and one or more
    digits. *)
Definition signedDecimal (s : string) (n : Z) : Prop :=
  ∃ sign body u,
    s = sign +:+ body ∧ (sign = "" ∨ sign = "+" ∨ sign = "-") ∧
    body ≠ "" ∧ Go.digitsFrom 0 body = Some u ∧
    n = (if String.eqb sign "-" then - u else u)%Z.

(** The range of a signed 32-bit integer. *)
Definition int32 (n : Z) : Prop := (- 2 ^ 31 ≤ n < 2 ^ 31)%Z.

(** The text that the loop of [packageTrimPath] writes for [dirs]. *)
Definition trimPrefix (importPath : string) (dirs : list string) : string :=
  foldr (λ dir s, dir +:+ "=>" +:+ importPath +:+ ";" +:+ s) "" dirs.

(** A step of [CompilePackage] that leaves the resolved imports of the
    compilation as they are, whatever its outcome. *)
Definition keepsImports {A} (m : M Compilation A) : Prop :=
  ∀ c t c' t' r, m c t = (c', t', r) → imports c' = imports c.


(** * Concrete worlds

    [joinPath] and [dirOf] agree with [filepath.Join] and [filepath.Dir] on
    the clean absolute paths used below. *)
Definition joinPath (l : list string) : string := String.concat "/" l.

Fixpoint dirOf (path : string) : string :=
  match path with
  | EmptyString => EmptyString
  | String a s' =>
      if Go.hasByte "/"%char s' then String a (dirOf s') else EmptyString
  end.

Fixpoint lookupFile {A} (tbl : list (string * A)) (path : string) : option A :=
  match tbl with
  | [] => None
  | (p, a) :: rest => if String.eqb p path then Some a else lookupFile rest path
  end.

Definition readFile {A} (tbl : list (string * A)) (path : string) : file A :=
  match lookupFile tbl path with
  | Some a => Decoded a
  | None => NoFile
  end.

(** A linux/amd64 derivation build in which every file can be created and
    every tool succeeds; the sources, sidecars and environment vary. *)
Definition builderWorld (cores : string) (outputs : gmap string string)
    (sources : list (string * list string))
    (sidecars : list (string * (list string * list string)))
    (metas : list (string * (list Import * gmap string string)))
    (version : option string) : World :=
  {| GOOS := "linux"; GOARCH := "amd64"; NumCPU := 8;
     NIX_BUILD_CORES := cores;
     Outputs := outputs;
     filepath_Dir := dirOf; filepath_Join := joinPath;
     MatchFile := λ _ _, Some true;
     parseImports := lookupFile sources;
     readPackage := readFile sidecars;
     readMetaPackage := readFile metas;
     MkdirTemp := Some "/build/builder1";
     creates := λ _, true;
     runs := λ _, true;
     goVersion := version |}.

Definition compileOutputs : gmap string string :=
  {[ "lib" := "/nix/store/foo-lib"; "export" := "/nix/store/foo-export" ]}.

Definition sdk1 : GoSDK :=
  {| Path := "/nix/store/go/share/go"; Version := "1.23.5";
     CompatVersion := "go1.23" |}.

(** Scenario S1: package [acme/foo] with two sources that import [fmt] and
    [acme/bar]. *)
Definition wS1 : World :=
  builderWorld "4" compileOutputs
    [("/src/acme/foo/a.go", ["fmt"]);
     ("/src/acme/foo/b.go", ["acme/bar"; "unsafe"])]
    [("/nix/store/AAA/fmt.json", (["errors"; "io"], ["errors"; "io"]));
     ("/nix/store/BBB/bar.json", (["fmt"], ["errors"; "fmt"; "io"]))]
    [] None.

Definition attrsS1 : CompileAttrs :=
  {| PackagePath := "acme/foo";
     a_Srcs := ["/src/acme/foo/a.go"; "/src/acme/foo/b.go"];
     a_Imports := {[ "fmt" := "/nix/store/AAA"; "acme/bar" := "/nix/store/BBB" ]};
     a_ImportMap := None;
     a_EmbedCfg := None;
     CompileFlags := [] |}.

(** Scenario S5: a package with an assembly source. *)
Definition wAsm : World :=
  builderWorld "" compileOutputs [("/src/acme/asm/arch.go", [])] [] [] None.

Definition attrsAsm : CompileAttrs :=
  {| PackagePath := "acme/asm";
     a_Srcs := ["/src/acme/asm/arch.go"; "/src/acme/asm/impl_linux_amd64.h";
                "/src/acme/asm/impl_amd64.s"];
     a_Imports := ∅;
     a_ImportMap := None;
     a_EmbedCfg := None;
     CompileFlags := [] |}.

(** Two source-level import paths that the import map sends to the same
    package. *)
Definition wDup : World :=
  builderWorld "" compileOutputs
    [("/src/acme/dup/a.go", ["x"; "y"])]
    [("/nix/store/ZZZ/z.json", ([], ["q"]))]
    [] None.

Definition attrsDup : CompileAttrs :=
  {| PackagePath := "acme/dup";
     a_Srcs := ["/src/acme/dup/a.go"];
     a_Imports := {[ "z" := "/nix/store/ZZZ" ]};
     a_ImportMap := Some {[ "x" := "z"; "y" := "z" ]};
     a_EmbedCfg := None;
     CompileFlags := [] |}.

(** Linking [main]: the attribute [main] is the export output of the main
    package, the table [deps] holds the lib outputs. *)
Definition wLink : World :=
  builderWorld "" {[ "out" := "/nix/store/hello" ]} []
    [("/nix/store/main-export/main.json", (["fmt"], ["fmt"]))]
    [] None.

Definition attrsLink : LinkAttrs :=
  {| l_PackagePath := "main";
     Main := "/nix/store/main-export";
     Name := "hello";
     a_Deps := {[ "main" := "/nix/store/main-lib"; "fmt" := "/nix/store/fmt-lib" ]};
     LinkFlags := [] |}.

(** The archive of the main package as the specification places it. *)
Definition mainArchive_spec (attrs : LinkAttrs) : string :=
  Main attrs +:+ "/" +:+ Go.Base (l_PackagePath attrs) +:+ ".a".

(** Builds that differ in [NIX_BUILD_CORES] and in the output of
    [go version]. *)
Definition wCores (cores : string) : World := builderWorld cores ∅ [] [] [] None.

Definition wVersion (info : string) : World :=
  builderWorld "" ∅ [] [] [] (Some info).

(** Property P5: the table binds [std] and [fmt], and the meta package
    declares [fmt] and [io]. *)
Definition wP5 : World :=
  builderWorld "" ∅ [] []
    [("/nix/store/S/std.json",
      ([{| StorePath := "/nix/store/F'"; ImportPath := "fmt" |};
        {| StorePath := "/nix/store/I"; ImportPath := "io" |}], ∅))]
    None.

Definition importsP5 : gmap string string :=
  {[ "std" := "/nix/store/S"; "fmt" := "/nix/store/F" ]}.

(** A meta package whose import map has an entry for [a/x]. *)
Definition wC2 : World :=
  builderWorld "" ∅ [] []
    [("/nix/store/std/std.json", ([], {[ "a/x" := "meta/x" ]}))] None.

(** Scenario S1 with a compiler that exits with an error. *)
Definition wFails : World :=
  {| GOOS := GOOS wS1; GOARCH := GOARCH wS1; NumCPU := NumCPU wS1;
     NIX_BUILD_CORES := NIX_BUILD_CORES wS1;
     Outputs := Outputs wS1;
     filepath_Dir := filepath_Dir wS1; filepath_Join := filepath_Join wS1;
     MatchFile := MatchFile wS1;
     parseImports := parseImports wS1;
     readPackage := readPackage wS1;
     readMetaPackage := readMetaPackage wS1;
     MkdirTemp := MkdirTemp wS1;
     creates := creates wS1;
     runs := λ _, false;
     goVersion := goVersion wS1 |}.

Definition compileFails : Compilation * list event * result () :=
  CompilePackage wFails "/nix/store/foo-lib/foo.a" "/nix/store/foo-export/foo.x"
    [] (newCompilation sdk1 attrsS1) [].

(** * Notions used to state further properties *)

(** The entry of the import map for a source-level import path ([""] when
    there is none), and the path under which the import is resolved. *)
Definition rewritten (importMap : option (gmap string string)) (p : string)
  : string :=
  Go.index (default ∅ importMap) p.

Definition canonical (importMap : option (gmap string string)) (p : string)
  : string :=
  if String.eqb (rewritten importMap p) "" then p else rewritten importMap p.

(** [p] is imported by one of the sources. *)
Definition sourceImport (w : World) (srcs : list string) (p : string) : Prop :=
  ∃ path l, path ∈ srcs ∧ parseImports w path = Some l ∧ p ∈ l.

(** The bindings and the aliases that the scan collects for the distinct
    source-level imports [seq], in the order in which they are seen. *)
Definition kept (p : string) : Prop := FilterInternalPackages p = false.

#[global] Instance kept_dec p : Decision (kept p).
Proof. unfold kept. apply _. Defined.

Definition resolvedOf (pkgs : gmap string string)
    (importMap : option (gmap string string)) (seq : list string) : list Import :=
  (λ p, {| StorePath := Go.index pkgs (canonical importMap p);
           ImportPath := canonical importMap p |}) <$> filter kept seq.

Definition aliased (importMap : option (gmap string string)) (p : string) : Prop :=
  kept p ∧ rewritten importMap p ≠ "".

#[global] Instance aliased_dec importMap p : Decision (aliased importMap p).
Proof. unfold aliased. apply _. Defined.

Definition aliasesOf (importMap : option (gmap string string))
    (seq : list string) : list Import :=
  (λ p, {| StorePath := rewritten importMap p; ImportPath := p |})
    <$> filter (aliased importMap) seq.

(** The invariant of the two loops of [ScanImports]: [seq] lists the
    distinct source-level imports seen so far. *)
Definition scanInv (pkgs : gmap string string)
    (importMap : option (gmap string string))
    (seq : list string) (st : scan) : Prop :=
  NoDup seq ∧
  (∀ p, p ∈ scan_found st ↔ p ∈ seq) ∧
  scan_imports st = resolvedOf pkgs importMap seq ∧
  scan_rewrites st = aliasesOf importMap seq ∧
  (∀ p, p ∈ seq → kept p → is_Some (pkgs !! canonical importMap p)).

(** [src] is enabled on the platform and has the extension [ext]. *)
Definition enabledWith (w : World) (ext : string) (src : string) : Prop :=
  MatchFile w (filepath_Dir w src) (Go.Base src) = Some true ∧ Go.Ext src = ext.

#[global] Instance enabledWith_dec w ext src : Decision (enabledWith w ext src).
Proof. unfold enabledWith. apply _. Defined.

(** [src] is a source that [sortSrcs] can classify or drop. *)
Definition classifiable (w : World) (src : string) : Prop :=
  MatchFile w (filepath_Dir w src) (Go.Base src) = Some false ∨
  enabledWith w ".go" src ∨ enabledWith w ".h" src ∨ enabledWith w ".s" src.

(** The header [path] has a platform-specific name. *)
Definition hasAlias (w : World) (path : string) : Prop :=
  archHeaderAlias w (Go.Base path) ≠ "".

#[global] Instance hasAlias_dec w path : Decision (hasAlias w path).
Proof. unfold hasAlias. apply _. Defined.

(** The linker's entry for a dependency, and the dependencies of the main
    package that the table does not bind to a store path. *)
Definition depEntry (deps : gmap string string) (p : string) : Import :=
  {| StorePath := Go.index deps p; ImportPath := p |}.

Definition unbound (deps : gmap string string) (p : string) : Prop :=
  Go.index deps p = "".

#[global] Instance unbound_dec deps p : Decision (unbound deps p).
Proof. unfold unbound. apply _. Defined.


(** The command of one call of [AssembleSources] on the compilation [c]. *)
Definition asmCommand (w : World) (c : Compilation) (srcs : list string)
    (out : string) (extraArgs : list string) : Cmd :=
  let cmd := RunTool w (SDK c) "asm" extraArgs in
  let cmd := setEnv cmd ["CGO_ENABLED=0"] in
  let cmd := addArgs cmd ["-p"; c_ImportPath c; "-trimpath"; trimPath c] in
  let cmd := foldl (λ cmd dir, addArgs cmd ["-I"; dir]) cmd (includes c) in
  let cmd := addArgs cmd ["-D"; "GOOS_" +:+ GOOS w;
                          "-D"; "GOARCH_" +:+ GOARCH w;
                          "-o"; out] in
  addArgs cmd srcs.

(** The object file of an assembly source in the build directory. *)
Definition asmObject (w : World) (dir src : string) : string :=
  filepath_Join w [dir; (Go.CutSuffix (Go.Base src) ".s").1 +:+ ".o"].

(** The links that [symlinkArchHeaders] makes in the build directory. *)
Definition symlinkEvents (w : World) (dir : string) (hFiles : list string)
  : list event :=
  (λ path, Symlink path (filepath_Join w [dir; archHeaderAlias w (Go.Base path)]))
    <$> filter (hasAlias w) hFiles.

(** The effects of [CompilePackage] around the run of the compiler when the
    package has assembly sources: before it, the empty [go_asm.h], the links
    of the headers and the run that generates the symbol ABIs; after it, one
    run of the assembler per source and the run of [pack]. *)
Definition asmBefore (w : World) (dir : string) (c : Compilation) : list event :=
  if bool_decide (0 < length (sSrcs c)) then
    [Touch (filepath_Join w [dir; "go_asm.h"])]
    ++ symlinkEvents w dir (hSrcs c)
    ++ [Run (asmCommand w c (sSrcs c) (filepath_Join w [dir; "symabis"])
               ["-gensymabis"])]
  else [].

Definition asmAfter (w : World) (dir obj : string) (c : Compilation)
  : list event :=
  if bool_decide (0 < length (sSrcs c)) then
    ((λ src, Run (asmCommand w c [src] (asmObject w dir src) [])) <$> sSrcs c)
    ++ [Run (addArgs (RunTool w (SDK c) "pack" ["r"; obj])
               (asmObject w dir <$> sSrcs c))]
  else [].

Definition embedEvents (w : World) (dir : string) (c : Compilation)
  : list event :=
  match c_EmbedCfg c with
  | Some cfg => [WriteEmbedCfg (filepath_Join w [dir; "embedcfg"]) cfg]
  | None => []
  end.

(** Scenario S5 as a call of [CompilePackage]. *)
Definition compileAsm : Compilation * list event * result () :=
  CompilePackage wAsm "/nix/store/foo-lib/asm.a" "/nix/store/foo-export/asm.x" []
    (newCompilation sdk1 attrsAsm) [].

(** A direct import whose sidecar cannot be loaded. *)
Definition sidecarFails (w : World) (d : Import) : Prop :=
  match LoadMetadata w (StorePath d) (ImportPath d) with
  | Ok _ => False
  | _ => True
  end.

#[global] Instance sidecarFails_dec w d : Decision (sidecarFails w d).
Proof.
  unfold sidecarFails.
  destruct (LoadMetadata w (StorePath d) (ImportPath d)); apply _.
Defined.

(** A compilation after a scan that found one import without a sidecar. *)
Definition compilationNoSidecar : Compilation :=
  set_importCfg ∅ None "/build/builder1/importcfg"
    (Some [{| StorePath := "/nix/store/AAA"; ImportPath := "fmt" |};
           {| StorePath := "/nix/store/gone"; ImportPath := "io" |}])
    (newCompilation sdk1 attrsS1).

(** The compilation of [acme/foo] when the derivation binds none of its
    imports. *)
Definition compilationUnbound : Compilation :=
  newCompilation sdk1
    {| PackagePath := "acme/foo";
       a_Srcs := ["/src/acme/foo/a.go"; "/src/acme/foo/b.go"];
       a_Imports := ∅;
       a_ImportMap := None;
       a_EmbedCfg := None;
       CompileFlags := [] |}.

(** * Checks of the model of the standard library *)

Example Base_ex1 : Go.Base "acme/bar" = "bar". Proof. reflexivity. Qed.
Example Base_ex2 : Go.Base "/nix/store/x/" = "x". Proof. reflexivity. Qed.
Example Base_ex3 : Go.Base "///" = "/". Proof. reflexivity. Qed.
Example Base_ex4 : Go.Base "fmt" = "fmt". Proof. reflexivity. Qed.
Example Ext_ex1 : Go.Ext "/src/a.b/impl_amd64.s" = ".s". Proof. reflexivity. Qed.
Example Ext_ex2 : Go.Ext "/src/a.b/README" = "". Proof. reflexivity. Qed.
Example Fields_ex1 :
  Go.Fields "go version go1.23.5 linux/amd64
" = ["go"; "version"; "go1.23.5"; "linux/amd64"].
Proof. reflexivity. Qed.
Example Fields_ex2 :
  Go.Fields ("go version"
             +:+ String (Ascii.ascii_of_nat 194) (String (Ascii.ascii_of_nat 160)
                   "go1.23.5 linux/amd64"))
  = ["go"; "version"; "go1.23.5"; "linux/amd64"].
Proof. reflexivity. Qed.
Example Fields_ex3 :
  Go.Fields ("a"
             +:+ String (Ascii.ascii_of_nat 226) (String (Ascii.ascii_of_nat 128)
                   (String (Ascii.ascii_of_nat 139) "b")))
  = ["a" +:+ String (Ascii.ascii_of_nat 226) (String (Ascii.ascii_of_nat 128)
                   (String (Ascii.ascii_of_nat 139) "b"))].
Proof. reflexivity. Qed.
Example ParseInt32_ex1 : Go.ParseInt32 "4" = Some 4%Z. Proof. reflexivity. Qed.
Example ParseInt32_ex2 : Go.ParseInt32 "x" = None. Proof. reflexivity. Qed.
Example ParseInt32_ex3 : Go.ParseInt32 "2147483648" = None. Proof. reflexivity. Qed.
Example ParseInt32_ex4 : Go.ParseInt32 "-2147483648" = Some (-2147483648)%Z.
Proof. reflexivity. Qed.
Example Sort_ex1 : Go.Sort ["fmt"; "acme/bar"; "io"] = ["acme/bar"; "fmt"; "io"].
Proof. reflexivity. Qed.

(** Scenario S1 of the specification, run through the model. *)
Example scenario_S1 :
  run_compile wS1 sdk1 attrsS1
  = ([Mkdir "/nix/store/foo-lib"; Mkdir "/nix/store/foo-export";
      TempDir "/build/builder1";
      WriteFile "/build/builder1/importcfg"
        ["packagefile acme/bar=/nix/store/BBB/bar.x";
         "packagefile fmt=/nix/store/AAA/fmt.x"];
      Run {| Args := ["/nix/store/go/share/go/pkg/tool/linux_amd64/compile";
                      "-o"; "/nix/store/foo-export/foo.x";
                      "-linkobj"; "/nix/store/foo-lib/foo.a";
                      "-trimpath"; "/src/acme/foo=>acme/foo;/nix/store/foo-lib=>";
                      "-p"; "acme/foo"; "-lang"; "go1.23"; "-complete";
                      "-c"; "4"; "-nolocalimports";
                      "-importcfg"; "/build/builder1/importcfg";
                      "-pack"; "--";
                      "/src/acme/foo/a.go"; "/src/acme/foo/b.go"];
             Env := Some ["CGO_ENABLED=0"] |};
      SavePackage "/nix/store/foo-export/foo.json"
        {| pkgImportPath := "acme/foo";
           Imports := ["acme/bar"; "fmt"];
           Deps := ["acme/bar"; "errors"; "fmt"; "io"] |}],
     Ok ()).
Proof. vm_compute. reflexivity. Qed.

(** * Facts on strings, their order, and sorting *)

Lemma append_cons a (s1 s2 : string) : String a s1 +:+ s2 = String a (s1 +:+ s2).
Proof. reflexivity. Qed.

Lemma append_empty_r (s : string) : s +:+ "" = s.
Proof. induction s as [| a s IH]; [done |]. by rewrite append_cons, IH. Qed.

Lemma append_assoc (s1 s2 s3 : string) : (s1 +:+ s2) +:+ s3 = s1 +:+ s2 +:+ s3.
Proof. induction s1 as [| a s1 IH]; [done |]. by rewrite !append_cons, IH. Qed.

Lemma Compare_spec a b : CompSpec eq Go.str_lt a b (Go.Compare a b).
Proof. exact (String_as_OT.compare_spec a b). Qed.

#[global] Instance str_lt_strict : StrictOrder Go.str_lt.
Proof. exact String_as_OT.lt_strorder. Qed.

Lemma str_le_iff a b : Go.str_le a b ↔ Go.str_lt a b ∨ a = b.
Proof.
  unfold Go.str_le. destruct (Compare_spec a b) as [Heq|Hlt|Hgt].
  - split; [by right | done].
  - split; [by left | done].
  - split; [done |]. intros [Hlt | ->].
    + destruct (irreflexivity Go.str_lt a). by transitivity b.
    + by destruct (irreflexivity Go.str_lt b).
Qed.

#[global] Instance str_le_refl : Reflexive Go.str_le.
Proof. intros a. apply str_le_iff. by right. Qed.

#[global] Instance str_le_trans : Transitive Go.str_le.
Proof.
  intros a b c [Hab | ->]%str_le_iff [Hbc | ->]%str_le_iff;
    apply str_le_iff; eauto.
  left. by transitivity b.
Qed.

#[global] Instance str_le_total : Total Go.str_le.
Proof.
  intros a b. unfold Go.str_le.
  destruct (Compare_spec a b) as [Heq|Hlt|Hgt]; [by left | by left |].
  right. intros Hba. rewrite Hgt in Hba. done.
Qed.

#[global] Instance str_le_antisymm : AntiSymm (=) Go.str_le.
Proof.
  intros a b [Hab | ->]%str_le_iff [Hba | Heq]%str_le_iff; try done.
  destruct (irreflexivity Go.str_lt a). by transitivity b.
Qed.

(** A list that is ascending and without repetition is strictly
    ascending. *)
Lemma Sorted_NoDup_strict (l : list string) :
  Sorted Go.str_le l → NoDup l → StronglySorted Go.str_lt l.
Proof.
  intros Hs%Sorted_StronglySorted; [| apply _].
  induction Hs as [| x l Hl IH Hx]; intros Hnd; [constructor |].
  apply NoDup_cons in Hnd as [Hnotin Hnd].
  constructor; [by apply IH |].
  rewrite Forall_forall in Hx |- *. intros y Hy.
  destruct (proj1 (str_le_iff x y) (Hx y Hy)) as [? | ->]; done.
Qed.

Lemma StronglySorted_lt_NoDup (l : list string) :
  StronglySorted Go.str_lt l → NoDup l.
Proof.
  induction 1 as [| x l Hl IH Hx]; constructor; [| done].
  intros Hin. rewrite Forall_forall in Hx.
  by destruct (irreflexivity Go.str_lt x (Hx x Hin)).
Qed.

Lemma Sort_Permutation l : Go.Sort l ≡ₚ l.
Proof. apply merge_sort_Permutation. Qed.

Lemma Sort_Sorted l : Sorted Go.str_le (Go.Sort l).
Proof. apply Sorted_merge_sort, _. Qed.

Lemma elem_of_SortedKeys x (s : gset string) : x ∈ Go.SortedKeys s ↔ x ∈ s.
Proof. unfold Go.SortedKeys. by rewrite Sort_Permutation, elem_of_elements. Qed.

Lemma SortedKeys_ascending (s : gset string) :
  StronglySorted Go.str_lt (Go.SortedKeys s).
Proof.
  apply Sorted_NoDup_strict; [apply Sort_Sorted |].
  unfold Go.SortedKeys. rewrite Sort_Permutation. apply NoDup_elements.
Qed.

(** * Inversion of the effect monad *)

Lemma bind_Ok {S A B} (m : M S A) (f : A → M S B) s t s' t' b :
  (m ≫= f) s t = (s', t', Ok b) →
  ∃ a s1 t1, m s t = (s1, t1, Ok a) ∧ f a s1 t1 = (s', t', Ok b).
Proof.
  unfold mbind, M_bind. destruct (m s t) as [[s1 t1] [a| | |]]; try done.
  intros H. by exists a, s1, t1.
Qed.

Lemma liftR_Ok {S A} (r : result A) (s : S) t s' t' a :
  liftR r s t = (s', t', Ok a) → r = Ok a ∧ s' = s ∧ t' = t.
Proof. unfold liftR. by intros [= -> -> ->]. Qed.

Lemma get_Ok {S} (s : S) t s' t' a :
  get s t = (s', t', Ok a) → a = s ∧ s' = s ∧ t' = t.
Proof. unfold get. by intros [= -> -> ->]. Qed.

Lemma modify_Ok {S} (f : S → S) s t s' t' a :
  modify f s t = (s', t', Ok a) → s' = f s ∧ t' = t.
Proof. unfold modify. by intros [= <- <-]. Qed.

Lemma mret_Ok {S A} (x : A) (s : S) t s' t' a :
  mret (M := M S) x s t = (s', t', Ok a) → a = x ∧ s' = s ∧ t' = t.
Proof. unfold mret, M_ret. by intros [= -> -> ->]. Qed.

Lemma emit_Ok {S} e (s : S) t s' t' a :
  emit e s t = (s', t', Ok a) → s' = s ∧ t' = t ++ [e].
Proof. unfold emit. by intros [= <- <-]. Qed.

Lemma fatal_Ok {S A} (m : M S A) s t s' t' a :
  fatal m s t = (s', t', Ok a) → m s t = (s', t', Ok a).
Proof.
  unfold fatal. destruct (m s t) as [[s1 t1] [x| | |]]; try done.
Qed.

Lemma wrapM_Ok {S A} msg (m : M S A) s t s' t' a :
  wrapM msg m s t = (s', t', Ok a) → m s t = (s', t', Ok a).
Proof.
  unfold wrapM. destruct (m s t) as [[s1 t1] [x| | |]]; try done.
Qed.

Lemma create_Ok {S} w path e (s : S) t s' t' a :
  create w path e s t = (s', t', Ok a) →
  creates w path = true ∧ s' = s ∧ t' = t ++ [e].
Proof.
  unfold create. destruct (creates w path); [| done].
  by intros [-> ->]%emit_Ok.
Qed.

Lemma run_Ok {S} w msg cmd (s : S) t s' t' a :
  run w msg cmd s t = (s', t', Ok a) →
  runs w (Args cmd) = true ∧ s' = s ∧ t' = t ++ [Run cmd].
Proof.
  unfold run. intros (? & s1 & t1 & [-> ->]%emit_Ok & H)%bind_Ok.
  apply liftR_Ok in H as (H & -> & ->).
  by destruct (runs w (Args cmd)).
Qed.

(** A run whose outcome is known. *)
Lemma run_outcome {S A} (r : S * list event * result A) (a : A) :
  r.2 = Ok a → r = (r.1.1, r.1.2, Ok a).
Proof. destruct r as [[s t] o]. simpl. by intros ->. Qed.

(** * The command of the compiler *)

Section compile_facts.
Variable w : World.

Lemma buildDirSet_app t1 t2 :
  buildDirSet (t1 ++ t2) = buildDirSet t1 || buildDirSet t2.
Proof. apply existsb_app. Qed.

Lemma buildDirSet_createdBy dir t : buildDirSet (t ++ createdBy dir t) = true.
Proof.
  rewrite buildDirSet_app. unfold createdBy.
  by destruct (buildDirSet t) eqn:Ht.
Qed.


Lemma BuildDir_eq {S} dir (s : S) t :
  MkdirTemp w = Some dir → BuildDir w s t = (s, t ++ createdBy dir t, Ok dir).
Proof.
  intros Hd. unfold BuildDir, createdBy. rewrite Hd.
  destruct (buildDirSet t); [by rewrite app_nil_r | done].
Qed.

Lemma BuildDir_Ok {S} dir (s s' : S) t t' :
  BuildDir w s t = (s', t', Ok dir) →
  MkdirTemp w = Some dir ∧ s' = s ∧ t' = t ++ createdBy dir t.
Proof.
  unfold BuildDir. destruct (MkdirTemp w) as [d |] eqn:Hd; [| done].
  intros [= <- <- <-]. split; [done |]. split; [done |].
  unfold createdBy. destruct (buildDirSet t); [by rewrite app_nil_r | done].
Qed.

Lemma symlinkArchHeaders_Ok {S} hFiles (s : S) t s' t' a :
  symlinkArchHeaders w hFiles s t = (s', t', Ok a) → s' = s.
Proof.
  revert s t. induction hFiles as [| path rest IH]; intros s t H; simpl in H.
  - by apply mret_Ok in H as (_ & -> & _).
  - apply bind_Ok in H as (? & s1 & t1 & H1 & H).
    apply IH in H as ->.
    destruct (String.eqb _ ""); [by apply mret_Ok in H1 as (_ & -> & _) |].
    apply bind_Ok in H1 as (? & s2 & t2 & H2 & H1).
    apply BuildDir_Ok in H2 as (_ & -> & ->).
    by apply create_Ok in H1 as (_ & -> & _).
Qed.

Lemma AssembleSources_Ok srcs out extraArgs c t c' t' o :
  AssembleSources w srcs out extraArgs c t = (c', t', Ok o) →
  c' = c ∧ o = out ∧ ∃ cmd, t' = t ++ [Run cmd].
Proof.
  unfold AssembleSources. intros H.
  apply bind_Ok in H as (? & s1 & t1 & (-> & -> & ->)%get_Ok & H).
  apply bind_Ok in H as (? & s2 & t2 & (_ & -> & ->)%run_Ok & H).
  apply mret_Ok in H as (-> & -> & ->). eauto.
Qed.

Lemma compileEmbedCfg_Ok {S} cfg (s : S) t s' t' p :
  compileEmbedCfg w cfg s t = (s', t', Ok p) →
  s' = s ∧ ∃ dir, MkdirTemp w = Some dir ∧ p = filepath_Join w [dir; "embedcfg"].
Proof.
  unfold compileEmbedCfg. intros H.
  apply bind_Ok in H as (dir & s1 & t1 & (Hd & -> & ->)%BuildDir_Ok & H).
  apply bind_Ok in H as (? & s2 & t2 & (_ & -> & _)%create_Ok & H).
  apply mret_Ok in H as (-> & -> & _).
  split; [done |]. by exists dir.
Qed.

Lemma findIncludes_Ok {S} sdkInclude hSrcs (s s' : S) t t' l :
  findIncludes w sdkInclude hSrcs s t = (s', t', Ok l) →
  s' = s ∧ ∃ dir, MkdirTemp w = Some dir ∧ t' = t ++ createdBy dir t.
Proof.
  unfold findIncludes. intros H.
  apply bind_Ok in H as (dir & s1 & t1 & (Hd & -> & ->)%BuildDir_Ok & H).
  apply mret_Ok in H as (_ & -> & ->). split; [done |]. by exists dir.
Qed.

Lemma compileImportCfg_Ok srcs deps0 importMap0 t deps importMap t1 cfg l :
  compileImportCfg w srcs (deps0, importMap0) t
    = (deps, importMap, t1, Ok (cfg, l)) →
  ∃ rewrites dir,
    ResolveMetaPackages w deps0 importMap0 = (deps, importMap, Ok ()) ∧
    ScanImports w srcs deps importMap = Ok (l, rewrites) ∧
    MkdirTemp w = Some dir ∧
    cfg = filepath_Join w [dir; "importcfg"] ∧
    t1 = t ++ createdBy dir t
           ++ [WriteFile cfg
                 (map importmapLine rewrites ++ map (packagefileLine ".x") l)].
Proof.
  unfold compileImportCfg. intros H.
  apply bind_Ok in H as ([] & [d1 m1] & t2 & H1 & H).
  destruct (ResolveMetaPackages w deps0 importMap0) as [[d2 m2] r] eqn:Hres.
  injection H1 as -> -> -> ->.
  apply bind_Ok in H as ([d3 m3] & s3 & t3 & (Heq & -> & ->)%get_Ok & H).
  injection Heq as -> ->.
  apply bind_Ok in H as ([l' rewrites] & s4 & t4 & (Hscan & -> & ->)%liftR_Ok & H).
  apply bind_Ok in H as (dir & s5 & t5 & (Hd & -> & ->)%BuildDir_Ok & H).
  apply bind_Ok in H as (? & s6 & t6 & (_ & -> & ->)%create_Ok & H).
  apply mret_Ok in H as ([= -> ->] & [= -> ->] & ->).
  exists rewrites, dir. by rewrite <- app_assoc.
Qed.

(** What a run of [compileCommand] that yields a command has done. *)
Lemma compileCommand_Ok obj exportData extraArgs c t c' t' cmd :
  compileCommand w obj exportData extraArgs c t = (c', t', Ok cmd) →
  ∃ g h s deps importMap t1 cfg l dir cores mode embed,
    sortSrcs w (Srcs c) = Ok (g, h, s) ∧
    compileImportCfg w g (c_Imports c, c_ImportMap c) t
      = (deps, importMap, t1, Ok (cfg, l)) ∧
    MkdirTemp w = Some dir ∧
    BuildParallelism w = Ok cores ∧
    SDK c' = SDK c ∧ c_ImportPath c' = c_ImportPath c ∧ Srcs c' = Srcs c ∧
    c_Imports c' = deps ∧ c_ImportMap c' = importMap ∧
    goSrcs c' = g ∧ hSrcs c' = h ∧ sSrcs c' = s ∧
    importCfg c' = cfg ∧ imports c' = Some l ∧
    trimPath c' =
      packageTrimPath w (Srcs c) (c_ImportPath c) (filepath_Dir w obj)
      +:+ (if bool_decide (0 < length s) then ";" +:+ dir +:+ "=>" else "") ∧
    mode =
      (if bool_decide (0 < length s)
       then ["-symabis"; filepath_Join w [dir; "symabis"];
             "-asmhdr"; filepath_Join w [dir; "go_asm.h"]]
       else if hasForwardDecl (c_ImportPath c) then [] else ["-complete"]) ∧
    embed =
      (match c_EmbedCfg c with
       | Some _ => ["-embedcfg"; filepath_Join w [dir; "embedcfg"]]
       | None => []
       end) ∧
    Args cmd =
      Args (RunTool w (SDK c) "compile" extraArgs)
      ++ ["-o"; exportData; "-linkobj"; obj; "-trimpath"; trimPath c';
          "-p"; c_ImportPath c; "-lang"; CompatVersion (SDK c)]
      ++ mode ++ embed
      ++ ["-c"; Go.Sprint cores; "-nolocalimports"; "-importcfg"; cfg;
          "-pack"; "--"]
      ++ g.
Proof.
  unfold compileCommand. intros H.
  apply bind_Ok in H as ([] & c1 & t1 & H1 & H).
  destruct (sortSrcs w (Srcs c)) as [[[g h] s]| | |] eqn:Hsort; try done.
  injection H1 as <- <-.
  apply bind_Ok in H as ([] & c2 & t2 & H2 & H).
  destruct (compileImportCfg _ _ _ _) as [[[deps importMap] t3] r] eqn:Hcfg.
  simpl in Hcfg.
  destruct r as [[cfg l]| | |]; try done.
  injection H2 as <- <-.
  destruct (compileImportCfg_Ok _ _ _ _ _ _ _ _ _ Hcfg)
    as (rewrites & dir & _ & _ & Hdir & _ & _).
  apply bind_Ok in H as (c0 & s1 & t1 & (-> & -> & ->)%get_Ok & H).
  apply bind_Ok in H as (? & s2 & t2 & (-> & ->)%modify_Ok & H).
  apply bind_Ok in H as (? & s3 & t4 & Htrim & H).
  apply bind_Ok in H as (c4 & s5 & t5 & (-> & -> & ->)%get_Ok & H).
  apply bind_Ok in H as (cmd1 & s6 & t6 & Hmode & H).
  apply bind_Ok in H as (cmd2 & s7 & t7 & Hembed & H).
  apply bind_Ok in H as (cores & s8 & t8 & (Hcores & -> & ->)%liftR_Ok & H).
  apply mret_Ok in H as (-> & -> & ->).
  simpl in Htrim.
  exists g, h, s, deps, importMap, t3, cfg, l, dir, cores.
  destruct (bool_decide (0 < length s)) eqn:Hs.
  - apply bind_Ok in Htrim as (d & s1 & t1 & (Hd & -> & ->)%BuildDir_Ok & Htrim).
    rewrite Hdir in Hd. injection Hd as <-.
    apply bind_Ok in Htrim as (? & s2 & t2 & (-> & -> & ->)%get_Ok & Htrim).
    apply modify_Ok in Htrim as (-> & ->).
    simpl in Hmode. rewrite Hs in Hmode.
    apply bind_Ok in Hmode as (incl & s1 & t1 & (-> & _)%findIncludes_Ok & Hmode).
    apply bind_Ok in Hmode as (? & s2 & t2 & (-> & ->)%modify_Ok & Hmode).
    apply bind_Ok in Hmode as (d & s4 & t5 & (Hd & -> & ->)%BuildDir_Ok & Hmode).
    rewrite Hdir in Hd. injection Hd as <-.
    apply bind_Ok in Hmode as (? & s5 & t8 & (_ & -> & ->)%create_Ok & Hmode).
    apply bind_Ok in Hmode as (? & s9 & t9 & ->%symlinkArchHeaders_Ok & Hmode).
    apply bind_Ok in Hmode as (sym & s10 & t10 & (-> & -> & _)%AssembleSources_Ok & Hmode).
    apply mret_Ok in Hmode as (-> & -> & ->).
    simpl in Hembed.
    destruct (c_EmbedCfg c) as [ecfg |] eqn:He.
    + apply bind_Ok in Hembed
        as (p & s11 & t11 & (-> & d & Hd & ->)%wrapM_Ok%compileEmbedCfg_Ok & Hembed).
      rewrite Hdir in Hd. injection Hd as <-.
      apply mret_Ok in Hembed as (-> & -> & ->).
      eexists _, _. repeat split; try done; simpl; rewrite <- ?app_assoc; by repeat f_equal.
    + apply mret_Ok in Hembed as (-> & -> & ->).
      eexists _, _. repeat split; try done; simpl; rewrite <- ?app_assoc; by repeat f_equal.
  - apply mret_Ok in Htrim as (_ & -> & ->).
    simpl in Hmode. rewrite Hs in Hmode.
    destruct (hasForwardDecl (c_ImportPath c)) eqn:Hfwd; simpl in Hmode;
      apply mret_Ok in Hmode as (-> & -> & ->); simpl in Hembed;
      (destruct (c_EmbedCfg c) as [ecfg |] eqn:He;
       [ apply bind_Ok in Hembed
           as (p & s11 & t11 & (-> & d & Hd & ->)%wrapM_Ok%compileEmbedCfg_Ok & Hembed);
         rewrite Hdir in Hd; injection Hd as <-;
         apply mret_Ok in Hembed as (-> & -> & ->)
       | apply mret_Ok in Hembed as (-> & -> & ->) ]);
      eexists _, _; repeat split; try done; simpl; rewrite ?append_empty_r, <- ?app_assoc;
      by repeat f_equal.
Qed.
End compile_facts.

(** * Meta packages *)

Lemma maps_Copy_lookup (dst src : gmap string string) k :
  Go.maps_Copy dst src !! k
  = match src !! k with Some v => Some v | None => dst !! k end.
Proof.
  unfold Go.maps_Copy.
  apply (map_fold_weak_ind
           (λ r (m : gmap string string),
              r !! k = match m !! k with Some v => Some v | None => dst !! k end)).
  - by rewrite lookup_empty.
  - intros i x m r Hi IH. rewrite !lookup_insert.
    case_decide; [done | apply IH].
Qed.

Lemma foldl_addSubPackage subs pkgs p :
  foldl addSubPackage pkgs subs !! p
  = match pkgs !! p with Some v => Some v | None => firstStorePath p subs end.
Proof.
  revert pkgs. induction subs as [| sub rest IH]; intros pkgs; simpl.
  - by destruct (pkgs !! p).
  - rewrite IH. unfold addSubPackage.
    destruct (pkgs !! ImportPath sub) eqn:Hsub.
    + destruct (pkgs !! p) eqn:Hp; [done |].
      case_decide; [congruence | done].
    + rewrite lookup_insert. case_decide as Heq.
      * subst p. by rewrite Hsub.
      * by destruct (pkgs !! p).
Qed.

Lemma firstStorePath_is_Some p subs :
  is_Some (firstStorePath p subs) ↔ p ∈ ImportPath <$> subs.
Proof.
  induction subs as [| sub rest IH]; simpl.
  - split; [by intros [? ?] | by intros ?%elem_of_nil].
  - rewrite elem_of_cons, <- IH. case_decide as Heq.
    + split; [by left | by eexists].
    + split; [by right | by intros [? | ?]].
Qed.

Section meta.
Variable w : World.

(** The expansion of the meta package [std]. *)
Lemma ResolveMetaPackages_std pkgs importMap storePath subs metaMap :
  pkgs !! "std" = Some storePath →
  storePath ≠ "" →
  readMetaPackage w (filepath_Join w [storePath; "std.json"])
    = Decoded (subs, metaMap) →
  ResolveMetaPackages w pkgs importMap
  = (foldl addSubPackage (delete "std" pkgs) subs,
     (λ m, Go.maps_Copy m metaMap) <$> importMap,
     Ok ()).
Proof.
  intros Hstd Hne Hread.
  unfold ResolveMetaPackages, MetaPackages, resolveLoop, Go.index.
  rewrite Hstd. simpl.
  destruct (String.eqb_spec storePath "") as [-> | _]; [done |].
  change (Go.Base "std" +:+ ".json") with "std.json".
  rewrite Hread. by destruct importMap.
Qed.

(** Without a usable [std] entry the tables are left as they are. *)
Lemma ResolveMetaPackages_none pkgs importMap :
  Go.index pkgs "std" = "" →
  ResolveMetaPackages w pkgs importMap = (pkgs, importMap, Ok ()).
Proof.
  intros H. unfold ResolveMetaPackages, MetaPackages, resolveLoop.
  by rewrite H.
Qed.

End meta.

(** * Meta-package resolution: the claims *)

(** C8: when the meta package [std] is expanded, every binding that the
    caller's imports table already has for an import path other than the
    meta package's own entry is kept, also when the sub-package list names
    that path; an import path that the caller does not bind gets the store
    path of the first sub-package of that name, and stays unbound when there
    is none.  The meta package's own entry is removed before the merge. *)
Theorem C8_explicit_binding_wins (w : World)
    (pkgs : gmap string string) (importMap : option (gmap string string))
    (storePath : string) (subs : list Import) (metaMap : gmap string string) :
  pkgs !! "std" = Some storePath →
  storePath ≠ "" →
  readMetaPackage w (filepath_Join w [storePath; "std.json"])
    = Decoded (subs, metaMap) →
  ∃ pkgs' importMap',
    ResolveMetaPackages w pkgs importMap = (pkgs', importMap', Ok ()) ∧
    (∀ p v, p ≠ "std" → pkgs !! p = Some v → pkgs' !! p = Some v) ∧
    (∀ p, pkgs !! p = None → pkgs' !! p = firstStorePath p subs) ∧
    (∀ sub, sub ∈ subs → pkgs !! ImportPath sub = None →
            is_Some (pkgs' !! ImportPath sub)) ∧
    pkgs' !! "std" = firstStorePath "std" subs.
Proof.
  intros Hstd Hne Hread.
  rewrite (ResolveMetaPackages_std w pkgs importMap storePath subs metaMap)
    by done.
  eexists _, _. split; [done |].
  repeat split.
  - intros p v Hp Hv. by rewrite foldl_addSubPackage, lookup_delete_ne, Hv.
  - intros p Hp. rewrite foldl_addSubPackage, lookup_delete_ne, Hp; [done |].
    intros <-. congruence.
  - intros sub Hsub Hp. rewrite foldl_addSubPackage, lookup_delete_ne, Hp.
    + apply (proj2 (firstStorePath_is_Some _ _)).
      apply list_elem_of_fmap. by exists sub.
    + intros Heq. rewrite <- Heq in Hp. congruence.
  - by rewrite foldl_addSubPackage, lookup_delete_eq.
Qed.

Lemma C8_witness :
  ∃ pkgs' importMap',
    ResolveMetaPackages wP5 importsP5 None = (pkgs', importMap', Ok ()) ∧
    pkgs' !! "fmt" = Some "/nix/store/F" ∧
    pkgs' !! "io" = Some "/nix/store/I" ∧
    pkgs' !! "std" = None ∧
    pkgs' = {[ "fmt" := "/nix/store/F"; "io" := "/nix/store/I" ]}.
Proof.
  destruct (C8_explicit_binding_wins wP5 importsP5 None "/nix/store/S"
              [{| StorePath := "/nix/store/F'"; ImportPath := "fmt" |};
               {| StorePath := "/nix/store/I"; ImportPath := "io" |}] ∅)
    as (pkgs' & importMap' & Hres & Hkept & Hadded & _ & Hstd);
    [reflexivity | discriminate | reflexivity |].
  exists pkgs', importMap'. split; [exact Hres |].
  split; [| split; [| split]].
  - apply Hkept; [discriminate | reflexivity].
  - rewrite Hadded; reflexivity.
  - rewrite Hstd. reflexivity.
  - vm_compute in Hres. injection Hres as <- _. vm_compute. reflexivity.
Defined.

(** C2 (as amended): when the meta package [std] is expanded and the
    caller's import map is not nil, every entry of the meta package's import
    map is written into the caller's map, replacing the caller's entry under
    the same key; the caller's entries under other keys are kept.  A nil
    import map is left nil. *)
Theorem C2_meta_importMap_overrides (w : World)
    (pkgs : gmap string string) (importMap : option (gmap string string))
    (storePath : string) (subs : list Import) (metaMap : gmap string string) :
  pkgs !! "std" = Some storePath →
  storePath ≠ "" →
  readMetaPackage w (filepath_Join w [storePath; "std.json"])
    = Decoded (subs, metaMap) →
  ∃ pkgs' importMap',
    ResolveMetaPackages w pkgs importMap = (pkgs', importMap', Ok ()) ∧
    match importMap with
    | Some m =>
        ∃ m', importMap' = Some m' ∧
          (∀ k v, metaMap !! k = Some v → m' !! k = Some v) ∧
          (∀ k, metaMap !! k = None → m' !! k = m !! k)
    | None => importMap' = None
    end.
Proof.
  intros Hstd Hne Hread.
  rewrite (ResolveMetaPackages_std w pkgs importMap storePath subs metaMap)
    by done.
  eexists _, _. split; [done |].
  destruct importMap as [m |]; [| done].
  eexists. split; [done |].
  split; intros k; [intros v|]; intros Hk; by rewrite maps_Copy_lookup, Hk.
Qed.

Lemma C2_witness :
  ∃ pkgs' m',
    ResolveMetaPackages wC2 {[ "std" := "/nix/store/std" ]}
      (Some {[ "a/x" := "caller/x"; "b/y" := "caller/y" ]})
      = (pkgs', Some m', Ok ()) ∧
    m' !! "a/x" = Some "meta/x" ∧ m' !! "b/y" = Some "caller/y".
Proof.
  destruct (C2_meta_importMap_overrides wC2 {[ "std" := "/nix/store/std" ]}
              (Some {[ "a/x" := "caller/x"; "b/y" := "caller/y" ]})
              "/nix/store/std" [] {[ "a/x" := "meta/x" ]})
    as (pkgs' & importMap' & Hres & m' & -> & Hmeta & Hcaller);
    [reflexivity | discriminate | reflexivity |].
  exists pkgs', m'. split; [exact Hres |]. split.
  - apply Hmeta. reflexivity.
  - rewrite Hcaller; reflexivity.
Defined.

(** C2, counterexample: the caller maps [a/x] to [caller/x], the meta
    package maps it to [meta/x]; after the expansion the caller's map holds
    the meta package's entry. *)
Lemma C2_counterexample :
  ∃ pkgs' m',
    ResolveMetaPackages wC2 {[ "std" := "/nix/store/std" ]}
      (Some {[ "a/x" := "caller/x" ]})
      = (pkgs', Some m', Ok ()) ∧
    ({[ "a/x" := "caller/x" ]} : gmap string string) !! "a/x" = Some "caller/x" ∧
    m' !! "a/x" = Some "meta/x" ∧
    m' !! "a/x" ≠ Some "caller/x".
Proof.
  rewrite (ResolveMetaPackages_std wC2 _ _ "/nix/store/std" []
             {[ "a/x" := "meta/x" ]}); [| reflexivity | discriminate | reflexivity].
  eexists _, _. split; [reflexivity |].
  rewrite maps_Copy_lookup.
  split; [reflexivity | split; [reflexivity |]].
  intros H. vm_compute in H. discriminate H.
Qed.

(** * The dependency closure *)

Section deps.
Variable w : World.

Lemma LoadMetadata_cases dir importPath :
  (∃ q, LoadMetadata w dir importPath = Ok q ∧ pkgImportPath q = importPath)
  ∨ (∃ e, LoadMetadata w dir importPath = Err e).
Proof.
  unfold LoadMetadata. destruct (readPackage w _) as [| | [i d]]; eauto.
Qed.

Lemma elem_of_foldl_add (l : list string) (deps : gset string) x :
  x ∈ foldl (λ (deps : gset string) subDep, {[subDep]} ∪ deps) deps l
  ↔ x ∈ deps ∨ x ∈ l.
Proof.
  revert deps. induction l as [| y l IH]; intros deps; simpl.
  - rewrite elem_of_nil. tauto.
  - rewrite IH, elem_of_cons, elem_of_union, elem_of_singleton. tauto.
Qed.

Lemma foldM_cons {A B} (f : B → A → result B) x l b :
  foldM f (x :: l) b = (b' ← f b x; foldM f l b').
Proof. reflexivity. Qed.

Lemma depsStep_eq imps deps d :
  depsStep w (imps, deps) d
  = match LoadMetadata w (StorePath d) (ImportPath d) with
    | Ok pkg =>
        Ok (imps ++ [ImportPath d],
            foldl (λ (deps : gset string) subDep, {[subDep]} ∪ deps)
                  ({[ImportPath d]} ∪ deps) (Deps pkg))
    | Err e => Err e
    | Fatal msg => Fatal msg
    | Panic msg => Panic msg
    end.
Proof. reflexivity. Qed.

(** The direct imports and the closure that the loop of [Deps] collects. *)
Lemma foldM_depsStep l imps deps imps' deps' :
  foldM (depsStep w) l (imps, deps) = Ok (imps', deps') →
  imps' = imps ++ (ImportPath <$> l) ∧
  (∀ d, d ∈ l → ∃ q, LoadMetadata w (StorePath d) (ImportPath d) = Ok q) ∧
  (∀ x, x ∈ deps' ↔
        x ∈ deps ∨
        ∃ d, d ∈ l ∧
             (x = ImportPath d ∨
              ∃ q, LoadMetadata w (StorePath d) (ImportPath d) = Ok q ∧
                   x ∈ Deps q)).
Proof.
  revert imps deps. induction l as [| d l IH]; intros imps deps H.
  - injection H as <- <-. rewrite app_nil_r. split; [done |].
    split; [by intros d ?%elem_of_nil |].
    intros x. split; [by left |]. intros [? | (d & ?%elem_of_nil & _)]; done.
  - rewrite foldM_cons, depsStep_eq in H.
    destruct (LoadMetadata w (StorePath d) (ImportPath d)) as [q | | |] eqn:Hq;
      try done.
    simpl in H. apply IH in H as (-> & Hall & Hmem).
    split; [by rewrite <- app_assoc |]. split.
    + intros d' [-> | Hd']%elem_of_cons; eauto.
    + intros x. rewrite Hmem, elem_of_foldl_add. split.
      * intros [[[->%elem_of_singleton | Hx]%elem_of_union | Hx] | (d' & Hd' & Hx)].
        -- right. exists d. split; [left | by left].
        -- by left.
        -- right. exists d. split; [left |]. right. by exists q.
        -- right. exists d'. split; [by right | done].
      * intros [Hx | (d' & [-> | Hd']%elem_of_cons & Hx)].
        -- left. left. apply elem_of_union. by right.
        -- destruct Hx as [-> | (q' & Hq' & Hx)].
           ++ left. left. apply elem_of_union. left. by apply elem_of_singleton.
           ++ left. right. congruence.
        -- right. by exists d'.
Qed.

Lemma foldM_depsStep_cases l acc :
  (∃ r, foldM (depsStep w) l acc = Ok r) ∨ (∃ e, foldM (depsStep w) l acc = Err e).
Proof.
  revert acc. induction l as [| d l IH]; intros [imps deps]; [simpl; eauto |].
  rewrite foldM_cons, depsStep_eq.
  destruct (LoadMetadata_cases (StorePath d) (ImportPath d))
    as [(q & -> & _) | (e & ->)]; simpl; eauto.
Qed.

(** [Deps] on a compilation whose imports are set. *)
Lemma Compilation_Deps_Ok c imps deps :
  Compilation_Deps w c = Ok (imps, deps) →
  ∃ l, imports c = Some l ∧
    imps = ImportPath <$> l ∧
    (∀ d, d ∈ l → ∃ q, LoadMetadata w (StorePath d) (ImportPath d) = Ok q) ∧
    ascending deps ∧
    (∀ x, x ∈ deps ↔
          ∃ d, d ∈ l ∧
               (x = ImportPath d ∨
                ∃ q, LoadMetadata w (StorePath d) (ImportPath d) = Ok q ∧
                     x ∈ Deps q)).
Proof.
  unfold Compilation_Deps. destruct (imports c) as [l |]; [| done].
  destruct (foldM (depsStep w) l ([], ∅)) as [[imps0 deps0] | | |] eqn:Hfold;
    try done.
  simpl. intros [= <- <-].
  apply foldM_depsStep in Hfold as (-> & Hall & Hmem).
  exists l. repeat split; try done.
  - apply SortedKeys_ascending.
  - rewrite elem_of_SortedKeys, Hmem. intros [?%not_elem_of_empty | ?]; done.
  - rewrite elem_of_SortedKeys, Hmem. by right.
Qed.

Lemma Compilation_Deps_Some c l :
  imports c = Some l →
  (∃ r, Compilation_Deps w c = Ok r) ∨ (∃ e, Compilation_Deps w c = Err e).
Proof.
  unfold Compilation_Deps. intros ->.
  destruct (foldM_depsStep_cases l ([], ∅)) as [([imps deps] & ->) | (e & ->)];
    simpl; eauto.
Qed.

Lemma assembleEach_Ok srcs sObjs c t c' t' r :
  assembleEach w srcs sObjs c t = (c', t', Ok r) → c' = c ∧ ∃ t2, t' = t ++ t2.
Proof.
  revert sObjs c t. induction srcs as [| src rest IH]; intros sObjs c t H;
    simpl in H.
  - apply mret_Ok in H as (_ & -> & ->). split; [done |].
    exists []. by rewrite app_nil_r.
  - apply bind_Ok in H as (dir & s1 & t1 & (_ & -> & ->)%BuildDir_Ok & H).
    apply bind_Ok in H
      as (o & s2 & t2 & (-> & _ & cmd & ->)%AssembleSources_Ok & H).
    apply IH in H as (-> & t3 & ->). split; [done |].
    exists (createdBy dir t ++ [Run cmd] ++ t3). by rewrite <- !app_assoc.
Qed.

(** A successful [CompilePackage] is a successful [compileCommand] followed
    by a successful run of the compiler; the later steps leave the
    [Compilation] as it is. *)
Lemma CompilePackage_Ok obj exportData extraArgs c t c' t' :
  CompilePackage w obj exportData extraArgs c t = (c', t', Ok ()) →
  ∃ t1 cmd,
    compileCommand w obj exportData extraArgs c t = (c', t1, Ok cmd) ∧
    runs w (Args cmd) = true ∧
    ∃ t2, t' = t1 ++ Run cmd :: t2.
Proof.
  unfold CompilePackage. intros H.
  apply bind_Ok in H as (cmd & c1 & t1 & Hcmd & H).
  apply bind_Ok in H as (? & c2 & t2 & (Hrun & -> & ->)%run_Ok & H).
  apply bind_Ok in H as (? & c3 & t3 & (-> & -> & ->)%get_Ok & H).
  apply bind_Ok in H as (sObjs & c4 & t4 & Hasm & H).
  apply assembleEach_Ok in Hasm as (-> & t5 & ->).
  assert (c' = c1 ∧ ∃ t6, t' = ((t1 ++ [Run cmd]) ++ t5) ++ t6) as [-> [t6 ->]].
  { destruct sObjs as [| o sObjs].
    - apply mret_Ok in H as (_ & -> & ->). split; [done |].
      exists []. by rewrite app_nil_r.
    - unfold appendArchive in H. apply run_Ok in H as (_ & -> & ->). eauto. }
  exists t1, cmd. repeat split; try done.
  exists (t5 ++ t6). by rewrite <- !app_assoc.
Qed.

End deps.

(** * The compile command: closure and ordering of [Deps] *)

(** C1: when the compile command succeeds, the last effect is the write of
    the sidecar; its [Imports] are the import paths of the resolved direct
    imports (the result of the import scan on the resolved tables), the
    sidecar of every direct import has been loaded, and its [Deps] is the
    strictly ascending list whose members are exactly the direct imports and
    the members of the [Deps] of their sidecars.  In particular every entry
    of [Imports] is in [Deps]. *)
Theorem C1_closure (w : World) (sdk : GoSDK) (attrs : CompileAttrs)
    (c' : Compilation) (t : list event) :
  compile w sdk attrs (newCompilation sdk attrs) [] = (c', t, Ok ()) →
  ∃ l rewrites t0 path pkg,
    ScanImports w (goSrcs c') (c_Imports c') (c_ImportMap c') = Ok (l, rewrites) ∧
    t = t0 ++ [SavePackage path pkg] ∧
    pkgImportPath pkg = PackagePath attrs ∧
    Imports pkg = ImportPath <$> l ∧
    (∀ d, d ∈ l → ∃ q, LoadMetadata w (StorePath d) (ImportPath d) = Ok q) ∧
    ascending (Deps pkg) ∧
    (∀ x, x ∈ Deps pkg ↔
          ∃ d, d ∈ l ∧
               (x = ImportPath d ∨
                ∃ q, LoadMetadata w (StorePath d) (ImportPath d) = Ok q ∧
                     x ∈ Deps q)) ∧
    (∀ x, x ∈ Imports pkg → x ∈ Deps pkg).
Proof.
  unfold compile. intros H.
  apply bind_Ok in H as (libDir & c1 & t1 & Hlib & H).
  apply bind_Ok in H as (exportDir & c2 & t2 & Hexp & H).
  apply bind_Ok in H as ([] & c3 & t3 & Hcomp%fatal_Ok & H).
  apply bind_Ok in H as (? & c4 & t4 & (-> & -> & ->)%get_Ok & H).
  apply bind_Ok in H as ([imps deps] & c5 & t5 & Hdeps%fatal_Ok & H).
  apply liftR_Ok in Hdeps as (Hdeps & -> & ->).
  apply fatal_Ok in H. unfold SaveMetadata in H.
  apply create_Ok in H as (_ & -> & ->).
  apply CompilePackage_Ok in Hcomp as (t6 & cmd & Hcmd & _ & _).
  apply compileCommand_Ok in Hcmd
    as (g & h & s & dps & im & t7 & cfg & l & dir & cores & mode & embed
        & _ & Hcfg & _ & _ & _ & _ & _ & Hdps & Him & Hg & _ & _ & _ & Hl & _).
  apply compileImportCfg_Ok in Hcfg as (rewrites & _ & _ & Hscan & _).
  apply Compilation_Deps_Ok in Hdeps as (l' & Hl' & -> & Hall & Hasc & Hmem).
  assert (l' = l) as -> by congruence.
  exists l, rewrites, t3. eexists _, _.
  split; [by rewrite Hg, Hdps, Him |].
  split; [done |]. simpl. repeat split; try done.
  - by apply Hmem.
  - by apply Hmem.
  - intros x (d & -> & Hd)%list_elem_of_fmap. apply Hmem. exists d. by split; [| left].
Qed.

Lemma C1_witness :
  ∃ c' t,
    compile wS1 sdk1 attrsS1 (newCompilation sdk1 attrsS1) [] = (c', t, Ok ()) ∧
    ∃ pkg, last t = Some (SavePackage "/nix/store/foo-export/foo.json" pkg) ∧
      Imports pkg = ["acme/bar"; "fmt"] ∧
      ascending (Deps pkg) ∧
      (∀ x, x ∈ Imports pkg → x ∈ Deps pkg).
Proof.
  pose (r := compile wS1 sdk1 attrsS1 (newCompilation sdk1 attrsS1) []).
  assert (Hr : r.2 = Ok ()) by (vm_compute; reflexivity).
  assert (H : compile wS1 sdk1 attrsS1 (newCompilation sdk1 attrsS1) []
              = (r.1.1, r.1.2, Ok ())).
  { exact (run_outcome r () Hr). }
  exists r.1.1, r.1.2. split; [exact H |].
  destruct (C1_closure wS1 sdk1 attrsS1 _ _ H)
    as (l & rewrites & t0 & path & pkg & _ & Ht & _ & _ & _ & Hasc & _ & Hin).
  exists pkg. split; [| split; [| split; [exact Hasc | exact Hin]]].
  - assert (Hlast : last r.1.2 = Some (SavePackage path pkg))
      by (rewrite Ht; apply last_snoc).
    vm_compute in Hlast. injection Hlast as <- <-. vm_compute. reflexivity.
  - assert (Hlast : last r.1.2 = Some (SavePackage path pkg))
      by (rewrite Ht; apply last_snoc).
    vm_compute in Hlast. injection Hlast as <- <-. reflexivity.
Defined.

(** * [Deps] before and after [CompilePackage] *)

(** The two ways in which a bind ends. *)
Lemma bind_inv {S A B} (m : M S A) (f : A → M S B) s t s' t' r :
  (m ≫= f) s t = (s', t', r) →
  (∃ a s1 t1, m s t = (s1, t1, Ok a) ∧ f a s1 t1 = (s', t', r)) ∨
  (∃ r0, m s t = (s', t', r0) ∧ (∀ a, r0 ≠ Ok a) ∧ ∀ b, r ≠ Ok b).
Proof.
  unfold mbind, M_bind. destruct (m s t) as [[s1 t1] [a | e | msg | msg]].
  - intros H. left. by exists a, s1, t1.
  - intros [= <- <- <-]. right. by eexists.
  - intros [= <- <- <-]. right. by eexists.
  - intros [= <- <- <-]. right. by eexists.
Qed.

Section keeps.
Variable w : World.

Lemma keeps_bind {A B} (m : M Compilation A) (f : A → M Compilation B) :
  keepsImports m → (∀ a, keepsImports (f a)) → keepsImports (m ≫= f).
Proof.
  intros Hm Hf c t c' t' r
    [(a & c1 & t1 & H1 & H2) | (r0 & H1 & _)]%bind_inv.
  - rewrite (Hf a _ _ _ _ _ H2). by apply (Hm _ _ _ _ _ H1).
  - by apply (Hm _ _ _ _ _ H1).
Qed.

Lemma keeps_ret {A} (a : A) : keepsImports (mret a).
Proof. by intros c t c' t' r [= <- _ _]. Qed.

Lemma keeps_get : keepsImports get.
Proof. by intros c t c' t' r [= <- _ _]. Qed.

Lemma keeps_liftR {A} (x : result A) : keepsImports (liftR x).
Proof. by intros c t c' t' r [= <- _ _]. Qed.

Lemma keeps_emit e : keepsImports (emit e).
Proof. by intros c t c' t' r [= <- _ _]. Qed.

Lemma keeps_trimPath p : keepsImports (modify (set_trimPath p)).
Proof. by intros c t c' t' r [= <- _ _]. Qed.

Lemma keeps_includes l : keepsImports (modify (set_includes l)).
Proof. by intros c t c' t' r [= <- _ _]. Qed.

Lemma keeps_BuildDir : keepsImports (BuildDir w).
Proof.
  intros c t c' t' r. unfold BuildDir.
  destruct (MkdirTemp w); by intros [= <- _ _].
Qed.

Lemma keeps_create path e : keepsImports (create w path e).
Proof.
  unfold create. destruct (creates w path); [apply keeps_emit | apply keeps_liftR].
Qed.

Lemma keeps_run msg cmd : keepsImports (run w msg cmd).
Proof.
  unfold run. apply keeps_bind; [apply keeps_emit | intros; apply keeps_liftR].
Qed.

Lemma keeps_wrapM {A} msg (m : M Compilation A) :
  keepsImports m → keepsImports (wrapM msg m).
Proof.
  intros Hm c t c' t' r. unfold wrapM.
  destruct (m c t) as [[c1 t1] r1] eqn:H1. intros [= <- _ _].
  by apply (Hm _ _ _ _ _ H1).
Qed.

Lemma keeps_findIncludes sdkInclude hSrcs :
  keepsImports (findIncludes w sdkInclude hSrcs).
Proof.
  unfold findIncludes.
  apply keeps_bind; [apply keeps_BuildDir | intros; apply keeps_ret].
Qed.

Lemma keeps_symlinkArchHeaders hFiles : keepsImports (symlinkArchHeaders w hFiles).
Proof.
  induction hFiles as [| path rest IH]; simpl; [apply keeps_ret |].
  apply keeps_bind; [| by intros].
  destruct (String.eqb _ _); [apply keeps_ret |].
  apply keeps_bind; [apply keeps_BuildDir | intros; apply keeps_create].
Qed.

Lemma keeps_AssembleSources srcs out extraArgs :
  keepsImports (AssembleSources w srcs out extraArgs).
Proof.
  unfold AssembleSources.
  apply keeps_bind; [apply keeps_get | intros c].
  apply keeps_bind; [apply keeps_run | intros; apply keeps_ret].
Qed.

Lemma keeps_compileEmbedCfg cfg : keepsImports (compileEmbedCfg w cfg).
Proof.
  unfold compileEmbedCfg.
  apply keeps_bind; [apply keeps_BuildDir | intros].
  apply keeps_bind; [apply keeps_create | intros; apply keeps_ret].
Qed.

Lemma keeps_assembleEach srcs sObjs : keepsImports (assembleEach w srcs sObjs).
Proof.
  revert sObjs. induction srcs as [| src rest IH]; intros sObjs; simpl;
    [apply keeps_ret |].
  apply keeps_bind; [apply keeps_BuildDir | intros].
  apply keeps_bind; [apply keeps_AssembleSources | intros; apply IH].
Qed.

Lemma keeps_appendArchive sdk archive objs :
  keepsImports (appendArchive w sdk archive objs).
Proof. apply keeps_run. Qed.

(** The resolved imports after a call of [CompilePackage], whatever its
    outcome: they are set exactly when the call has classified the sources
    and generated the importcfg; a call that fails before leaves them as
    they were, and one that fails in the generation unsets them. *)
Lemma CompilePackage_imports obj exportData extraArgs c t c' t' r :
  CompilePackage w obj exportData extraArgs c t = (c', t', r) →
  match sortSrcs w (Srcs c) with
  | Ok (g, h, s) =>
      match compileImportCfg w g (c_Imports c, c_ImportMap c) t with
      | (_, _, _, Ok (_, l)) => imports c' = Some l
      | (_, _, _, Err _) => imports c' = None ∧ ∀ b, r ≠ Ok b
      | _ => imports c' = imports c ∧ ∀ b, r ≠ Ok b
      end
  | _ => imports c' = imports c ∧ ∀ b, r ≠ Ok b
  end.
Proof.
  unfold CompilePackage, compileCommand. intros H.
  apply bind_inv in H as [(cmd & c1 & t1 & H1 & H2) | (r0 & H1 & _ & Hr)].
  - assert (Hk : imports c' = imports c1).
    { revert H2. apply keeps_bind; [apply keeps_run | intros].
      apply keeps_bind; [apply keeps_get | intros c0].
      apply keeps_bind; [apply keeps_assembleEach | intros sObjs].
      destruct sObjs; [apply keeps_ret | apply keeps_appendArchive]. }
    rewrite Hk. clear H2 Hk.
    apply compileCommand_Ok in H1
      as (g & h & s & dps & im & t7 & cfg & l & dir & cores & mode & embed
          & -> & -> & _ & _ & _ & _ & _ & _ & _ & _ & _ & _ & _ & Hl & _).
    done.
  - apply bind_inv in H1 as [([] & c1 & t1 & H1 & H2) | (r1 & H1 & Hr1 & _)].
    2: { destruct (sortSrcs w (Srcs c)) as [[[g h] s] | e | msg | msg];
           injection H1 as <- _ <-; [by destruct (Hr1 ()) | done ..]. }
    destruct (sortSrcs w (Srcs c)) as [[[g h] s] | e | msg | msg]; try done.
    injection H1 as <- <-.
    apply bind_inv in H2 as [([] & c2 & t2 & H2 & H3) | (r2 & H2 & Hr2 & _)].
    2: { simpl in H2.
         destruct (compileImportCfg w g (c_Imports c, c_ImportMap c) t)
           as [[[dps im] t3] [[cfg l] | e | msg | msg]];
           injection H2 as <- _ <-; [by destruct (Hr2 ()) | done ..]. }
    simpl in H2.
    destruct (compileImportCfg w g (c_Imports c, c_ImportMap c) t)
      as [[[dps im] t3] [[cfg l] | e | msg | msg]]; try done.
    injection H2 as <- <-.
    assert (Hk : imports c' = Some l); [| done].
    change (Some l)
      with (imports (set_importCfg dps im cfg (Some l) (set_srcs g h s c))).
    revert H3.
    apply keeps_bind; [apply keeps_get | intros c0].
    apply keeps_bind; [apply keeps_trimPath | intros].
    apply keeps_bind.
    { destruct (bool_decide _); [| apply keeps_ret].
      apply keeps_bind; [apply keeps_BuildDir | intros].
      apply keeps_bind; [apply keeps_get | intros; apply keeps_trimPath]. }
    intros. apply keeps_bind; [apply keeps_get | intros c3].
    apply keeps_bind.
    { destruct (bool_decide _).
      - apply keeps_bind; [apply keeps_findIncludes | intros].
        apply keeps_bind; [apply keeps_includes | intros].
        apply keeps_bind; [apply keeps_BuildDir | intros].
        apply keeps_bind; [apply keeps_create | intros].
        apply keeps_bind; [apply keeps_symlinkArchHeaders | intros].
        apply keeps_bind; [apply keeps_AssembleSources | intros; apply keeps_ret].
      - destruct (negb _); apply keeps_ret. }
    intros cmd1. apply keeps_bind.
    { destruct (c_EmbedCfg c3); [| apply keeps_ret].
      apply keeps_bind; [| intros; apply keeps_ret].
      apply keeps_wrapM, keeps_compileEmbedCfg. }
    intros cmd2. apply keeps_bind; [apply keeps_liftR | intros; apply keeps_ret].
Qed.

End keeps.

(** C10 (as amended): [Deps] panics exactly when the resolved imports of the
    [Compilation] are unset.  They are unset on the [Compilation] that
    [compile] creates, and after a call of [CompilePackage] on such a
    [Compilation] that has failed before or in the generation of the
    importcfg; a call that has generated the importcfg has set them, whether
    it then returns without error or fails later, and [Deps] then returns a
    result or an error, never a panic.  In particular [Deps] does not panic
    once [CompilePackage] has returned without error. *)
Theorem C10_Deps_panic (w : World) :
  (∀ c, (∃ msg, Compilation_Deps w c = Panic msg) ↔ imports c = None) ∧
  (∀ sdk attrs, ∃ msg, Compilation_Deps w (newCompilation sdk attrs) = Panic msg) ∧
  (∀ obj exportData extraArgs c t c' t',
     CompilePackage w obj exportData extraArgs c t = (c', t', Ok ()) →
     is_Some (imports c') ∧
     ((∃ r, Compilation_Deps w c' = Ok r) ∨ (∃ e, Compilation_Deps w c' = Err e)) ∧
     ∀ msg, Compilation_Deps w c' ≠ Panic msg) ∧
  (∀ obj exportData extraArgs c t c' t' r,
     CompilePackage w obj exportData extraArgs c t = (c', t', r) →
     imports c = None →
     ((∃ msg, Compilation_Deps w c' = Panic msg) ↔
      ∀ g h s dps im t1 cfg l,
        sortSrcs w (Srcs c) = Ok (g, h, s) →
        compileImportCfg w g (c_Imports c, c_ImportMap c) t
        ≠ (dps, im, t1, Ok (cfg, l)))).
Proof.
  assert (Hiff : ∀ c, (∃ msg, Compilation_Deps w c = Panic msg) ↔ imports c = None).
  { intros c. split.
    - intros [msg Hp]. destruct (imports c) as [l |] eqn:Hl; [| done].
      destruct (Compilation_Deps_Some w c l Hl) as [(r & Hr) | (e & He)];
        congruence.
    - intros Hc. unfold Compilation_Deps. rewrite Hc. eauto. }
  split; [exact Hiff |]. split; [| split].
  - intros sdk attrs. by apply Hiff.
  - intros obj exportData extraArgs c t c' t' H.
    apply CompilePackage_Ok in H as (t1 & cmd & Hcmd & _ & _).
    apply compileCommand_Ok in Hcmd
      as (g & h & s & dps & im & t7 & cfg & l & dir & cores & mode & embed
          & _ & _ & _ & _ & _ & _ & _ & _ & _ & _ & _ & _ & _ & Hl & _).
    split; [by exists l |].
    destruct (Compilation_Deps_Some w c' l Hl) as [(r & Hr) | (e & He)].
    + split; [eauto |]. intros msg. by rewrite Hr.
    + split; [eauto |]. intros msg. by rewrite He.
  - intros obj exportData extraArgs c t c' t' r H Hc.
    rewrite Hiff.
    apply CompilePackage_imports in H.
    destruct (sortSrcs w (Srcs c)) as [[[g h] s] | e | msg | msg].
    2-4: destruct H as [-> _]; (split; [by intros _ ? ? ? ? ? ? ? ? [=] | done]).
    destruct (compileImportCfg w g (c_Imports c, c_ImportMap c) t)
      as [[[dps im] t3] [[cfg l] | e | msg | msg]] eqn:Hcfg.
    + rewrite H. split; [done |]. intros Hno.
      by destruct (Hno g h s dps im t3 cfg l eq_refl).
    + destruct H as [-> _]. split; [| done].
      intros _ g' h' s' dps' im' t1 cfg' l' [= <- <- <-]. by rewrite Hcfg.
    + destruct H as [-> _]. split; [| done].
      intros _ g' h' s' dps' im' t1 cfg' l' [= <- <- <-]. by rewrite Hcfg.
    + destruct H as [-> _]. split; [| done].
      intros _ g' h' s' dps' im' t1 cfg' l' [= <- <- <-]. by rewrite Hcfg.
Qed.

Lemma C10_witness :
  ∃ c' t',
    CompilePackage wS1 "/nix/store/foo-lib/foo.a" "/nix/store/foo-export/foo.x" []
      (newCompilation sdk1 attrsS1) [] = (c', t', Ok ()) ∧
    is_Some (imports c') ∧
    (∀ msg, Compilation_Deps wS1 c' ≠ Panic msg) ∧
    ∃ msg, Compilation_Deps wS1 (newCompilation sdk1 attrsS1) = Panic msg.
Proof.
  pose (r := CompilePackage wS1 "/nix/store/foo-lib/foo.a"
               "/nix/store/foo-export/foo.x" [] (newCompilation sdk1 attrsS1) []).
  assert (Hr : r.2 = Ok ()) by (vm_compute; reflexivity).
  assert (H : CompilePackage wS1 "/nix/store/foo-lib/foo.a"
                "/nix/store/foo-export/foo.x" [] (newCompilation sdk1 attrsS1) []
              = (r.1.1, r.1.2, Ok ())).
  { exact (run_outcome r () Hr). }
  exists r.1.1, r.1.2. split; [exact H |].
  destruct (C10_Deps_panic wS1) as (_ & Hfresh & Hafter & _).
  destruct (Hafter _ _ _ _ _ _ _ H) as (Hset & _ & Hno).
  split; [exact Hset |]. split; [exact Hno |]. apply Hfresh.
Defined.

(** C10, counterexample: the compiler exits with an error, so that
    [CompilePackage] returns an error and not its success; the resolved
    imports have been set before the compiler was run, and [Deps] on that
    [Compilation] returns its result and does not panic. *)
Lemma C10_counterexample :
  compileFails.2 = Err (ErrWrap "failed to compile binary" (ErrMsg "exit status")) ∧
  Compilation_Deps wFails compileFails.1.1
  = Ok (["acme/bar"; "fmt"], ["acme/bar"; "errors"; "fmt"; "io"]) ∧
  ¬ ∃ msg, Compilation_Deps wFails compileFails.1.1 = Panic msg.
Proof.
  assert (Hdeps : Compilation_Deps wFails compileFails.1.1
                  = Ok (["acme/bar"; "fmt"], ["acme/bar"; "errors"; "fmt"; "io"]))
    by (vm_compute; reflexivity).
  split; [vm_compute; reflexivity |]. split; [exact Hdeps |].
  intros [msg Hp]. rewrite Hdeps in Hp. discriminate Hp.
Qed.

(** * The command line of the compiler: trim path and [-complete] *)

Section trim.
Variable w : World.
Variable importPath : string.

Lemma foldl_trimStep srcs acc (seen : gset string) :
  ∃ dirs,
    NoDup dirs ∧
    (∀ d, d ∈ dirs ↔ d ∈ filepath_Dir w <$> srcs ∧ d ∉ seen) ∧
    (foldl (trimStep w importPath) (acc, seen) srcs).1 = acc +:+ trimPrefix importPath dirs.
Proof.
  revert acc seen. induction srcs as [| src rest IH]; intros acc seen; simpl.
  - exists []. split; [constructor |]. split.
    + intros d. rewrite !elem_of_nil. tauto.
    + by rewrite append_empty_r.
  - case_decide as Hseen.
    + destruct (IH acc seen) as (dirs & Hnd & Hmem & Heq).
      exists dirs. split; [done |]. split; [| done].
      intros d. rewrite Hmem, elem_of_cons. split; [tauto |].
      intros [[-> | ?] ?]; done.
    + destruct (IH (acc +:+ filepath_Dir w src +:+ "=>" +:+ importPath +:+ ";")
                   ({[filepath_Dir w src]} ∪ seen))
        as (dirs & Hnd & Hmem & Heq).
      exists (filepath_Dir w src :: dirs). split; [| split].
      * constructor; [| done]. rewrite Hmem. intros [_ Hnot].
        apply Hnot, elem_of_union. left. by apply elem_of_singleton.
      * intros d. rewrite !elem_of_cons, Hmem. split.
        -- intros [-> | [? ?]]; [by split; [left |] |].
           split; [by right |]. intros Hd.
           match goal with H : _ ∉ _ ∪ _ |- _ => apply H end.
           apply elem_of_union. by right.
        -- intros [[-> | ?] ?]; [by left |].
           destruct (decide (d = filepath_Dir w src)) as [-> | ?]; [by left |].
           right. split; [done |].
           intros [?%elem_of_singleton | ?]%elem_of_union; done.
      * rewrite Heq. simpl. by rewrite !append_assoc.
Qed.

Lemma concat_trimPrefix dirs rest :
  rest ≠ [] →
  String.concat ";" (map (λ dir, dir +:+ "=>" +:+ importPath) dirs ++ rest)
  = trimPrefix importPath dirs +:+ String.concat ";" rest.
Proof.
  intros Hrest. induction dirs as [| d dirs IH]; [done |].
  simpl. rewrite IH.
  destruct (map _ dirs ++ rest) eqn:Heq.
  - by destruct dirs, rest.
  - by rewrite !append_assoc.
Qed.

(** The trim path of [packageTrimPath] as a list of entries. *)
Lemma packageTrimPath_entries srcs out :
  ∃ dirs,
    NoDup dirs ∧
    (∀ d, d ∈ dirs ↔ d ∈ filepath_Dir w <$> srcs) ∧
    ∀ asm,
      packageTrimPath w srcs importPath out
      +:+ match asm with Some dir => ";" +:+ dir +:+ "=>" | None => "" end
      = String.concat ";" (trimEntries dirs importPath out asm).
Proof.
  destruct (foldl_trimStep srcs "" ∅) as (dirs & Hnd & Hmem & Heq).
  exists dirs. split; [done |]. split.
  - intros d. rewrite Hmem. split; [by intros [? _] |].
    intros Hd. split; [done | apply not_elem_of_empty].
  - intros asm. unfold packageTrimPath, trimEntries.
    rewrite Heq, concat_trimPrefix by (by destruct asm).
    destruct asm as [dir |]; simpl.
    + by rewrite !append_assoc.
    + by rewrite append_empty_r.
Qed.

End trim.

(** C5 (as amended): the [-trimpath] argument handed to the compiler is the
    semicolon-separated sequence of one [<srcDir>=><importPath>] entry per
    distinct directory of the sources, followed by the [<outDir>=>] entry in
    every case, followed by a [<buildDir>=>] entry exactly when the package
    has assembly sources: the entry of the build directory comes last. *)
Theorem C5_trimPath (w : World) (obj exportData : string)
    (extraArgs : list string) (c : Compilation) (t : list event)
    (c' : Compilation) (t' : list event) (cmd : Cmd) :
  compileCommand w obj exportData extraArgs c t = (c', t', Ok cmd) →
  ∃ dirs buildDir post,
    MkdirTemp w = Some buildDir ∧
    NoDup dirs ∧
    (∀ d, d ∈ dirs ↔ d ∈ filepath_Dir w <$> Srcs c) ∧
    trimPath c' =
      String.concat ";"
        (trimEntries dirs (c_ImportPath c) (filepath_Dir w obj)
           (match sSrcs c' with [] => None | _ => Some buildDir end)) ∧
    Args cmd =
      Args (RunTool w (SDK c) "compile" extraArgs)
      ++ ["-o"; exportData; "-linkobj"; obj; "-trimpath"; trimPath c'] ++ post.
Proof.
  intros H. apply compileCommand_Ok in H
    as (g & h & s & dps & im & t7 & cfg & l & dir & cores & mode & embed
        & _ & _ & Hdir & _ & _ & _ & _ & _ & _ & _ & _ & Hs & _ & _ & Htrim
        & _ & _ & Hargs).
  destruct (packageTrimPath_entries w (c_ImportPath c) (Srcs c) (filepath_Dir w obj))
    as (dirs & Hnd & Hmem & Heq).
  exists dirs, dir. eexists. split; [done |]. split; [done |]. split; [done |].
  split.
  - rewrite Htrim, Hs, <- Heq. by destruct s.
  - rewrite Hargs. reflexivity.
Qed.

Lemma C5_witness :
  ∃ c' t' cmd,
    compileCommand wAsm "/nix/store/foo-lib/asm.a" "/nix/store/foo-export/asm.x"
      [] (newCompilation sdk1 attrsAsm) [] = (c', t', Ok cmd) ∧
    trimPath c' = "/src/acme/asm=>acme/asm;/nix/store/foo-lib=>;/build/builder1=>" ∧
    ∃ dirs buildDir,
      trimPath c' =
        String.concat ";"
          (trimEntries dirs "acme/asm" "/nix/store/foo-lib" (Some buildDir)).
Proof.
  pose (r := compileCommand wAsm "/nix/store/foo-lib/asm.a"
               "/nix/store/foo-export/asm.x" [] (newCompilation sdk1 attrsAsm) []).
  assert (Hr : r.2 = Ok (default {| Args := []; Env := None |}
                           (match r.2 with Ok cmd => Some cmd | _ => None end)))
    by (vm_compute; reflexivity).
  pose proof (run_outcome r _ Hr) as H.
  eexists _, _, _. split; [exact H |]. split; [vm_compute; reflexivity |].
  destruct (C5_trimPath wAsm _ _ _ _ _ _ _ _ H)
    as (dirs & buildDir & post & _ & _ & _ & Htrim & _).
  exists dirs, buildDir. exact Htrim.
Defined.

(** C5, counterexample: with one Go source and one assembly source in
    [/src/acme/asm], the trim path ends in the entry of the build directory,
    whereas the order of the specification ends in that of the output
    directory. *)
Lemma C5_counterexample :
  ∃ c' t' cmd,
    compileCommand wAsm "/nix/store/foo-lib/asm.a" "/nix/store/foo-export/asm.x"
      [] (newCompilation sdk1 attrsAsm) [] = (c', t', Ok cmd) ∧
    sSrcs c' = ["/src/acme/asm/impl_amd64.s"] ∧
    Args cmd !! 5 = Some "-trimpath" ∧
    Args cmd !! 6
      = Some "/src/acme/asm=>acme/asm;/nix/store/foo-lib=>;/build/builder1=>" ∧
    String.concat ";"
      (trimEntries_spec ["/src/acme/asm"] "acme/asm" "/nix/store/foo-lib"
         (Some "/build/builder1"))
      = "/src/acme/asm=>acme/asm;/build/builder1=>;/nix/store/foo-lib=>" ∧
    Args cmd !! 6
      ≠ Some (String.concat ";"
                (trimEntries_spec ["/src/acme/asm"] "acme/asm" "/nix/store/foo-lib"
                   (Some "/build/builder1"))).
Proof.
  pose (r := compileCommand wAsm "/nix/store/foo-lib/asm.a"
               "/nix/store/foo-export/asm.x" [] (newCompilation sdk1 attrsAsm) []).
  assert (Hr : r.2 = Ok (default {| Args := []; Env := None |}
                           (match r.2 with Ok cmd => Some cmd | _ => None end)))
    by (vm_compute; reflexivity).
  pose proof (run_outcome r _ Hr) as H.
  eexists _, _, _. split; [exact H |].
  repeat split; try (vm_compute; reflexivity).
  vm_compute. discriminate.
Qed.

(** C9: the allowlist of [hasForwardDecl] is exactly [bytes],
    [internal/poll], [net], [os], [runtime/metrics], [runtime/pprof],
    [runtime/trace], [sync], [syscall] and [time]; and in every command of
    the compiler the arguments that follow [-lang <version>] begin with
    [-complete] if and only if the package has no assembly sources and its
    import path is not in that allowlist: otherwise they begin with the
    [-symabis] and [-asmhdr] arguments (assembly) or with nothing of the
    kind (allowlisted package). *)
Theorem C9_complete_flag (w : World) :
  (∀ p, hasForwardDecl p = true ↔ p ∈ allowlist_spec) ∧
  ∀ obj exportData extraArgs c t c' t' cmd,
    compileCommand w obj exportData extraArgs c t = (c', t', Ok cmd) →
    ∃ mode embed cores,
      Args cmd =
        Args (RunTool w (SDK c) "compile" extraArgs)
        ++ ["-o"; exportData; "-linkobj"; obj; "-trimpath"; trimPath c';
            "-p"; c_ImportPath c; "-lang"; CompatVersion (SDK c)]
        ++ mode ++ embed
        ++ ["-c"; cores; "-nolocalimports"; "-importcfg"; importCfg c';
            "-pack"; "--"]
        ++ goSrcs c' ∧
      (mode = ["-complete"] ↔
         sSrcs c' = [] ∧ c_ImportPath c ∉ allowlist_spec) ∧
      (mode = ["-complete"] ∨ mode = [] ∨
         ∃ symabis asmhdr, mode = ["-symabis"; symabis; "-asmhdr"; asmhdr]) ∧
      (embed = [] ∨ ∃ path, embed = ["-embedcfg"; path]).
Proof.
  assert (Hallow : ∀ p, hasForwardDecl p = true ↔ p ∈ allowlist_spec).
  { intros p. unfold hasForwardDecl, allowlist_spec. split.
    - repeat
        match goal with
        | |- context [String.eqb p ?s] =>
            destruct (String.eqb_spec p s) as [-> | ?];
            [intros _; repeat (first [by left | right]) |]
        end.
      simpl. discriminate.
    - intros H. repeat (apply elem_of_cons in H as [-> | H]; [done |]).
      by apply elem_of_nil in H. }
  split; [exact Hallow |].
  intros obj exportData extraArgs c t c' t' cmd H.
  apply compileCommand_Ok in H
    as (g & h & s & dps & im & t7 & cfg & l & dir & cores & mode & embed
        & _ & _ & _ & _ & _ & _ & _ & _ & _ & Hg & _ & Hs & Hcfg & _ & _
        & Hmode & Hembed & Hargs).
  exists mode, embed, (Go.Sprint cores).
  split; [by rewrite Hargs, Hg, Hcfg |].
  rewrite Hs. split; [| split].
  - rewrite Hmode. destruct s as [| x s]; simpl.
    + destruct (hasForwardDecl (c_ImportPath c)) eqn:Hfwd.
      * apply Hallow in Hfwd. split; [done | by intros [_ ?]].
      * split; [| done]. intros _. split; [done |].
        intros Hin%Hallow. congruence.
    + split; [done | by intros [? _]].
  - rewrite Hmode. destruct (bool_decide _); [eauto 6 |].
    destruct (hasForwardDecl _); eauto.
  - rewrite Hembed. destruct (c_EmbedCfg c); eauto.
Qed.

Lemma C9_witness :
  ∃ c' t' cmd,
    compileCommand wS1 "/nix/store/foo-lib/foo.a" "/nix/store/foo-export/foo.x"
      [] (newCompilation sdk1 attrsS1) [] = (c', t', Ok cmd) ∧
    sSrcs c' = [] ∧ ("acme/foo" ∉ allowlist_spec) ∧
    Args cmd !! 11 = Some "-complete" ∧
    ∃ mode, mode = ["-complete"] ∧
      ∃ post, Args cmd =
        Args (RunTool wS1 sdk1 "compile" [])
        ++ ["-o"; "/nix/store/foo-export/foo.x";
            "-linkobj"; "/nix/store/foo-lib/foo.a"; "-trimpath"; trimPath c';
            "-p"; "acme/foo"; "-lang"; "go1.23"]
        ++ mode ++ post.
Proof.
  pose (r := compileCommand wS1 "/nix/store/foo-lib/foo.a"
               "/nix/store/foo-export/foo.x" [] (newCompilation sdk1 attrsS1) []).
  assert (Hr : r.2 = Ok (default {| Args := []; Env := None |}
                           (match r.2 with Ok cmd => Some cmd | _ => None end)))
    by (vm_compute; reflexivity).
  pose proof (run_outcome r _ Hr) as H.
  eexists _, _, _. split; [exact H |].
  assert (Hs : sSrcs r.1.1 = []) by (vm_compute; reflexivity).
  assert (Hnot : "acme/foo" ∉ allowlist_spec).
  { intros Hin. apply (proj1 (C9_complete_flag wS1)) in Hin. discriminate Hin. }
  split; [exact Hs |]. split; [exact Hnot |].
  split; [vm_compute; reflexivity |].
  destruct (proj2 (C9_complete_flag wS1) _ _ _ _ _ _ _ _ H)
    as (mode & embed & cores & Hargs & Hiff & _ & _).
  exists mode. split; [apply Hiff; split; [exact Hs | exact Hnot] |].
  eexists. exact Hargs.
Defined.

(** * Sorted import lists *)

#[global] Instance import_le_total : Total import_le.
Proof. intros a b. apply str_le_total. Qed.

#[global] Instance import_le_trans : Transitive import_le.
Proof. intros a b c. apply str_le_trans. Qed.

Lemma SortImports_Sorted l : Sorted import_le (SortImports l).
Proof. apply Sorted_merge_sort, _. Qed.

Lemma SortImports_Permutation l : SortImports l ≡ₚ l.
Proof. apply merge_sort_Permutation. Qed.

(** The order in which [slices.SortFunc] leaves entries of equal import path
    cannot be observed when such entries are equal: the sorted list is then
    unique. *)
Lemma SortImports_unique l l' :
  (∀ a b, a ∈ l → b ∈ l → ImportPath a = ImportPath b → a = b) →
  Sorted import_le l' → l' ≡ₚ l → l' = SortImports l.
Proof.
  intros Hkey Hsorted Hperm.
  apply (Sorted_unique_strong import_le); [| done | apply SortImports_Sorted |].
  - intros a b Ha Hb Hab Hba. rewrite Hperm in Ha.
    rewrite SortImports_Permutation in Hb.
    apply Hkey; [done | done |]. by apply str_le_antisymm.
  - by rewrite SortImports_Permutation.
Qed.

(** Both lists of [ScanImports] are sorted by import path. *)
Lemma ScanImports_Sorted w srcs pkgs importMap l rewrites :
  ScanImports w srcs pkgs importMap = Ok (l, rewrites) →
  Sorted import_le l ∧ Sorted import_le rewrites.
Proof.
  unfold ScanImports.
  destruct (foldM _ _ _) as [st | | |]; simpl; try done.
  intros [= <- <-]. split; apply SortImports_Sorted.
Qed.

(** C3, at the failing input: [a.go] imports [x] and [y], and the import
    map sends both to [z].  The scan returns the binding of [z] twice; the
    importcfg names the package file of [z] twice and the sidecar has
    [Imports = [z; z]], which is not strictly ascending, while [Deps] is. *)
Theorem C3_repeated_import :
  ScanImports wDup ["/src/acme/dup/a.go"] {[ "z" := "/nix/store/ZZZ" ]}
    (Some {[ "x" := "z"; "y" := "z" ]})
  = Ok ([{| StorePath := "/nix/store/ZZZ"; ImportPath := "z" |};
         {| StorePath := "/nix/store/ZZZ"; ImportPath := "z" |}],
        [{| StorePath := "z"; ImportPath := "x" |};
         {| StorePath := "z"; ImportPath := "y" |}]) ∧
  (run_compile wDup sdk1 attrsDup).2 = Ok () ∧
  WriteFile "/build/builder1/importcfg"
    ["importmap x=z"; "importmap y=z";
     "packagefile z=/nix/store/ZZZ/z.x"; "packagefile z=/nix/store/ZZZ/z.x"]
    ∈ (run_compile wDup sdk1 attrsDup).1 ∧
  last (run_compile wDup sdk1 attrsDup).1
  = Some (SavePackage "/nix/store/foo-export/dup.json"
            {| pkgImportPath := "acme/dup"; Imports := ["z"; "z"];
               Deps := ["q"; "z"] |}) ∧
  ¬ ascending ["z"; "z"] ∧
  ascending ["q"; "z"].
Proof.
  split; [vm_compute; reflexivity |].
  split; [vm_compute; reflexivity |].
  split.
  - assert ((run_compile wDup sdk1 attrsDup).1 !! 3
            = Some (WriteFile "/build/builder1/importcfg"
                      ["importmap x=z"; "importmap y=z";
                       "packagefile z=/nix/store/ZZZ/z.x";
                       "packagefile z=/nix/store/ZZZ/z.x"])) as H
      by (vm_compute; reflexivity).
    by apply list_elem_of_lookup_2 in H.
  - split; [vm_compute; reflexivity |].
    split; [| by repeat constructor].
    intros H. apply StronglySorted_inv in H as [_ H].
    apply Forall_cons in H as [H _]. by apply irreflexivity in H; [| apply _].
Qed.

(** * The link driver *)

Section link_facts.
Variable w : World.

Lemma linkImports_Ok main mainPath deps l :
  linkImports main mainPath deps = Ok l →
  {| StorePath := mainPath; ImportPath := "command-line-arguments" |} ∈ l ∧
  Sorted import_le l.
Proof.
  unfold linkImports.
  destruct (foldM _ _ _) as [l0 | | |]; simpl; try done.
  intros [= <-]. split; [| apply SortImports_Sorted].
  rewrite SortImports_Permutation, elem_of_app, list_elem_of_singleton. by right.
Qed.

Lemma linkImportCfg_Ok main mainPath deps t deps' t' cfg :
  linkImportCfg w main mainPath deps t = (deps', t', Ok cfg) →
  ∃ l dir,
    linkImports main mainPath deps' = Ok l ∧
    MkdirTemp w = Some dir ∧
    cfg = filepath_Join w [dir; "importcfg.link"] ∧
    t' = t ++ createdBy dir t ++ [WriteFile cfg (map (packagefileLine ".a") l)].
Proof.
  unfold linkImportCfg. intros H.
  apply bind_Ok in H as ([] & d1 & t1 & H1 & H).
  destruct (ResolveMetaPackages w deps None) as [[d2 m2] r] eqn:Hres.
  injection H1 as -> -> ->.
  apply bind_Ok in H as (d3 & s3 & t3 & (-> & -> & ->)%get_Ok & H).
  apply bind_Ok in H as (l & s4 & t4 & (Hl & -> & ->)%liftR_Ok & H).
  apply bind_Ok in H as (dir & s5 & t5 & (Hd & -> & ->)%BuildDir_Ok & H).
  apply bind_Ok in H as (? & s6 & t6 & (_ & -> & ->)%create_Ok & H).
  apply mret_Ok in H as (-> & -> & ->).
  exists l, dir. by rewrite <- app_assoc.
Qed.

(** What a successful [LinkPackage] has written and run. *)
Lemma LinkPackage_Ok out extraArgs l t l' t' :
  LinkPackage w out extraArgs l t = (l', t', Ok ()) →
  let storePath := Go.index (l_Deps l) (pkgImportPath (l_Main l)) in
  storePath ≠ "" ∧
  ∃ dir cfg entries cmd,
    MkdirTemp w = Some dir ∧
    cfg = filepath_Join w [dir; "importcfg.link"] ∧
    t' = t ++ createdBy dir t
           ++ [WriteFile cfg (map (packagefileLine ".a") entries); Run cmd] ∧
    {| StorePath := storePath; ImportPath := "command-line-arguments" |} ∈ entries ∧
    Sorted import_le entries ∧
    Args cmd =
      Args (RunTool w (l_SDK l) "link" extraArgs)
      ++ ["-o"; out; "-importcfg"; cfg; "-buildmode"; "exe";
          storePath +:+ "/" +:+ Go.Base (pkgImportPath (l_Main l)) +:+ ".a"].
Proof.
  unfold LinkPackage. intros H. simpl.
  apply bind_Ok in H as (? & s1 & t1 & (-> & -> & ->)%get_Ok & H).
  destruct (String.eqb_spec (Go.index (l_Deps l) (pkgImportPath (l_Main l))) "")
    as [Heq | Hne]; [by apply liftR_Ok in H as (? & _) |].
  split; [done |].
  apply bind_Ok in H as ([] & s2 & t2 & H2 & H).
  destruct (linkImportCfg w _ _ _ _) as [[deps' t3] r] eqn:Hcfg.
  destruct r as [cfg | | |]; try done.
  injection H2 as <- <-.
  apply linkImportCfg_Ok in Hcfg
    as (entries & dir & [Hin Hsorted]%linkImports_Ok & Hdir & Hcfg & ->).
  apply bind_Ok in H as (? & s3 & t4 & (-> & -> & ->)%get_Ok & H).
  apply run_Ok in H as (_ & -> & ->).
  exists dir, cfg, entries. eexists. split; [done |]. split; [done |].
  split; [by rewrite <- !app_assoc |].
  split; [done |]. split; [done |]. reflexivity.
Qed.

End link_facts.

(** C4 (as amended): when the link command succeeds, its last two effects
    are the write of the linker's importcfg and the run of the linker; the
    importcfg entry for the sentinel name [command-line-arguments] is rooted
    at the store path that the table [deps] binds to [packagePath], and the
    archive passed to the linker (its last argument) is
    [<deps[packagePath]>/<basename(packagePath)>.a].  The attribute [main]
    only locates the metadata sidecar. *)
Theorem C4_link_paths (w : World) (sdk : GoSDK) (attrs : LinkAttrs)
    (t : list event) :
  link w sdk attrs () [] = ((), t, Ok ()) →
  let storePath := Go.index (a_Deps attrs) (l_PackagePath attrs) in
  storePath ≠ "" ∧
  (∃ q, LoadMetadata w (Main attrs) (l_PackagePath attrs) = Ok q) ∧
  ∃ t0 cfg entries cmd pre,
    t = t0 ++ [WriteFile cfg (map (packagefileLine ".a") entries); Run cmd] ∧
    {| StorePath := storePath; ImportPath := "command-line-arguments" |} ∈ entries ∧
    Args cmd =
      pre ++ ["-importcfg"; cfg; "-buildmode"; "exe";
              storePath +:+ "/" +:+ Go.Base (l_PackagePath attrs) +:+ ".a"].
Proof.
  unfold link. intros H.
  apply bind_Ok in H as (outDir & s1 & t2 & _ & H).
  apply bind_Ok in H as (? & s2 & t3 & _ & H).
  apply bind_Ok in H as (main & s3 & t4 & Hload%fatal_Ok & H).
  apply liftR_Ok in Hload as (Hload & -> & ->).
  apply fatal_Ok in H. unfold withState in H.
  destruct (LinkPackage _ _ _ _ _) as [[l' t5] r] eqn:Hlink.
  injection H as _ -> ->.
  apply LinkPackage_Ok in Hlink
    as (Hne & dir & cfg & entries & cmd & _ & _ & -> & Hin & _ & Hargs).
  simpl in Hne, Hin, Hargs.
  destruct (LoadMetadata_cases w (Main attrs) (l_PackagePath attrs))
    as [(q & Hq & Hpath) | (e & He)]; [| congruence].
  assert (q = main) as -> by congruence.
  rewrite Hpath in Hne, Hin, Hargs.
  split; [done |]. split; [eauto |].
  exists (t3 ++ createdBy dir t3), cfg, entries, cmd,
    (Args (RunTool w sdk "link" (LinkFlags attrs))
     ++ ["-o"; filepath_Join w [filepath_Join w [outDir; "bin"]; Name attrs]]).
  split; [by rewrite <- app_assoc |]. split; [done |].
  rewrite Hargs. simpl. by rewrite <- app_assoc.
Qed.

Lemma C4_witness :
  ∃ t, link wLink sdk1 attrsLink () [] = ((), t, Ok ()) ∧
    ∃ t0 cfg entries cmd,
      t = t0 ++ [WriteFile cfg (map (packagefileLine ".a") entries); Run cmd] ∧
      {| StorePath := "/nix/store/main-lib"; ImportPath := "command-line-arguments" |}
        ∈ entries ∧
      last (Args cmd) = Some "/nix/store/main-lib/main.a".
Proof.
  pose (r := link wLink sdk1 attrsLink () []).
  assert (Hr : r.2 = Ok ()) by (vm_compute; reflexivity).
  assert (H : link wLink sdk1 attrsLink () [] = ((), r.1.2, Ok ())).
  { rewrite (run_outcome r () Hr). by destruct r.1.1. }
  exists r.1.2. split; [exact H |].
  destruct (C4_link_paths wLink sdk1 attrsLink _ H)
    as (_ & _ & t0 & cfg & entries & cmd & pre & Ht & Hin & Hargs).
  exists t0, cfg, entries, cmd. split; [exact Ht |]. split; [exact Hin |].
  rewrite Hargs.
  change ["-importcfg"; cfg; "-buildmode"; "exe"; ?a]
    with (["-importcfg"; cfg; "-buildmode"; "exe"] ++ [a]).
  rewrite app_assoc. apply last_snoc.
Defined.

(** C4, counterexample: [main] is the export output of the main package and
    [deps] binds [main] to its lib output.  The archive passed to the linker
    and the sentinel entry are under the lib output, not under [main]. *)
Lemma C4_counterexample :
  run_link wLink sdk1 attrsLink
  = ([Mkdir "/nix/store/hello"; Mkdir "/nix/store/hello/bin";
      TempDir "/build/builder1";
      WriteFile "/build/builder1/importcfg.link"
        ["packagefile command-line-arguments=/nix/store/main-lib/command-line-arguments.a";
         "packagefile fmt=/nix/store/fmt-lib/fmt.a"];
      Run {| Args := ["/nix/store/go/share/go/pkg/tool/linux_amd64/link";
                      "-o"; "/nix/store/hello/bin/hello";
                      "-importcfg"; "/build/builder1/importcfg.link";
                      "-buildmode"; "exe";
                      "/nix/store/main-lib/main.a"];
             Env := Some ["CGO_ENABLED=0"; "GOROOT="] |}],
     Ok ()) ∧
  mainArchive_spec attrsLink = "/nix/store/main-export/main.a" ∧
  "/nix/store/main-lib/main.a" ≠ mainArchive_spec attrsLink ∧
  "packagefile command-line-arguments=/nix/store/main-lib/command-line-arguments.a"
    ≠ "packagefile command-line-arguments=" +:+ mainArchive_spec attrsLink.
Proof.
  split; [vm_compute; reflexivity |].
  split; [vm_compute; reflexivity |].
  split; vm_compute; discriminate.
Qed.

(** * Parallelism *)

Lemma digit_Some a d : Go.digit a = Some d → (0 ≤ d ≤ 9)%Z.
Proof.
  unfold Go.digit. case_bool_decide; [| done]. intros [= <-]. lia.
Qed.

Lemma digit_not_sign a d :
  Go.digit a = Some d → Ascii.eqb a "-"%char = false ∧ Ascii.eqb a "+"%char = false.
Proof.
  intros H. split.
  - destruct (Ascii.eqb_spec a "-"%char) as [-> |]; [done | done].
  - destruct (Ascii.eqb_spec a "+"%char) as [-> |]; [done | done].
Qed.

Lemma digitsFrom_nonneg s acc u :
  (0 ≤ acc)%Z → Go.digitsFrom acc s = Some u → (0 ≤ u)%Z.
Proof.
  revert acc. induction s as [| a s IH]; intros acc Hacc; simpl.
  - by intros [= <-].
  - destruct (Go.digit a) as [d |] eqn:Hd; [| done].
    apply digit_Some in Hd. apply IH. lia.
Qed.

Lemma ParseUint_Some s u :
  Go.ParseUint s = Some u ↔ s ≠ "" ∧ Go.digitsFrom 0 s = Some u.
Proof.
  unfold Go.ParseUint. destruct (String.eqb_spec s "") as [-> | Hne].
  - split; [done | by intros [? _]].
  - split; [done | by intros [_ ?]].
Qed.

(** [strconv.ParseInt s 10 32] accepts exactly the signed decimal numerals
    of the 32-bit integers. *)
Lemma ParseInt32_Some s n :
  Go.ParseInt32 s = Some n ↔ signedDecimal s n ∧ int32 n.
Proof.
  unfold signedDecimal, int32. split.
  - destruct s as [| a s']; [done |]. unfold Go.ParseInt32.
    destruct (Ascii.eqb_spec a "-"%char) as [-> | Hminus].
    + simpl. destruct (Go.ParseUint s') as [u |] eqn:Hu; [| done].
      apply ParseUint_Some in Hu as [Hne Hu].
      case_bool_decide; [done |]. intros [= <-].
      pose proof (digitsFrom_nonneg _ _ _ (Z.le_refl 0) Hu).
      split; [| lia]. exists "-", s', u. naive_solver.
    + destruct (Ascii.eqb_spec a "+"%char) as [-> | Hplus]; simpl.
      * destruct (Go.ParseUint s') as [u |] eqn:Hu; [| done].
        apply ParseUint_Some in Hu as [Hne Hu].
        case_bool_decide; [done |]. intros [= <-].
        pose proof (digitsFrom_nonneg _ _ _ (Z.le_refl 0) Hu).
        split; [| lia]. exists "+", s', u. naive_solver.
      * destruct (Go.ParseUint (String a s')) as [u |] eqn:Hu; [| done].
        apply ParseUint_Some in Hu as [Hne Hu].
        case_bool_decide; [done |]. intros [= <-].
        pose proof (digitsFrom_nonneg _ _ _ (Z.le_refl 0) Hu).
        split; [| lia]. exists "", (String a s'), u. naive_solver.
  - intros [(sign & body & u & -> & Hsign & Hne & Hu & ->) Hrange].
    pose proof (digitsFrom_nonneg _ _ _ (Z.le_refl 0) Hu) as Hpos.
    assert (Go.ParseUint body = Some u) as HU by (by apply ParseUint_Some).
    destruct Hsign as [-> | [-> | ->]]; simpl in *.
    + destruct body as [| a rest]; [done |].
      change ("" +:+ String a rest) with (String a rest).
      unfold Go.ParseInt32.
      assert (is_Some (Go.digit a)) as [d Hd].
      { simpl in Hu. destruct (Go.digit a); [eauto | done]. }
      destruct (digit_not_sign a d Hd) as [-> ->].
      cbn [orb negb andb]. rewrite HU.
      rewrite bool_decide_eq_false_2 by lia. done.
    + change ("+" +:+ body) with (String "+"%char body).
      unfold Go.ParseInt32.
      change (Ascii.eqb "+" "-")%char with false.
      change (Ascii.eqb "+" "+")%char with true.
      cbn [orb negb andb]. change ("" +:+ body) with body. rewrite HU.
      rewrite bool_decide_eq_false_2 by lia. done.
    + change ("-" +:+ body) with (String "-"%char body).
      unfold Go.ParseInt32.
      change (Ascii.eqb "-" "-")%char with true.
      cbn [orb negb andb]. change ("" +:+ body) with body. rewrite HU.
      rewrite bool_decide_eq_false_2 by lia. done.
Qed.

(** C6 (as amended): the empty value yields 1 and the value ["0"] yields
    the detected CPU count; any other value is accepted exactly when it is
    the decimal numeral, with an optional sign, of a signed 32-bit integer,
    which is then returned as it is, be it positive, zero or negative; the
    function exits fatally on every other value, non-numeric ones
    included. *)
Theorem C6_parallelism (w : World) :
  (NIX_BUILD_CORES w = "" → BuildParallelism w = Ok 1%Z) ∧
  (NIX_BUILD_CORES w = "0" → BuildParallelism w = Ok (NumCPU w)) ∧
  (NIX_BUILD_CORES w ≠ "" → NIX_BUILD_CORES w ≠ "0" →
     (∀ n, BuildParallelism w = Ok n ↔
           signedDecimal (NIX_BUILD_CORES w) n ∧ int32 n) ∧
     ((¬ ∃ n, signedDecimal (NIX_BUILD_CORES w) n ∧ int32 n) →
      ∃ msg, BuildParallelism w = Fatal msg) ∧
     ((∃ msg, BuildParallelism w = Fatal msg) ∨
      (∃ n, BuildParallelism w = Ok n))).
Proof.
  unfold BuildParallelism. split; [by intros -> | split; [by intros -> |]].
  intros H1 H2.
  destruct (String.eqb_spec (NIX_BUILD_CORES w) "") as [? | _]; [done |].
  destruct (String.eqb_spec (NIX_BUILD_CORES w) "0") as [? | _]; [done |].
  destruct (Go.ParseInt32 (NIX_BUILD_CORES w)) as [n0 |] eqn:Hparse.
  - apply ParseInt32_Some in Hparse as Hspec. split; [| split].
    + intros n. rewrite <- ParseInt32_Some, Hparse.
      split; intros [= ->]; done.
    + intros Hnot. destruct Hnot. eauto.
    + eauto.
  - split; [| split].
    + intros n. rewrite <- ParseInt32_Some, Hparse. split; done.
    + eauto.
    + eauto.
Qed.

Lemma C6_witness :
  BuildParallelism (wCores "4") = Ok 4%Z ∧
  BuildParallelism (wCores "-1") = Ok (-1)%Z ∧
  (∃ msg, BuildParallelism (wCores "x") = Fatal msg).
Proof.
  split; [| split].
  - destruct (C6_parallelism (wCores "4")) as (_ & _ & H).
    destruct H as (H & _ & _); [discriminate | discriminate |].
    apply H. split; [| unfold int32; lia].
    exists "", "4", 4%Z. repeat split; [by left | discriminate].
  - destruct (C6_parallelism (wCores "-1")) as (_ & _ & H).
    destruct H as (H & _ & _); [discriminate | discriminate |].
    apply H. split; [| unfold int32; lia].
    exists "-", "1", 1%Z. repeat split; [by right; right | discriminate].
  - destruct (C6_parallelism (wCores "x")) as (_ & _ & H).
    destruct H as (H & _ & [Hfatal | [n Hn]]); [discriminate | discriminate | | ].
    + exact Hfatal.
    + vm_compute in Hn. discriminate Hn.
Defined.

(** C6, counterexample: the values ["-1"] and ["00"] are neither empty nor
    ["0"], and are accepted although they are not positive integers. *)
Lemma C6_counterexample :
  BuildParallelism (wCores "-1") = Ok (-1)%Z ∧ ¬ (0 < -1)%Z ∧
  BuildParallelism (wCores "00") = Ok 0%Z ∧ ¬ (0 < 0)%Z.
Proof. repeat split; try (vm_compute; reflexivity); lia. Qed.

(** * The version of the toolchain *)

(** [compilerVersion] by the number of fields of the output: it panics on
    fewer than two fields, returns the error only on two fields that are
    both unexpected, and accepts three fields or more as they are. *)
Lemma compilerVersion_fields (w : World) (sdk : GoSDK) (info : string) :
  goVersion w = Some info →
  compilerVersion w sdk =
    match Go.Fields info with
    | [] | [_] => Panic "index out of range"
    | [f0; f1] =>
        if negb (String.eqb f0 "go") && negb (String.eqb f1 "version")
        then Err (ErrMsg ("malformed output " +:+ info))
        else Panic "index out of range"
    | _ :: _ :: f2 :: _ => Ok (Go.CutPrefix f2 "go").1
    end.
Proof.
  intros Hv. unfold compilerVersion. rewrite Hv.
  destruct (Go.Fields info) as [| f0 [| f1 [| f2 rest]]]; simpl; try done.
  - by destruct (String.eqb f0 "go").
  - by destruct (String.eqb f0 "go"), (String.eqb f1 "version").
Qed.

(** C7, at the failing inputs: when [go version] prints nothing, or only
    [go], or only [go version], [compilerVersion] indexes the fields out of
    range and panics, and [LoadSDK] with it; an error is returned only for
    an output of two fields of which neither is as expected, and any output
    of three or more fields is accepted.  On the output of a real toolchain
    the third field is returned without its prefix [go]. *)
Theorem C7_compilerVersion_panics :
  compilerVersion (wVersion "") sdk1 = Panic "index out of range" ∧
  LoadSDK (wVersion "") "/nix/store/go/share/go" "" = Panic "index out of range" ∧
  compilerVersion (wVersion "go") sdk1 = Panic "index out of range" ∧
  compilerVersion (wVersion "go version") sdk1 = Panic "index out of range" ∧
  compilerVersion (wVersion "gccgo: unknown") sdk1
    = Err (ErrMsg "malformed output gccgo: unknown") ∧
  compilerVersion (wVersion "not a version") sdk1 = Ok "version" ∧
  compilerVersion (wVersion "go version go1.23.5 linux/amd64
") sdk1 = Ok "1.23.5".
Proof. repeat split; vm_compute; reflexivity. Qed.

(** * The import scan *)

Section scan_facts.
Variable w : World.
Variable pkgs : gmap string string.
Variable importMap : option (gmap string string).

Lemma scanImport_cases path st p :
  scanImport pkgs importMap path st p =
    if decide (p ∈ scan_found st) then Ok st
    else if FilterInternalPackages p
    then Ok {| scan_imports := scan_imports st;
               scan_rewrites := scan_rewrites st;
               scan_found := {[p]} ∪ scan_found st |}
    else match pkgs !! canonical importMap p with
         | Some storePath =>
             Ok {| scan_imports :=
                     scan_imports st ++
                     [{| StorePath := storePath;
                         ImportPath := canonical importMap p |}];
                   scan_rewrites :=
                     if String.eqb (rewritten importMap p) "" then scan_rewrites st
                     else scan_rewrites st ++
                          [{| StorePath := rewritten importMap p; ImportPath := p |}];
                   scan_found := {[p]} ∪ scan_found st |}
         | None => Err (ImportError (canonical importMap p) path)
         end.
Proof.
  unfold scanImport, canonical, rewritten.
  destruct (decide (p ∈ scan_found st)); [done |].
  destruct (FilterInternalPackages p); [done |].
  by destruct (String.eqb (Go.index (default ∅ importMap) p) "").
Qed.

Lemma scanImport_Ok path seq st p st' :
  scanInv pkgs importMap seq st →
  scanImport pkgs importMap path st p = Ok st' →
  ∃ seq', scanInv pkgs importMap seq' st' ∧ ∀ x, x ∈ seq' ↔ x ∈ seq ∨ x = p.
Proof.
  intros (Hnd & Hfound & Himp & Hrw & Hbound). rewrite scanImport_cases.
  destruct (decide (p ∈ scan_found st)) as [Hin | Hnin].
  { intros [= <-]. exists seq. split; [done |].
    intros x. split; [by left |]. intros [? | ->]; [done | by apply Hfound]. }
  assert (Hseq : p ∉ seq) by (by rewrite <- Hfound).
  assert (Hnd' : NoDup (seq ++ [p])).
  { apply NoDup_app. split; [done |]. split; [| apply NoDup_singleton].
    intros x Hx ->%list_elem_of_singleton. done. }
  assert (Hmem : ∀ x, x ∈ seq ++ [p] ↔ x ∈ seq ∨ x = p).
  { intros x. by rewrite elem_of_app, list_elem_of_singleton. }
  destruct (FilterInternalPackages p) eqn:Hf.
  - intros [= <-]. exists (seq ++ [p]). split; [| done].
    assert (¬ kept p) as Hk by (unfold kept; congruence).
    split; [done |]. simpl. split; [| split; [| split]].
    + intros x. rewrite elem_of_union, elem_of_singleton, Hfound, Hmem. tauto.
    + unfold resolvedOf. rewrite filter_app, filter_cons_False, filter_nil by done.
      by rewrite app_nil_r.
    + unfold aliasesOf. rewrite filter_app, filter_cons_False, filter_nil
        by (by intros [? _]).
      by rewrite app_nil_r.
    + intros x [Hx | ->]%Hmem Hkx; [by apply Hbound | done].
  - destruct (pkgs !! canonical importMap p) as [storePath |] eqn:Hp; [| done].
    intros [= <-]. exists (seq ++ [p]). split; [| done].
    assert (kept p) as Hk by done.
    split; [done |]. simpl. split; [| split; [| split]].
    + intros x. rewrite elem_of_union, elem_of_singleton, Hfound, Hmem. tauto.
    + unfold resolvedOf. rewrite filter_app, filter_cons_True, filter_nil by done.
      rewrite fmap_app, Himp. simpl. unfold Go.index at 2. by rewrite Hp.
    + unfold aliasesOf. rewrite filter_app, fmap_app, Hrw.
      destruct (String.eqb_spec (rewritten importMap p) "") as [Heq | Hne].
      * rewrite filter_cons_False, filter_nil by (by intros [_ ?]).
        by rewrite app_nil_r.
      * by rewrite filter_cons_True, filter_nil by done.
    + intros x [Hx | ->]%Hmem Hkx; [by apply Hbound | by eexists].
Qed.

Lemma scanImport_Err path st p :
  match scanImport pkgs importMap path st p with
  | Ok _ => True
  | Err e =>
      e = ImportError (canonical importMap p) path ∧ kept p ∧
      pkgs !! canonical importMap p = None
  | _ => False
  end.
Proof.
  rewrite scanImport_cases.
  destruct (decide (p ∈ scan_found st)); [done |].
  destruct (FilterInternalPackages p) eqn:Hf; [done |].
  by destruct (pkgs !! canonical importMap p).
Qed.

Lemma scanImport_progress path st p :
  (kept p → is_Some (pkgs !! canonical importMap p)) →
  ∃ st', scanImport pkgs importMap path st p = Ok st'.
Proof.
  intros H. rewrite scanImport_cases.
  destruct (decide (p ∈ scan_found st)); [eauto |].
  destruct (FilterInternalPackages p) eqn:Hf; [eauto |].
  destruct H as [s ->]; [done | eauto].
Qed.

(** The loop over the imports of one file. *)
Lemma foldM_scanImport_Ok path l seq st st' :
  scanInv pkgs importMap seq st →
  foldM (scanImport pkgs importMap path) l st = Ok st' →
  ∃ seq', scanInv pkgs importMap seq' st' ∧ ∀ x, x ∈ seq' ↔ x ∈ seq ∨ x ∈ l.
Proof.
  revert seq st. induction l as [| p l IH]; intros seq st Hinv H.
  - injection H as <-. exists seq. split; [done |].
    intros x. rewrite elem_of_nil. tauto.
  - rewrite foldM_cons in H.
    destruct (scanImport pkgs importMap path st p) as [st1 | | |] eqn:Hstep;
      try done.
    destruct (scanImport_Ok _ _ _ _ _ Hinv Hstep) as (seq1 & Hinv1 & Hmem1).
    destruct (IH _ _ Hinv1 H) as (seq' & Hinv' & Hmem').
    exists seq'. split; [done |].
    intros x. rewrite Hmem', Hmem1, elem_of_cons. tauto.
Qed.

Lemma foldM_scanImport_Err path l st :
  match foldM (scanImport pkgs importMap path) l st with
  | Ok _ => True
  | Err e =>
      ∃ p, p ∈ l ∧ e = ImportError (canonical importMap p) path ∧ kept p ∧
           pkgs !! canonical importMap p = None
  | _ => False
  end.
Proof.
  revert st. induction l as [| p l IH]; intros st; [done |].
  rewrite foldM_cons.
  pose proof (scanImport_Err path st p) as Hstep.
  destruct (scanImport pkgs importMap path st p) as [st1 | e | |]; try done.
  - simpl. specialize (IH st1).
    destruct (foldM _ l st1) as [? | e | |]; try done.
    destruct IH as (q & Hq & ?). exists q. by split; [right |].
  - simpl. exists p. by split; [left |].
Qed.

Lemma foldM_scanImport_progress path l st :
  (∀ p, p ∈ l → kept p → is_Some (pkgs !! canonical importMap p)) →
  ∃ st', foldM (scanImport pkgs importMap path) l st = Ok st'.
Proof.
  revert st. induction l as [| p l IH]; intros st H; [by eexists |].
  rewrite foldM_cons.
  destruct (scanImport_progress path st p) as [st1 ->].
  { apply H. by left. }
  simpl. apply IH. intros q Hq. apply H. by right.
Qed.

Lemma scanFile_eq st path :
  scanFile w pkgs importMap st path =
    match parseImports w path with
    | Some l => foldM (scanImport pkgs importMap path) l st
    | None => Err (ErrMsg ("parse input at " +:+ path))
    end.
Proof. unfold scanFile, listFileImports. by destruct (parseImports w path). Qed.

(** The loop over the files. *)
Lemma foldM_scanFile_Ok srcs seq st st' :
  scanInv pkgs importMap seq st →
  foldM (scanFile w pkgs importMap) srcs st = Ok st' →
  (∀ path, path ∈ srcs → is_Some (parseImports w path)) ∧
  ∃ seq', scanInv pkgs importMap seq' st' ∧ ∀ x, x ∈ seq' ↔ x ∈ seq ∨ sourceImport w srcs x.
Proof.
  revert seq st. induction srcs as [| path srcs IH]; intros seq st Hinv H.
  - injection H as <-. split; [by intros ? ?%elem_of_nil |].
    exists seq. split; [done |]. intros x. split; [by left |].
    intros [? | (? & ? & ?%elem_of_nil & _)]; done.
  - rewrite foldM_cons, scanFile_eq in H.
    destruct (parseImports w path) as [l |] eqn:Hparse; [| done].
    destruct (foldM (scanImport pkgs importMap path) l st) as [st1 | | |] eqn:Hfile;
      try done.
    destruct (foldM_scanImport_Ok _ _ _ _ _ Hinv Hfile) as (seq1 & Hinv1 & Hmem1).
    destruct (IH _ _ Hinv1 H) as (Hall & seq' & Hinv' & Hmem').
    split.
    { intros path' [-> | ?]%elem_of_cons; [by eexists | by apply Hall]. }
    exists seq'. split; [done |]. intros x. rewrite Hmem', Hmem1. split.
    + intros [[? | Hx] | (path' & l' & ? & ? & ?)]; [by left | |].
      * right. exists path, l. by split; [left |].
      * right. exists path', l'. by split; [right |].
    + intros [? | (path' & l' & [-> | ?]%elem_of_cons & Hp & ?)]; [by left; left | |].
      * left. right. congruence.
      * right. by exists path', l'.
Qed.

Lemma foldM_scanFile_Err srcs st :
  match foldM (scanFile w pkgs importMap) srcs st with
  | Ok _ => True
  | Err e =>
      (∃ path, path ∈ srcs ∧ parseImports w path = None ∧
               e = ErrMsg ("parse input at " +:+ path)) ∨
      (∃ path l p, path ∈ srcs ∧ parseImports w path = Some l ∧ p ∈ l ∧
                   kept p ∧ pkgs !! canonical importMap p = None ∧
                   e = ImportError (canonical importMap p) path)
  | _ => False
  end.
Proof.
  revert st. induction srcs as [| path srcs IH]; intros st; [done |].
  rewrite foldM_cons, scanFile_eq.
  destruct (parseImports w path) as [l |] eqn:Hparse.
  - pose proof (foldM_scanImport_Err path l st) as Hfile.
    destruct (foldM (scanImport pkgs importMap path) l st) as [st1 | e | |];
      try done.
    + simpl. specialize (IH st1).
      destruct (foldM _ srcs st1) as [? | e | |]; try done.
      destruct IH as [(path' & ? & ?) | (path' & l' & p & ? & ?)].
      * left. exists path'. by split; [right |].
      * right. exists path', l', p. by split; [right |].
    + simpl. destruct Hfile as (p & ? & -> & ? & ?).
      right. exists path, l, p. by split; [left |].
  - simpl. left. exists path. by split; [left |].
Qed.

Lemma foldM_scanFile_progress srcs st :
  (∀ path, path ∈ srcs → is_Some (parseImports w path)) →
  (∀ p, sourceImport w srcs p → kept p → is_Some (pkgs !! canonical importMap p)) →
  ∃ st', foldM (scanFile w pkgs importMap) srcs st = Ok st'.
Proof.
  revert st. induction srcs as [| path srcs IH]; intros st Hparse Hbound;
    [by eexists |].
  rewrite foldM_cons, scanFile_eq.
  destruct (Hparse path) as [l Hl]; [by left |]. rewrite Hl.
  destruct (foldM_scanImport_progress path l st) as [st1 ->].
  { intros p Hp. apply Hbound. exists path, l. by split; [left |]. }
  simpl. apply IH.
  - intros path' ?. apply Hparse. by right.
  - intros p (path' & l' & ? & ? & ?). apply Hbound. exists path', l'.
    by split; [right |].
Qed.

(** What a successful scan returns, in terms of the distinct source-level
    imports in the order of their first occurrence. *)
Lemma ScanImports_seq srcs l rewrites :
  ScanImports w srcs pkgs importMap = Ok (l, rewrites) →
  ∃ seq,
    NoDup seq ∧
    (∀ p, p ∈ seq ↔ sourceImport w srcs p) ∧
    (∀ p, p ∈ seq → kept p → is_Some (pkgs !! canonical importMap p)) ∧
    l = SortImports (resolvedOf pkgs importMap seq) ∧
    rewrites = SortImports (aliasesOf importMap seq).
Proof.
  unfold ScanImports.
  destruct (foldM _ srcs _) as [st | | |] eqn:Hfold; try done.
  simpl. intros [= <- <-].
  apply (foldM_scanFile_Ok srcs []) in Hfold as (_ & seq & Hinv & Hmem).
  - destruct Hinv as (Hnd & _ & -> & -> & Hbound).
    exists seq. repeat split; try done.
    + intros Hp. apply Hmem in Hp as [?%elem_of_nil | ?]; done.
    + intros Hp. apply Hmem. by right.
  - split; [constructor |]. split; [| split; [done | split; [done |]]].
    + intros p. simpl. split; [by intros ?%not_elem_of_empty | by intros ?%elem_of_nil].
    + by intros p ?%elem_of_nil.
Qed.

End scan_facts.

Lemma canonical_None p : canonical None p = p.
Proof.
  unfold canonical, rewritten, Go.index. simpl. by rewrite lookup_empty.
Qed.

(** X1: on success, the resolved imports are exactly the bindings, in the
    imports table, of the canonical paths of the source-level imports that
    are not internal ([runtime/cgo], [unsafe]); the rewrites are exactly the
    pairs of such an import and its entry in the import map. *)
Theorem ScanImports_members (w : World) (srcs : list string)
    (pkgs : gmap string string) (importMap : option (gmap string string))
    (l rewrites : list Import) :
  ScanImports w srcs pkgs importMap = Ok (l, rewrites) →
  (∀ d, d ∈ l ↔
        ∃ p, sourceImport w srcs p ∧ FilterInternalPackages p = false ∧
             ImportPath d = canonical importMap p ∧
             pkgs !! ImportPath d = Some (StorePath d)) ∧
  (∀ r, r ∈ rewrites ↔
        ∃ p, sourceImport w srcs p ∧ FilterInternalPackages p = false ∧
             rewritten importMap p ≠ "" ∧
             r = {| StorePath := rewritten importMap p; ImportPath := p |}).
Proof.
  intros (seq & Hnd & Hmem & Hbound & -> & ->)%ScanImports_seq. split.
  - intros d. rewrite SortImports_Permutation. unfold resolvedOf.
    rewrite list_elem_of_fmap. split.
    + intros (p & -> & [Hk Hp]%list_elem_of_filter). exists p. simpl.
      destruct (Hbound p Hp Hk) as [s Hs].
      split; [by apply Hmem |]. split; [done |]. split; [done |].
      unfold Go.index. by rewrite Hs.
    + intros (p & Hp & Hk & Hpath & Hs). exists p. split.
      * destruct d as [s q]. simpl in *. subst q. unfold Go.index. by rewrite Hs.
      * apply list_elem_of_filter. split; [done | by apply Hmem].
  - intros r. rewrite SortImports_Permutation. unfold aliasesOf.
    rewrite list_elem_of_fmap. split.
    + intros (p & -> & [[Hk Hr] Hp]%list_elem_of_filter). exists p.
      split; [by apply Hmem | done].
    + intros (p & Hp & Hk & Hr & ->). exists p. split; [done |].
      apply list_elem_of_filter. split; [done | by apply Hmem].
Qed.

Lemma ScanImports_members_witness :
  ∃ l rewrites,
    ScanImports wS1 (a_Srcs attrsS1) (a_Imports attrsS1) None = Ok (l, rewrites) ∧
    {| StorePath := "/nix/store/AAA"; ImportPath := "fmt" |} ∈ l ∧
    (∀ d, d ∈ l → ImportPath d ≠ "unsafe") ∧
    rewrites = [].
Proof.
  pose (r := ScanImports wS1 (a_Srcs attrsS1) (a_Imports attrsS1) None).
  assert (Hr : r = Ok (default ([], []) (match r with Ok x => Some x | _ => None end)))
    by (vm_compute; reflexivity).
  destruct (default ([], []) _) as [l rewrites] eqn:Hl.
  exists l, rewrites. split; [exact Hr |].
  destruct (ScanImports_members wS1 _ _ _ _ _ Hr) as [Himp Hrw].
  split; [| split].
  - apply Himp. exists "fmt". split; [| by repeat split].
    exists "/src/acme/foo/a.go", ["fmt"]. split; [by left |].
    split; [reflexivity | by left].
  - intros d (p & _ & Hk & Hd & _)%Himp. rewrite Hd, canonical_None.
    intros ->. discriminate Hk.
  - vm_compute in Hl. by injection Hl as <- <-.
Defined.

(** X2: on success, both lists are ascending by import path; the rewrites
    are strictly ascending by alias; and the resolved imports are strictly
    ascending whenever no two distinct source-level imports that are not
    internal share a canonical path, as is the case with a nil import
    map. *)
Theorem ScanImports_ascending (w : World) (srcs : list string)
    (pkgs : gmap string string) (importMap : option (gmap string string))
    (l rewrites : list Import) :
  ScanImports w srcs pkgs importMap = Ok (l, rewrites) →
  Sorted Go.str_le (ImportPath <$> l) ∧
  ascending (ImportPath <$> rewrites) ∧
  ((∀ p q, sourceImport w srcs p → sourceImport w srcs q →
           FilterInternalPackages p = false → FilterInternalPackages q = false →
           canonical importMap p = canonical importMap q → p = q) →
   ascending (ImportPath <$> l)) ∧
  (importMap = None → ascending (ImportPath <$> l)).
Proof.
  intros (seq & Hnd & Hmem & Hbound & -> & ->)%ScanImports_seq.
  assert (Hsorted : ∀ x, Sorted Go.str_le (ImportPath <$> SortImports x)).
  { intros x. apply (Sorted_fmap ImportPath import_le Go.str_le);
      [done | apply SortImports_Sorted]. }
  assert (Hinj : (∀ p q, sourceImport w srcs p → sourceImport w srcs q →
                         FilterInternalPackages p = false →
                         FilterInternalPackages q = false →
                         canonical importMap p = canonical importMap q → p = q) →
                 ascending (ImportPath <$> SortImports (resolvedOf pkgs importMap seq))).
  { intros Hinj. apply Sorted_NoDup_strict; [apply Hsorted |].
    rewrite SortImports_Permutation. unfold resolvedOf.
    rewrite <- list_fmap_compose. apply NoDup_fmap_2_strong.
    - intros p q [Hkp Hp]%list_elem_of_filter [Hkq Hq]%list_elem_of_filter Heq.
      apply Hinj; [by apply Hmem | by apply Hmem | done | done | done].
    - by apply NoDup_filter. }
  split; [apply Hsorted |]. split; [| split; [exact Hinj |]].
  - apply Sorted_NoDup_strict; [apply Hsorted |].
    rewrite SortImports_Permutation. unfold aliasesOf.
    rewrite <- list_fmap_compose. apply NoDup_fmap_2_strong.
    + by intros p q _ _ Heq.
    + by apply NoDup_filter.
  - intros ->. apply Hinj. intros p q _ _ _ _. by rewrite !canonical_None.
Qed.

Lemma ScanImports_ascending_witness :
  ∃ l rewrites,
    ScanImports wS1 (a_Srcs attrsS1) (a_Imports attrsS1) None = Ok (l, rewrites) ∧
    ascending (ImportPath <$> l) ∧ ascending (ImportPath <$> rewrites).
Proof.
  pose (r := ScanImports wS1 (a_Srcs attrsS1) (a_Imports attrsS1) None).
  assert (Hr : r = Ok (default ([], []) (match r with Ok x => Some x | _ => None end)))
    by (vm_compute; reflexivity).
  destruct (default ([], []) _) as [l rewrites].
  exists l, rewrites. split; [exact Hr |].
  destruct (ScanImports_ascending wS1 _ _ _ _ _ Hr) as (_ & Hrw & _ & Hnil).
  split; [by apply Hnil | exact Hrw].
Defined.

(** X3: the scan succeeds exactly when every source file parses and the
    canonical path of every source-level import that is not internal is
    bound in the imports table. *)
Theorem ScanImports_succeeds_iff (w : World) (srcs : list string)
    (pkgs : gmap string string) (importMap : option (gmap string string)) :
  (∃ r, ScanImports w srcs pkgs importMap = Ok r) ↔
  (∀ path, path ∈ srcs → is_Some (parseImports w path)) ∧
  (∀ p, sourceImport w srcs p → FilterInternalPackages p = false →
        is_Some (pkgs !! canonical importMap p)).
Proof.
  split.
  - intros [[l rewrites] H]. split.
    + unfold ScanImports in H.
      destruct (foldM _ srcs _) as [st | | |] eqn:Hfold; try done.
      apply (foldM_scanFile_Ok w pkgs importMap srcs []) in Hfold as [Hall _];
        [done |].
      split; [constructor |]. split; [| split; [done | split; [done |]]].
      * intros p. simpl.
        split; [by intros ?%not_elem_of_empty | by intros ?%elem_of_nil].
      * by intros p ?%elem_of_nil.
    + apply ScanImports_seq in H as (seq & _ & Hmem & Hbound & _).
      intros p Hp Hk. apply Hbound; [by apply Hmem | done].
  - intros [Hparse Hbound]. unfold ScanImports.
    destruct (foldM_scanFile_progress w pkgs importMap srcs
                {| scan_imports := []; scan_rewrites := []; scan_found := ∅ |}
                Hparse Hbound) as [st ->].
    simpl. eauto.
Qed.

(** X4: the scan never exits or panics; an error is either the failure to
    parse one of the sources or an [ImportError] that names the canonical
    path of a source-level import, not internal and not bound in the imports
    table, together with the file that imports it. *)
Theorem ScanImports_error (w : World) (srcs : list string)
    (pkgs : gmap string string) (importMap : option (gmap string string)) :
  (∀ msg, ScanImports w srcs pkgs importMap ≠ Fatal msg) ∧
  (∀ msg, ScanImports w srcs pkgs importMap ≠ Panic msg) ∧
  ∀ e, ScanImports w srcs pkgs importMap = Err e →
    (∃ path, path ∈ srcs ∧ parseImports w path = None) ∨
    (∃ path l p, path ∈ srcs ∧ parseImports w path = Some l ∧ p ∈ l ∧
                 FilterInternalPackages p = false ∧
                 pkgs !! canonical importMap p = None ∧
                 e = ImportError (canonical importMap p) path).
Proof.
  unfold ScanImports.
  pose proof (foldM_scanFile_Err w pkgs importMap srcs
                {| scan_imports := []; scan_rewrites := []; scan_found := ∅ |}) as H.
  destruct (foldM _ srcs _) as [st | e | |]; simpl; try done.
  split; [done |]. split; [done |]. intros e' [= <-].
  destruct H as [(path & ? & ? & _) | (path & l & p & ? & ? & ? & ? & ? & ?)].
  - left. by exists path.
  - right. by exists path, l, p.
Qed.

Lemma ScanImports_error_witness :
  ScanImports wS1 (a_Srcs attrsS1) {[ "fmt" := "/nix/store/AAA" ]} None
  = Err (ImportError "acme/bar" "/src/acme/foo/b.go") ∧
  ∃ path l p, path ∈ a_Srcs attrsS1 ∧ parseImports wS1 path = Some l ∧ p ∈ l ∧
    ({[ "fmt" := "/nix/store/AAA" ]} : gmap string string) !! canonical None p = None.
Proof.
  assert (H : ScanImports wS1 (a_Srcs attrsS1) {[ "fmt" := "/nix/store/AAA" ]} None
              = Err (ImportError "acme/bar" "/src/acme/foo/b.go"))
    by (vm_compute; reflexivity).
  split; [exact H |].
  destruct (ScanImports_error wS1 (a_Srcs attrsS1) {[ "fmt" := "/nix/store/AAA" ]} None)
    as (_ & _ & Herr).
  destruct (Herr _ H) as [(path & Hin & Hparse) | (path & l & p & ? & ? & ? & _ & ? & _)].
  - exfalso. apply elem_of_cons in Hin as [-> | Hin]; [discriminate Hparse |].
    apply elem_of_cons in Hin as [-> | Hin]; [discriminate Hparse |].
    by apply elem_of_nil in Hin.
  - by exists path, l, p.
Defined.

(** * The source classifier *)

Section sort_facts.
Variable w : World.

Lemma classify_eq g h s src :
  classify w (g, h, s) src =
    match MatchFile w (filepath_Dir w src) (Go.Base src) with
    | None => Err (ErrMsg ("match " +:+ src))
    | Some false => Ok (g, h, s)
    | Some true =>
        if String.eqb (Go.Ext src) ".go" then Ok (g ++ [src], h, s)
        else if String.eqb (Go.Ext src) ".h" then Ok (g, h ++ [src], s)
        else if String.eqb (Go.Ext src) ".s" then Ok (g, h, s ++ [src])
        else Fatal ("source " +:+ src +:+ " was neither a .go, .h, or .s file")
    end.
Proof. reflexivity. Qed.

Lemma filter_enabledWith_cons ext src srcs :
  filter (enabledWith w ext) (src :: srcs) =
    (if decide (enabledWith w ext src) then [src] else [])
    ++ filter (enabledWith w ext) srcs.
Proof. rewrite filter_cons. by destruct (decide _). Qed.

Lemma foldM_classify_Ok srcs g0 h0 s0 g h s :
  foldM (classify w) srcs (g0, h0, s0) = Ok (g, h, s) →
  g = g0 ++ filter (enabledWith w ".go") srcs ∧
  h = h0 ++ filter (enabledWith w ".h") srcs ∧
  s = s0 ++ filter (enabledWith w ".s") srcs ∧
  ∀ src, src ∈ srcs → classifiable w src.
Proof.
  revert g0 h0 s0. induction srcs as [| src srcs IH]; intros g0 h0 s0 H.
  - injection H as <- <- <-. rewrite !filter_nil, !app_nil_r.
    repeat split; try done. by intros ? ?%elem_of_nil.
  - rewrite foldM_cons, classify_eq in H.
    assert (Hrest : (∀ x, x ∈ srcs → classifiable w x) →
                    classifiable w src → ∀ x, x ∈ src :: srcs → classifiable w x).
    { intros Hall Hsrc x [-> | ?]%elem_of_cons; [done | by apply Hall]. }
    destruct (MatchFile w (filepath_Dir w src) (Go.Base src)) as [[|] |] eqn:Hm;
      [| | done].
    + destruct (String.eqb_spec (Go.Ext src) ".go") as [Hgo | Hgo].
      { apply IH in H as (-> & -> & -> & Hall).
        rewrite !filter_enabledWith_cons.
        rewrite decide_True by done.
        rewrite !decide_False by (intros [_ ?]; congruence).
        repeat split; try (by rewrite <- ?app_assoc).
        apply (Hrest Hall). right. by left. }
      destruct (String.eqb_spec (Go.Ext src) ".h") as [Hh | Hh].
      { apply IH in H as (-> & -> & -> & Hall).
        rewrite !filter_enabledWith_cons.
        rewrite (decide_True (P := enabledWith w ".h" src)) by done.
        rewrite !decide_False by (intros [_ ?]; congruence).
        repeat split; try (by rewrite <- ?app_assoc).
        apply (Hrest Hall). right. right. by left. }
      destruct (String.eqb_spec (Go.Ext src) ".s") as [Hs | Hs]; [| done].
      apply IH in H as (-> & -> & -> & Hall).
      rewrite !filter_enabledWith_cons.
      rewrite (decide_True (P := enabledWith w ".s" src)) by done.
      rewrite !decide_False by (intros [_ ?]; congruence).
      repeat split; try (by rewrite <- ?app_assoc).
      apply (Hrest Hall). right. right. by right.
    + apply IH in H as (-> & -> & -> & Hall).
      rewrite !filter_enabledWith_cons.
      rewrite !decide_False by (intros [? _]; congruence).
      repeat split; try done.
      apply (Hrest Hall). by left.
Qed.

Lemma foldM_classify_progress srcs acc :
  (∀ src, src ∈ srcs → classifiable w src) →
  ∃ r, foldM (classify w) srcs acc = Ok r.
Proof.
  revert acc. induction srcs as [| src srcs IH]; intros [[g h] s] H; [by eexists |].
  rewrite foldM_cons, classify_eq.
  assert (Hrest : ∀ x, x ∈ srcs → classifiable w x) by (intros x ?; apply H; by right).
  destruct (H src) as [Hm | [[Hm He] | [[Hm He] | [Hm He]]]]; [by left | ..];
    rewrite Hm; simpl; rewrite ?He; simpl; by apply IH.
Qed.

End sort_facts.

(** X5: on success, [sortSrcs] returns the enabled sources of each of the
    three extensions, every list sorted and with the multiplicities of the
    input; a source that is not enabled is in none of them, and every
    enabled source is in one. *)
Theorem sortSrcs_partition (w : World) (srcs g h s : list string) :
  sortSrcs w srcs = Ok (g, h, s) →
  Sorted Go.str_le g ∧ Sorted Go.str_le h ∧ Sorted Go.str_le s ∧
  g ≡ₚ filter (enabledWith w ".go") srcs ∧
  h ≡ₚ filter (enabledWith w ".h") srcs ∧
  s ≡ₚ filter (enabledWith w ".s") srcs ∧
  (∀ src, src ∈ srcs →
     MatchFile w (filepath_Dir w src) (Go.Base src) = Some false ∨
     src ∈ g ∨ src ∈ h ∨ src ∈ s).
Proof.
  unfold sortSrcs. intros H.
  destruct (foldM (classify w) srcs ([], [], [])) as [[[g0 h0] s0] | | |] eqn:Hfold;
    try done.
  simpl in H. injection H as <- <- <-.
  apply foldM_classify_Ok in Hfold as (-> & -> & -> & Hall). simpl.
  split; [apply Sort_Sorted |]. split; [apply Sort_Sorted |].
  split; [apply Sort_Sorted |].
  split; [apply Sort_Permutation |]. split; [apply Sort_Permutation |].
  split; [apply Sort_Permutation |].
  intros src Hsrc. rewrite !Sort_Permutation, !list_elem_of_filter.
  destruct (Hall src Hsrc) as [? | [? | [? | ?]]]; tauto.
Qed.

Lemma sortSrcs_partition_witness :
  ∃ g h s,
    sortSrcs wAsm (a_Srcs attrsAsm) = Ok (g, h, s) ∧
    g ≡ₚ ["/src/acme/asm/arch.go"] ∧
    h ≡ₚ ["/src/acme/asm/impl_linux_amd64.h"] ∧
    s ≡ₚ ["/src/acme/asm/impl_amd64.s"].
Proof.
  pose (r := sortSrcs wAsm (a_Srcs attrsAsm)).
  assert (Hr : r = Ok (default ([], [], []) (match r with Ok x => Some x | _ => None end)))
    by (vm_compute; reflexivity).
  destruct (default ([], [], []) _) as [[g h] s].
  exists g, h, s. split; [exact Hr |].
  destruct (sortSrcs_partition wAsm _ _ _ _ Hr) as (_ & _ & _ & Hg & Hh & Hs & _).
  split; [| split].
  - rewrite Hg. reflexivity.
  - rewrite Hh. reflexivity.
  - rewrite Hs. reflexivity.
Defined.

(** X6: [sortSrcs] succeeds exactly when the build-constraint oracle answers
    for every source and every enabled source has the extension [.go], [.h]
    or [.s]; it never panics. *)
Theorem sortSrcs_succeeds_iff (w : World) (srcs : list string) :
  ((∃ r, sortSrcs w srcs = Ok r) ↔ ∀ src, src ∈ srcs → classifiable w src) ∧
  ∀ msg, sortSrcs w srcs ≠ Panic msg.
Proof.
  split; [split |].
  - intros [[[g h] s] H]. unfold sortSrcs in H.
    destruct (foldM (classify w) srcs ([], [], [])) as [[[g0 h0] s0] | | |] eqn:Hfold;
      try done.
    by apply foldM_classify_Ok in Hfold as (_ & _ & _ & Hall).
  - intros H. unfold sortSrcs.
    destruct (foldM_classify_progress w srcs ([], [], []) H) as [[[g h] s] ->].
    simpl. eauto.
  - intros msg. unfold sortSrcs.
    assert (∀ acc, foldM (classify w) srcs acc ≠ Panic msg) as Hno.
    { induction srcs as [| src srcs IH]; intros [[g h] s]; [done |].
      rewrite foldM_cons, classify_eq.
      destruct (MatchFile w _ _) as [[|] |]; [| by apply IH | done].
      destruct (String.eqb _ ".go"); [by apply IH |].
      destruct (String.eqb _ ".h"); [by apply IH |].
      destruct (String.eqb _ ".s"); [by apply IH | done]. }
    specialize (Hno ([], [], [])).
    destruct (foldM (classify w) srcs ([], [], [])) as [[[g h] s] | | |]; done.
Qed.

(** * Assembly integration *)

Lemma append_length (s1 s2 : string) :
  String.length (s1 +:+ s2) = String.length s1 + String.length s2.
Proof. induction s1 as [| a s1 IH]; [done |]. rewrite append_cons. simpl. by rewrite IH. Qed.

Lemma dropBytes_append (s1 s2 : string) :
  Go.dropBytes (String.length s1) (s1 +:+ s2) = s2.
Proof. induction s1 as [| a s1 IH]; [by destruct s2 | done]. Qed.

Lemma takeBytes_append (s1 s2 : string) :
  Go.takeBytes (String.length s1) (s1 +:+ s2) = s1.
Proof.
  induction s1 as [| a s1 IH]; [by destruct s2 |].
  rewrite append_cons. simpl. by rewrite IH.
Qed.

Lemma HasSuffix_append (s p : string) : Go.HasSuffix (s +:+ p) p = true.
Proof.
  unfold Go.HasSuffix. rewrite append_length.
  rewrite bool_decide_eq_true_2 by lia.
  replace (String.length s + String.length p - String.length p)
    with (String.length s) by lia.
  rewrite dropBytes_append. simpl. apply String.eqb_refl.
Qed.

Lemma CutSuffix_append (s p : string) : (Go.CutSuffix (s +:+ p) p).1 = s.
Proof.
  unfold Go.CutSuffix. rewrite HasSuffix_append, append_length. simpl.
  replace (String.length s + String.length p - String.length p)
    with (String.length s) by lia.
  apply takeBytes_append.
Qed.

Lemma append_eq_empty (s1 s2 : string) : s1 +:+ s2 = "" → s2 = "".
Proof. destruct s1; [done | by rewrite append_cons]. Qed.

(** X7: the rules of [archHeaderAlias].  A header named after the platform
    is aliased to [_GOOS_GOARCH.h], although its name also ends in the
    suffix of the architecture; the suffixes of the system and of the
    architecture apply only when the earlier rules do not; and the alias is
    empty (no link is made) exactly when the name has none of the three
    suffixes. *)
Theorem archHeaderAlias_rules (w : World) :
  let platformSuffix := "_" +:+ HostPlatform w +:+ ".h" in
  let goosSuffix := "_" +:+ GOOS w +:+ ".h" in
  let goarchSuffix := "_" +:+ GOARCH w +:+ ".h" in
  (∀ stem, archHeaderAlias w (stem +:+ "_" +:+ GOOS w +:+ "_" +:+ GOARCH w +:+ ".h")
           = stem +:+ "_GOOS_GOARCH.h") ∧
  (∀ stem, Go.HasSuffix (stem +:+ goosSuffix) platformSuffix = false →
           archHeaderAlias w (stem +:+ goosSuffix) = stem +:+ "_GOOS.h") ∧
  (∀ stem, Go.HasSuffix (stem +:+ goarchSuffix) platformSuffix = false →
           Go.HasSuffix (stem +:+ goarchSuffix) goosSuffix = false →
           archHeaderAlias w (stem +:+ goarchSuffix) = stem +:+ "_GOARCH.h") ∧
  (∀ base, archHeaderAlias w base = "" ↔
           Go.HasSuffix base platformSuffix = false ∧
           Go.HasSuffix base goosSuffix = false ∧
           Go.HasSuffix base goarchSuffix = false).
Proof.
  simpl. split; [| split; [| split]].
  - intros stem. unfold archHeaderAlias, HostPlatform.
    replace (stem +:+ "_" +:+ GOOS w +:+ "_" +:+ GOARCH w +:+ ".h")
      with (stem +:+ ("_" +:+ (GOOS w +:+ "_" +:+ GOARCH w) +:+ ".h")).
    + by rewrite HasSuffix_append, CutSuffix_append.
    + do 2 f_equal. by rewrite append_assoc.
  - intros stem Hp. unfold archHeaderAlias. rewrite Hp.
    by rewrite HasSuffix_append, CutSuffix_append.
  - intros stem Hp Hs. unfold archHeaderAlias. rewrite Hp, Hs.
    by rewrite HasSuffix_append, CutSuffix_append.
  - intros base. unfold archHeaderAlias.
    destruct (Go.HasSuffix base _) eqn:H1.
    { split; [by intros ?%append_eq_empty | by intros [? _]]. }
    destruct (Go.HasSuffix base ("_" +:+ GOOS w +:+ ".h")) eqn:H2.
    { split; [by intros ?%append_eq_empty | by intros (_ & ? & _)]. }
    destruct (Go.HasSuffix base ("_" +:+ GOARCH w +:+ ".h")) eqn:H3.
    { split; [by intros ?%append_eq_empty | by intros (_ & _ & ?)]. }
    done.
Qed.

Lemma archHeaderAlias_rules_witness :
  archHeaderAlias wAsm "impl_linux.h" = "impl_GOOS.h" ∧
  archHeaderAlias wAsm "impl_amd64.h" = "impl_GOARCH.h".
Proof.
  destruct (archHeaderAlias_rules wAsm) as (_ & Hos & Harch & _).
  split.
  - apply (Hos "impl"). reflexivity.
  - apply (Harch "impl"); reflexivity.
Defined.



(** * Include directories *)

Lemma HasPrefix_append (p s : string) : Go.HasPrefix (p +:+ s) p = true.
Proof.
  induction p as [| a p IH]; [by destruct s |].
  rewrite append_cons. simpl. by rewrite Ascii.eqb_refl.
Qed.

Lemma elem_of_foldl_hDirs (w : World) (sdkInclude : string)
    (hSrcs : list string) (init : gset string) (x : string) :
  x ∈ foldl (λ (hDirs : gset string) src,
               if Go.HasPrefix (filepath_Dir w src) sdkInclude then hDirs
               else {[filepath_Dir w src]} ∪ hDirs) init hSrcs
  ↔ x ∈ init ∨
    ∃ src, src ∈ hSrcs ∧ filepath_Dir w src = x ∧
           Go.HasPrefix x sdkInclude = false.
Proof.
  revert init. induction hSrcs as [| src rest IH]; intros init; simpl.
  - split; [by left |]. by intros [? | (? & ?%elem_of_nil & _)].
  - rewrite IH. destruct (Go.HasPrefix (filepath_Dir w src) sdkInclude) eqn:Hp.
    + split.
      * intros [? | (src' & ? & ? & ?)]; [by left |].
        right. exists src'. split; [by apply elem_of_cons; right | done].
      * intros [? | (src' & [-> | ?]%elem_of_cons & Hd & Hx)]; [by left | |].
        -- congruence.
        -- right. by exists src'.
    + rewrite elem_of_union, elem_of_singleton. split.
      * intros [[-> | ?] | (src' & ? & ? & ?)].
        -- right. exists src. split; [by apply elem_of_cons; left | done].
        -- by left.
        -- right. exists src'. split; [by apply elem_of_cons; right | done].
      * intros [? | (src' & [-> | ?]%elem_of_cons & Hd & Hx)].
        -- left. by right.
        -- left. by left.
        -- right. by exists src'.
Qed.

(** X9: [findIncludes] needs the build directory and nothing else: it
    asks [BuildDir] for it, which creates the directory if no earlier call
    has, and ends the program if that fails.  With it, the state is left as
    it is and the result is strictly ascending (sorted, no directory twice)
    and holds exactly the build directory, the include directory of the SDK,
    and the directory of every header that does not start with the SDK's
    include directory as a string.  The test is on characters: a directory
    that only shares the prefix is left out like one inside the SDK. *)
Theorem findIncludes_spec {S} (w : World) (sdkInclude : string)
    (hSrcs : list string) (s : S) (t : list event) :
  match MkdirTemp w with
  | None =>
      findIncludes w sdkInclude hSrcs s t
      = (s, t, Fatal "failed to initialize build directory")
  | Some dir =>
      ∃ l, findIncludes w sdkInclude hSrcs s t
           = (s, t ++ createdBy dir t, Ok l) ∧
        ascending l ∧
        (∀ x, x ∈ l ↔
              x = dir ∨ x = sdkInclude ∨
              ∃ src, src ∈ hSrcs ∧ filepath_Dir w src = x ∧
                     Go.HasPrefix x sdkInclude = false) ∧
        (∀ rest, rest ≠ "" → sdkInclude +:+ rest ≠ dir →
                 sdkInclude +:+ rest ∉ l)
  end.
Proof.
  unfold findIncludes, mbind, M_bind.
  destruct (MkdirTemp w) as [dir |] eqn:Hdir.
  2: { unfold BuildDir. by rewrite Hdir. }
  rewrite (BuildDir_eq w dir s t Hdir).
  eexists. split; [reflexivity |]. split; [apply SortedKeys_ascending |].
  assert (Hmem : ∀ x, x ∈ Go.SortedKeys
            (foldl (λ (hDirs : gset string) src,
                      if Go.HasPrefix (filepath_Dir w src) sdkInclude then hDirs
                      else {[filepath_Dir w src]} ∪ hDirs)
                   ({[dir]} ∪ {[sdkInclude]}) hSrcs) ↔
            x = dir ∨ x = sdkInclude ∨
            ∃ src, src ∈ hSrcs ∧ filepath_Dir w src = x ∧
                   Go.HasPrefix x sdkInclude = false).
  { intros x. rewrite elem_of_SortedKeys, elem_of_foldl_hDirs.
    rewrite elem_of_union, !elem_of_singleton. tauto. }
  split; [exact Hmem |].
  intros rest Hrest Hne [? | [Heq | (src' & _ & _ & Hp)]]%Hmem.
  - done.
  - apply Hrest. apply (f_equal String.length) in Heq.
    rewrite append_length in Heq. destruct rest; [done | simpl in Heq; lia].
  - by rewrite HasPrefix_append in Hp.
Qed.

Lemma findIncludes_spec_witness :
  ∃ l, findIncludes wAsm "/sdk/pkg/include"
         ["/sdk/pkg/include-extra/a.h"; "/src/acme/asm/defs.h"] () []
       = ((), [TempDir "/build/builder1"], Ok l) ∧
       ("/sdk/pkg/include-extra" ∉ l) ∧ "/src/acme/asm" ∈ l.
Proof.
  pose proof (findIncludes_spec wAsm "/sdk/pkg/include"
                ["/sdk/pkg/include-extra/a.h"; "/src/acme/asm/defs.h"] () []) as H.
  simpl in H. destruct H as (l & Hl & _ & Hmem & Hout).
  exists l. split; [exact Hl |]. split.
  - apply (Hout "-extra"); discriminate.
  - apply Hmem. right. right. exists "/src/acme/asm/defs.h".
    split; [| split; reflexivity].
    apply elem_of_cons. right. apply elem_of_cons. by left.
Defined.

(** * The SDK handle *)

Lemma LastIndexDot_None (s : string) :
  Go.LastIndexDot s = None ↔ Go.hasByte "."%char s = false.
Proof.
  induction s as [| a s IH]; simpl; [done |].
  destruct (Go.LastIndexDot s).
  - split; [done |]. intros [_ H]%orb_false_iff. by apply IH in H.
  - destruct (Ascii.eqb a "."); simpl; [done |]. by rewrite <- IH.
Qed.

Lemma LastIndexDot_append (a b : string) :
  Go.hasByte "."%char b = false →
  Go.LastIndexDot (a +:+ "." +:+ b) = Some (String.length a).
Proof.
  intros Hb. apply LastIndexDot_None in Hb.
  induction a as [| c a IH].
  - change ("" +:+ "." +:+ b) with (String "."%char b). simpl. by rewrite Hb.
  - rewrite append_cons. simpl. by rewrite IH.
Qed.

(** X10: [ShortVersion] cuts the version at its last dot: a version
    [a.b] in which [b] has no dot gives [a], whatever the number of
    components of [a], and a version without a dot is returned whole. *)
Theorem ShortVersion_last_dot (sdk : GoSDK) :
  (Go.hasByte "."%char (Version sdk) = false →
   ShortVersion sdk = Version sdk) ∧
  (∀ a b, Version sdk = a +:+ "." +:+ b → Go.hasByte "."%char b = false →
          ShortVersion sdk = a).
Proof.
  unfold ShortVersion. split.
  - intros H. apply LastIndexDot_None in H. by rewrite H.
  - intros a b -> Hb. rewrite LastIndexDot_append by done.
    apply takeBytes_append.
Qed.

Lemma ShortVersion_last_dot_witness :
  ShortVersion sdk1 = "1.23" ∧
  ShortVersion {| Path := "/go"; Version := "1.23"; CompatVersion := "" |} = "1".
Proof.
  split.
  - apply (proj2 (ShortVersion_last_dot sdk1) "1.23" "5"); reflexivity.
  - apply (proj2 (ShortVersion_last_dot _) "1" "23"); reflexivity.
Defined.

(** X11: [LoadSDK] on an output of [go version] with three fields or more:
    it succeeds, keeps the path, takes the version from the third field
    without its prefix [go], and keeps a compatibility version that was
    asked for; an empty one is replaced by [go] and the version up to its
    last dot.  The first two fields are not looked at. *)
Theorem LoadSDK_fields (w : World) (path compat info : string)
    (f0 f1 full : string) (rest : list string) :
  goVersion w = Some info →
  Go.Fields info = f0 :: f1 :: full :: rest →
  ∃ sdk, LoadSDK w path compat = Ok sdk ∧
    Path sdk = path ∧
    Version sdk = (Go.CutPrefix full "go").1 ∧
    CompatVersion sdk
    = if String.eqb compat "" then "go" +:+ ShortVersion sdk else compat.
Proof.
  intros Hv Hf. unfold LoadSDK.
  rewrite (compilerVersion_fields w _ info Hv), Hf. simpl.
  destruct (String.eqb compat ""); by eexists.
Qed.

Lemma LoadSDK_fields_witness :
  LoadSDK (wVersion "go version go1.23.5 linux/amd64") "/nix/store/go/share/go" ""
  = Ok sdk1.
Proof.
  destruct (LoadSDK_fields (wVersion "go version go1.23.5 linux/amd64")
              "/nix/store/go/share/go" "" "go version go1.23.5 linux/amd64"
              "go" "version" "go1.23.5" ["linux/amd64"]
              eq_refl eq_refl) as (sdk & -> & Hp & Hver & Hc).
  destruct sdk as [p v c]. simpl in *. subst p v.
  rewrite Hc. reflexivity.
Defined.

(** * Meta-package resolution: failure and frame *)

Lemma index_nonempty (m : gmap string string) (k : string) :
  Go.index m k ≠ "" ↔ ∃ v, m !! k = Some v ∧ v ≠ "".
Proof.
  unfold Go.index. destruct (m !! k) as [v |]; simpl.
  - split; [by exists v | by intros (? & [= ->] & ?)].
  - split; [done | by intros (? & ? & _)].
Qed.

(** The outcomes of [ResolveMetaPackages], by the entry of [std] and the
    file of the meta package. *)
Lemma ResolveMetaPackages_cases (w : World)
    (pkgs : gmap string string) (importMap : option (gmap string string)) :
  (Go.index pkgs "std" = "" ∧
   ResolveMetaPackages w pkgs importMap = (pkgs, importMap, Ok ())) ∨
  ∃ storePath, pkgs !! "std" = Some storePath ∧ storePath ≠ "" ∧
    ResolveMetaPackages w pkgs importMap =
      match readMetaPackage w (filepath_Join w [storePath; "std.json"]) with
      | NoFile =>
          (delete "std" pkgs, importMap,
           Err (ErrWrap "failed to read meta package" (ErrMsg "open")))
      | BadJSON =>
          (delete "std" pkgs, importMap,
           Err (ErrWrap "failed to read std" (ErrMsg "json")))
      | Decoded (subs, metaMap) =>
          (foldl addSubPackage (delete "std" pkgs) subs,
           (λ m, Go.maps_Copy m metaMap) <$> importMap, Ok ())
      end.
Proof.
  destruct (decide (Go.index pkgs "std" = "")) as [He | Hne].
  - left. split; [done |]. by apply ResolveMetaPackages_none.
  - right. apply index_nonempty in Hne as (storePath & Hstd & Hne).
    exists storePath. split; [done |]. split; [done |].
    destruct (readMetaPackage w (filepath_Join w [storePath; "std.json"]))
      as [| | [subs metaMap]] eqn:Hread.
    + unfold ResolveMetaPackages, MetaPackages, resolveLoop, Go.index.
      rewrite Hstd. simpl.
      destruct (String.eqb_spec storePath "") as [-> | _]; [done |].
      change (Go.Base "std" +:+ ".json") with "std.json". by rewrite Hread.
    + unfold ResolveMetaPackages, MetaPackages, resolveLoop, Go.index.
      rewrite Hstd. simpl.
      destruct (String.eqb_spec storePath "") as [-> | _]; [done |].
      change (Go.Base "std" +:+ ".json") with "std.json". by rewrite Hread.
    + by apply (ResolveMetaPackages_std w pkgs importMap storePath subs metaMap).
Qed.

(** X12: a failed expansion is not undone.  When the file of the meta
    package cannot be opened or decoded, [ResolveMetaPackages] returns the
    error after it has deleted the entry of [std] from the caller's table;
    the rest of the table and the import map are as before. *)
Theorem ResolveMetaPackages_failure (w : World)
    (pkgs : gmap string string) (importMap : option (gmap string string))
    (storePath : string) :
  pkgs !! "std" = Some storePath →
  storePath ≠ "" →
  (∀ d, readMetaPackage w (filepath_Join w [storePath; "std.json"]) ≠ Decoded d) →
  ∃ e, ResolveMetaPackages w pkgs importMap = (delete "std" pkgs, importMap, Err e) ∧
       (e = ErrWrap "failed to read meta package" (ErrMsg "open") ∨
        e = ErrWrap "failed to read std" (ErrMsg "json")).
Proof.
  intros Hstd Hne Hread.
  destruct (ResolveMetaPackages_cases w pkgs importMap)
    as [[He _] | (sp & Hstd' & _ & ->)].
  { unfold Go.index in He. rewrite Hstd in He. done. }
  assert (sp = storePath) as -> by congruence.
  destruct (readMetaPackage w (filepath_Join w [storePath; "std.json"])) as [| | d].
  - eexists. split; [done |]. by left.
  - eexists. split; [done |]. by right.
  - by destruct (Hread d).
Qed.

Lemma ResolveMetaPackages_failure_witness :
  ∃ e, ResolveMetaPackages wP5
         {[ "std" := "/nix/store/gone"; "fmt" := "/nix/store/F" ]} None
       = (delete "std" {[ "std" := "/nix/store/gone"; "fmt" := "/nix/store/F" ]},
          None, Err e) ∧
       (e = ErrWrap "failed to read meta package" (ErrMsg "open") ∨
        e = ErrWrap "failed to read std" (ErrMsg "json")).
Proof.
  apply (ResolveMetaPackages_failure wP5 _ None "/nix/store/gone");
    [reflexivity | discriminate | by intros d].
Defined.

(** X13: whatever the outcome of [ResolveMetaPackages], every binding of
    the caller's table for a path other than [std] is still there with its
    store path; a nil import map stays nil and one that is not nil keeps
    its keys; and the call returns normally (a result or an error, no
    abort). *)
Theorem ResolveMetaPackages_frame (w : World)
    (pkgs pkgs' : gmap string string) (importMap im' : option (gmap string string))
    (r : result ()) :
  ResolveMetaPackages w pkgs importMap = (pkgs', im', r) →
  (∀ p v, p ≠ "std" → pkgs !! p = Some v → pkgs' !! p = Some v) ∧
  (im' = None ↔ importMap = None) ∧
  (∀ m m' k, importMap = Some m → im' = Some m' →
             is_Some (m !! k) → is_Some (m' !! k)) ∧
  (r = Ok () ∨ ∃ e, r = Err e).
Proof.
  intros H.
  destruct (ResolveMetaPackages_cases w pkgs importMap)
    as [[_ Heq] | (storePath & Hstd & Hne & Heq)]; rewrite Heq in H; clear Heq.
  { injection H as <- <- <-. split; [done |]. split; [done |].
    split; [| by left]. by intros m m' k -> [= ->]. }
  assert (Hdel : ∀ p v, p ≠ "std" → pkgs !! p = Some v →
                        delete "std" pkgs !! p = Some v).
  { intros p v Hp Hv. by rewrite lookup_delete_ne. }
  destruct (readMetaPackage w (filepath_Join w [storePath; "std.json"]))
    as [| | [subs metaMap]]; injection H as <- <- <-.
  - split; [done |]. split; [done |]. split; [| right; by eexists].
    by intros m m' k -> [= ->].
  - split; [done |]. split; [done |]. split; [| right; by eexists].
    by intros m m' k -> [= ->].
  - split; [| split; [| split; [| by left]]].
    + intros p v Hp Hv. rewrite foldl_addSubPackage.
      by rewrite (Hdel p v Hp Hv).
    + by destruct importMap.
    + intros m m' k -> [= <-] [v Hv]. rewrite maps_Copy_lookup, Hv.
      by destruct (metaMap !! k).
Qed.

Lemma ResolveMetaPackages_frame_witness :
  (ResolveMetaPackages wP5 importsP5 None).1.1 !! "fmt" = Some "/nix/store/F".
Proof.
  destruct (ResolveMetaPackages_frame wP5 importsP5
              (ResolveMetaPackages wP5 importsP5 None).1.1 None
              (ResolveMetaPackages wP5 importsP5 None).1.2
              (ResolveMetaPackages wP5 importsP5 None).2)
    as (Hkeep & _).
  - by rewrite <- !surjective_pairing.
  - apply Hkeep; [discriminate | reflexivity].
Defined.

(** * The linker's importcfg *)

Lemma foldM_linkEntry (main : Package) (deps : gmap string string)
    (l : list string) (acc : list Import) :
  foldM (linkEntry main deps) l acc =
    match list_find (unbound deps) l with
    | None => Ok (acc ++ (depEntry deps <$> l))
    | Some (_, p) => Err (ImportError p (pkgImportPath main))
    end.
Proof.
  revert acc. induction l as [| p l IH]; intros acc.
  - simpl. by rewrite app_nil_r.
  - rewrite foldM_cons. cbn [list_find].
    assert (Hstep : linkEntry main deps acc p
                    = if negb (String.eqb (Go.index deps p) "")
                      then Ok (acc ++ [depEntry deps p])
                      else Err (ImportError p (pkgImportPath main))) by done.
    rewrite Hstep. clear Hstep.
    destruct (String.eqb_spec (Go.index deps p) "") as [Heq | Hne]; simpl.
    + by rewrite decide_True.
    + rewrite decide_False by done. rewrite IH.
      destruct (list_find (unbound deps) l) as [[i q] |]; simpl; [done |].
      by rewrite <- app_assoc.
Qed.

(** X14: the entries of the linker's importcfg.  If the table binds every
    dependency of the main package to a store path, the entries are those of
    the dependencies and the sentinel [command-line-arguments] at the main
    path, rearranged in the order of their import paths.  Otherwise the
    result is the import error of the first dependency, in the order of the
    sidecar, that has no store path, with the main package as its parent. *)
Theorem linkImports_spec (main : Package) (mainPath : string)
    (deps : gmap string string) :
  match list_find (unbound deps) (Deps main) with
  | None =>
      ∃ l, linkImports main mainPath deps = Ok l ∧
           Sorted import_le l ∧
           l ≡ₚ (depEntry deps <$> Deps main)
                ++ [{| StorePath := mainPath;
                       ImportPath := "command-line-arguments" |}]
  | Some (_, p) =>
      linkImports main mainPath deps
      = Err (ImportError p (pkgImportPath main))
  end.
Proof.
  unfold linkImports. rewrite foldM_linkEntry.
  destruct (list_find (unbound deps) (Deps main)) as [[i p] |]; [done |].
  simpl. eexists. split; [done |].
  split; [apply SortImports_Sorted | apply SortImports_Permutation].
Qed.

Section link_outcomes.
Variable w : World.


End link_outcomes.




(** * The effects of [CompilePackage] *)

Section trace_facts.
Variable w : World.

Lemma buildDirSet_snoc t t' : buildDirSet t = true → buildDirSet (t ++ t') = true.
Proof. intros H. by rewrite buildDirSet_app, H. Qed.

Lemma BuildDir_set {S} d (s s' : S) t t' :
  buildDirSet t = true →
  BuildDir w s t = (s', t', Ok d) → MkdirTemp w = Some d ∧ s' = s ∧ t' = t.
Proof.
  intros Hset (Hd & -> & ->)%BuildDir_Ok. unfold createdBy. rewrite Hset.
  by rewrite app_nil_r.
Qed.

Lemma findIncludes_set {S} sdkInclude hSrcs (s s' : S) t t' l :
  buildDirSet t = true →
  findIncludes w sdkInclude hSrcs s t = (s', t', Ok l) → s' = s ∧ t' = t.
Proof.
  intros Hset (-> & dir & _ & ->)%findIncludes_Ok. unfold createdBy.
  rewrite Hset. by rewrite app_nil_r.
Qed.

Lemma AssembleSources_run srcs out extraArgs c t c' t' o :
  AssembleSources w srcs out extraArgs c t = (c', t', Ok o) →
  c' = c ∧ o = out ∧ t' = t ++ [Run (asmCommand w c srcs out extraArgs)].
Proof.
  unfold AssembleSources. intros H.
  apply bind_Ok in H as (? & s1 & t1 & (-> & -> & ->)%get_Ok & H).
  apply bind_Ok in H as (? & s2 & t2 & (_ & -> & ->)%run_Ok & H).
  by apply mret_Ok in H as (-> & -> & ->).
Qed.

Lemma symlinkArchHeaders_events {S} dir hFiles (s s' : S) t t' :
  MkdirTemp w = Some dir →
  buildDirSet t = true →
  symlinkArchHeaders w hFiles s t = (s', t', Ok ()) →
  s' = s ∧ t' = t ++ symlinkEvents w dir hFiles.
Proof.
  intros Hdir. unfold symlinkEvents.
  revert s t. induction hFiles as [| path rest IH]; intros s t Hset H.
  { apply mret_Ok in H as (_ & -> & ->). by rewrite app_nil_r. }
  simpl in H.
  apply bind_Ok in H as ([] & s1 & t1 & H1 & H).
  rewrite filter_cons.
  destruct (String.eqb_spec (archHeaderAlias w (Go.Base path)) "") as [Heq | Hne].
  - apply mret_Ok in H1 as (_ & -> & ->).
    rewrite decide_False by (unfold hasAlias; tauto).
    by apply IH.
  - apply bind_Ok in H1 as (d & s2 & t2 & (Hd & -> & ->)%(BuildDir_set _ _ _ _ _ Hset) & H1).
    apply create_Ok in H1 as (_ & -> & ->).
    assert (d = dir) as -> by congruence.
    rewrite decide_True by done.
    destruct (IH _ _ (buildDirSet_snoc _ _ Hset) H) as [-> ->]. split; [done |].
    by rewrite <- app_assoc.
Qed.

Lemma assembleEach_events dir srcs sObjs c t c' t' r :
  MkdirTemp w = Some dir →
  buildDirSet t = true →
  assembleEach w srcs sObjs c t = (c', t', Ok r) →
  c' = c ∧ r = sObjs ++ (asmObject w dir <$> srcs) ∧
  t' = t ++ ((λ src, Run (asmCommand w c [src] (asmObject w dir src) [])) <$> srcs).
Proof.
  intros Hdir.
  revert sObjs t. induction srcs as [| src rest IH]; intros sObjs t Hset H;
    simpl in H.
  - apply mret_Ok in H as (-> & -> & ->). by rewrite !app_nil_r.
  - apply bind_Ok in H as (d & s1 & t1 & (Hd & -> & ->)%(BuildDir_set _ _ _ _ _ Hset) & H).
    assert (d = dir) as -> by congruence.
    apply bind_Ok in H as (o & s2 & t2 & (-> & -> & ->)%AssembleSources_run & H).
    apply IH in H as (-> & -> & ->); [| by apply buildDirSet_snoc].
    split; [done |]. simpl. by rewrite <- !app_assoc.
Qed.

(** The effects of [compileCommand] after the importcfg, on a trace [t0]
    that has the build directory. *)
Lemma compileCommand_trace obj exportData extraArgs c t c' t' cmd :
  compileCommand w obj exportData extraArgs c t = (c', t', Ok cmd) →
  ∃ l rewrites dir,
    MkdirTemp w = Some dir ∧
    ScanImports w (goSrcs c') (c_Imports c') (c_ImportMap c') = Ok (l, rewrites) ∧
    imports c' = Some l ∧
    importCfg c' = filepath_Join w [dir; "importcfg"] ∧
    buildDirSet t' = true ∧
    t' = (t ++ createdBy dir t
            ++ [WriteFile (filepath_Join w [dir; "importcfg"])
                  (map importmapLine rewrites ++ map (packagefileLine ".x") l)])
           ++ asmBefore w dir c' ++ embedEvents w dir c'.
Proof.
  unfold compileCommand. intros H.
  apply bind_Ok in H as ([] & c1 & t1 & H1 & H).
  destruct (sortSrcs w (Srcs c)) as [[[g h] s]| | |] eqn:Hsort; try done.
  injection H1 as <- <-.
  apply bind_Ok in H as ([] & c2 & t2 & H2 & H).
  destruct (compileImportCfg _ _ _ _) as [[[deps importMap] t3] r] eqn:Hcfg.
  simpl in Hcfg.
  destruct r as [[cfg l]| | |]; try done.
  injection H2 as <- <-.
  destruct (compileImportCfg_Ok _ _ _ _ _ _ _ _ _ _ Hcfg)
    as (rewrites & dir & _ & Hscan & Hdir & -> & HT).
  exists l, rewrites, dir. split; [done |].
  assert (Hset : buildDirSet t3 = true).
  { rewrite HT, app_assoc. apply buildDirSet_snoc, buildDirSet_createdBy. }
  rewrite <- HT. clear HT Hcfg.
  apply bind_Ok in H as (c0 & s1 & t1 & (-> & -> & ->)%get_Ok & H).
  apply bind_Ok in H as (? & s2 & t2 & (-> & ->)%modify_Ok & H).
  apply bind_Ok in H as (? & s3 & t4 & Htrim & H).
  apply bind_Ok in H as (c4 & s5 & t5 & (-> & -> & ->)%get_Ok & H).
  apply bind_Ok in H as (cmd1 & s6 & t6 & Hmode & H).
  apply bind_Ok in H as (cmd2 & s7 & t7 & Hembed & H).
  apply bind_Ok in H as (cores & s8 & t8 & (Hcores & -> & ->)%liftR_Ok & H).
  apply mret_Ok in H as (-> & -> & ->).
  simpl in Htrim.
  assert (Hemb : ∀ (ocfg : option EmbedCfg) (c5 : Compilation) t5 c6 t6 cmd1 cmd2,
            buildDirSet t5 = true →
            (match ocfg return M Compilation Cmd with
             | Some cfg =>
                 embedCfg ← wrapM "failed to generate compiler embedcfg"
                              (compileEmbedCfg w cfg);
                 mret (addArgs cmd1 ["-embedcfg"; embedCfg])
             | None => mret cmd1
             end) c5 t5 = (c6, t6, Ok cmd2) →
            c6 = c5 ∧
            t6 = t5 ++ match ocfg with
                       | Some cfg =>
                           [WriteEmbedCfg (filepath_Join w [dir; "embedcfg"]) cfg]
                       | None => []
                       end).
  { intros ocfg c5 t5 c6 t6' cmd1' cmd2' Hset5 He.
    destruct ocfg as [ecfg |].
    - apply bind_Ok in He as (p & s11 & t11 & He1%wrapM_Ok & He).
      apply mret_Ok in He as (_ & -> & ->).
      unfold compileEmbedCfg in He1.
      apply bind_Ok in He1
        as (d & s1 & t1 & (Hd & -> & ->)%(BuildDir_set _ _ _ _ _ Hset5) & He1).
      assert (d = dir) as -> by congruence.
      apply bind_Ok in He1 as (? & s2 & t2 & (_ & -> & ->)%create_Ok & He1).
      by apply mret_Ok in He1 as (_ & -> & ->).
    - apply mret_Ok in He as (_ & -> & ->). by rewrite app_nil_r. }
  unfold asmBefore.
  destruct (bool_decide (0 < length s)) eqn:Hs.
  - apply bind_Ok in Htrim
      as (d & s1 & t1 & (Hd & -> & ->)%(BuildDir_set _ _ _ _ _ Hset) & Htrim).
    apply bind_Ok in Htrim as (? & s2 & t2 & (-> & -> & ->)%get_Ok & Htrim).
    apply modify_Ok in Htrim as (-> & ->).
    simpl in Hmode. rewrite Hs in Hmode.
    apply bind_Ok in Hmode
      as (incl & s1 & t1 & (-> & ->)%(findIncludes_set _ _ _ _ _ _ _ Hset) & Hmode).
    apply bind_Ok in Hmode as (? & s2 & t2 & (-> & ->)%modify_Ok & Hmode).
    apply bind_Ok in Hmode
      as (d' & s4 & t5 & (Hd' & -> & ->)%(BuildDir_set _ _ _ _ _ Hset) & Hmode).
    assert (d' = dir) as -> by congruence.
    apply bind_Ok in Hmode as (? & s5 & t8 & (_ & -> & ->)%create_Ok & Hmode).
    apply bind_Ok in Hmode as ([] & s9 & t9 & Hsym & Hmode).
    apply (symlinkArchHeaders_events dir) in Hsym as [-> ->];
      [| done | by apply buildDirSet_snoc].
    apply bind_Ok in Hmode
      as (sym & s10 & t10 & (-> & -> & ->)%AssembleSources_run & Hmode).
    apply mret_Ok in Hmode as (-> & -> & ->).
    apply Hemb in Hembed as [-> ->]; [| by repeat apply buildDirSet_snoc].
    unfold embedEvents. simpl. rewrite Hs. simpl.
    repeat split; try done.
    + by repeat apply buildDirSet_snoc.
    + by rewrite <- !app_assoc.
  - apply mret_Ok in Htrim as (_ & -> & ->).
    simpl in Hmode. rewrite Hs in Hmode.
    assert (s6 = set_trimPath
                   (packageTrimPath w (Srcs c) (c_ImportPath c) (filepath_Dir w obj))
                   (set_importCfg deps importMap
                      (filepath_Join w [dir; "importcfg"]) (Some l)
                      (set_srcs g h s c))
            ∧ t6 = t3)
      as [-> ->].
    { destruct (hasForwardDecl (c_ImportPath c)); simpl in Hmode;
        by apply mret_Ok in Hmode as (_ & -> & ->). }
    apply Hemb in Hembed as [-> ->]; [| done].
    unfold embedEvents. simpl. rewrite Hs. simpl.
    repeat split; try done.
    by apply buildDirSet_snoc.
Qed.

End trace_facts.

Lemma CompilePackage_events (w : World) (obj exportData : string)
    (extraArgs : list string) (c c' : Compilation) (t t' : list event) :
  CompilePackage w obj exportData extraArgs c t = (c', t', Ok ()) →
  ∃ l rewrites dir cmd t1,
    MkdirTemp w = Some dir ∧
    ScanImports w (goSrcs c') (c_Imports c') (c_ImportMap c') = Ok (l, rewrites) ∧
    imports c' = Some l ∧
    importCfg c' = filepath_Join w [dir; "importcfg"] ∧
    compileCommand w obj exportData extraArgs c t = (c', t1, Ok cmd) ∧
    t' = t ++ createdBy dir t
           ++ [WriteFile (filepath_Join w [dir; "importcfg"])
                 (map importmapLine rewrites ++ map (packagefileLine ".x") l)]
           ++ asmBefore w dir c' ++ embedEvents w dir c'
           ++ [Run cmd] ++ asmAfter w dir obj c'.
Proof.
  unfold CompilePackage. intros H.
  apply bind_Ok in H as (cmd & c1 & t1 & Hcmd & H).
  destruct (compileCommand_trace w _ _ _ _ _ _ _ _ Hcmd)
    as (l & rewrites & dir & Hdir & Hscan & Himps & Hcfg & Hset & Ht).
  apply bind_Ok in H as (? & c2 & t2 & (Hrun & -> & ->)%run_Ok & H).
  apply bind_Ok in H as (? & c3 & t3 & (-> & -> & ->)%get_Ok & H).
  apply bind_Ok in H as (sObjs & c4 & t4 & Hasm & H).
  apply (assembleEach_events w dir) in Hasm as (-> & -> & ->);
    [| done | by apply buildDirSet_snoc].
  assert (c' = c1 ∧ t' = (t1 ++ [Run cmd]) ++ asmAfter w dir obj c1) as [-> ->].
  { unfold asmAfter. simpl in H.
    destruct (sSrcs c1) as [| src rest] eqn:Hs.
    - apply mret_Ok in H as (_ & -> & ->). split; [done |].
      simpl. by rewrite !app_nil_r.
    - unfold appendArchive in H. apply run_Ok in H as (_ & -> & ->).
      split; [done |]. simpl. by rewrite <- !app_assoc. }
  exists l, rewrites, dir, cmd, t1.
  split; [done |]. split; [done |]. split; [done |]. split; [done |].
  split; [done |].
  rewrite Ht. by rewrite <- !app_assoc.
Qed.

(** X16: the effects of a successful [CompilePackage], in order: the
    creation of the build directory, unless an earlier call of [BuildDir]
    has created it; the write of [importcfg] in the build directory, with
    one [importmap] line per rewrite and then one [packagefile] line per
    resolved import, as the scan of the sorted Go sources over the resolved
    tables returns them; for a package with assembly sources the empty
    [go_asm.h], the links of the platform-specific headers and one run of the
    assembler over all assembly sources for the symbol ABIs; the write of
    the embedcfg if there is one; the run of the compiler, with the command
    that [compileCommand] has assembled; and, again for a package with
    assembly sources, one run of the assembler per source, in the order of
    the sorted sources, and a last run of [pack] that appends the objects to
    the archive.  Nothing else is created, written or run. *)
Theorem CompilePackage_trace (w : World) (obj exportData : string)
    (extraArgs : list string) (c c' : Compilation) (t t' : list event) :
  CompilePackage w obj exportData extraArgs c t = (c', t', Ok ()) →
  ∃ l rewrites dir cmd t1,
    MkdirTemp w = Some dir ∧
    ScanImports w (goSrcs c') (c_Imports c') (c_ImportMap c') = Ok (l, rewrites) ∧
    compileCommand w obj exportData extraArgs c t = (c', t1, Ok cmd) ∧
    Args cmd !! 0 = Some (filepath_Join w [Path (SDK c); "pkg"; "tool";
                                           HostPlatform w; "compile"]) ∧
    t' = t ++ createdBy dir t
           ++ [WriteFile (filepath_Join w [dir; "importcfg"])
                 (map importmapLine rewrites ++ map (packagefileLine ".x") l)]
           ++ asmBefore w dir c' ++ embedEvents w dir c'
           ++ [Run cmd] ++ asmAfter w dir obj c'.
Proof.
  intros H.
  destruct (CompilePackage_events w _ _ _ _ _ _ _ H)
    as (l & rewrites & dir & cmd & t1 & Hdir & Hscan & _ & _ & Hcmd & Ht).
  exists l, rewrites, dir, cmd, t1.
  split; [done |]. split; [done |]. split; [done |]. split; [| done].
  apply compileCommand_Ok in Hcmd
    as (g & h & s & dps & im & t7 & cfg' & l' & dir' & cores & mode & embed
        & _ & _ & _ & _ & _ & _ & _ & _ & _ & _ & _ & _ & _ & _ & _ & _ & _ & ->).
  done.
Qed.

Lemma CompilePackage_trace_witness :
  ∃ lines rest,
    compileAsm.1.2
    = TempDir "/build/builder1"
      :: WriteFile "/build/builder1/importcfg" lines :: rest.
Proof.
  assert (H : compileAsm.2 = Ok ()) by (vm_compute; reflexivity).
  apply run_outcome in H.
  destruct (CompilePackage_trace wAsm _ _ _ _ _ _ _ H)
    as (l & rewrites & dir & cmd & t1 & Hdir & _ & _ & _ & Ht).
  injection Hdir as <-.
  eexists _, _. exact Ht.
Defined.

(** * Failure of [Deps], and the sidecar written and read *)

Lemma foldM_depsStep_find (w : World) (l : list Import)
    (imps : list string) (deps : gset string) :
  match list_find (sidecarFails w) l with
  | None =>
      ∃ deps', foldM (depsStep w) l (imps, deps)
               = Ok (imps ++ (ImportPath <$> l), deps')
  | Some (_, d) =>
      ∃ e, LoadMetadata w (StorePath d) (ImportPath d) = Err e ∧
           foldM (depsStep w) l (imps, deps) = Err e
  end.
Proof.
  revert imps deps. induction l as [| d l IH]; intros imps deps.
  - simpl. exists deps. by rewrite app_nil_r.
  - rewrite foldM_cons, depsStep_eq. cbn [list_find].
    destruct (LoadMetadata_cases w (StorePath d) (ImportPath d))
      as [(q & Hq & _) | (e & He)].
    + rewrite decide_False by (unfold sidecarFails; rewrite Hq; tauto).
      rewrite Hq. simpl.
      specialize (IH (imps ++ [ImportPath d])
                     (foldl (λ (deps : gset string) subDep, {[subDep]} ∪ deps)
                            ({[ImportPath d]} ∪ deps) (Deps q))).
      destruct (list_find (sidecarFails w) l) as [[i d'] |]; simpl.
      * done.
      * destruct IH as (deps' & ->). exists deps'. by rewrite <- app_assoc.
    + rewrite decide_True by (unfold sidecarFails; by rewrite He).
      rewrite He. simpl. by exists e.
Qed.

(** X17: [Deps] on a compilation whose imports are set neither exits nor
    panics.  It succeeds exactly when the sidecar of every direct import
    loads, and then returns the import paths in the order of the imports;
    otherwise it returns, as it is, the error of the first import whose
    sidecar does not load. *)
Theorem Compilation_Deps_first_failure (w : World) (c : Compilation)
    (l : list Import) :
  imports c = Some l →
  match list_find (sidecarFails w) l with
  | None => ∃ deps, Compilation_Deps w c = Ok (ImportPath <$> l, deps)
  | Some (_, d) =>
      ∃ e, LoadMetadata w (StorePath d) (ImportPath d) = Err e ∧
           Compilation_Deps w c = Err e
  end.
Proof.
  intros Hl. unfold Compilation_Deps. rewrite Hl.
  pose proof (foldM_depsStep_find w l [] ∅) as H.
  destruct (list_find (sidecarFails w) l) as [[i d] |].
  - destruct H as (e & He & ->). by exists e.
  - destruct H as (deps' & ->). simpl. by eexists.
Qed.

Lemma Compilation_Deps_first_failure_witness :
  ∃ e, LoadMetadata wS1 "/nix/store/gone" "io" = Err e ∧
       Compilation_Deps wS1 compilationNoSidecar = Err e.
Proof.
  exact (Compilation_Deps_first_failure wS1 compilationNoSidecar _ eq_refl).
Defined.

(** X18: the sidecar written by [SaveMetadata] is the one that
    [LoadMetadata] reads.  The package is saved at [dir/<base>.json], the
    base being the last element of its import path; if that file decodes to
    the saved [Imports] and [Deps], loading from [dir] under any import path
    of the same base returns them stamped with the path asked for: the
    import path itself is not stored, so the saved package is returned as
    it was exactly under its own import path. *)
Theorem Metadata_round_trip {S} (w : World) (dir : string) (pkg : Package)
    (s : S) (t : list event) :
  let path := Package_StorePath w pkg dir in
  creates w path = true →
  readPackage w path = Decoded (Imports pkg, Deps pkg) →
  SaveMetadata w dir pkg s t = (s, t ++ [SavePackage path pkg], Ok ()) ∧
  LoadMetadata w dir (pkgImportPath pkg) = Ok pkg ∧
  ∀ p, Go.Base p = Go.Base (pkgImportPath pkg) →
       LoadMetadata w dir p
       = Ok {| pkgImportPath := p; Imports := Imports pkg; Deps := Deps pkg |}.
Proof.
  simpl. intros Hc Hr.
  assert (Hload : ∀ p, Go.Base p = Go.Base (pkgImportPath pkg) →
            LoadMetadata w dir p
            = Ok {| pkgImportPath := p; Imports := Imports pkg; Deps := Deps pkg |}).
  { intros p Hp. unfold LoadMetadata. rewrite Hp.
    unfold Package_StorePath in Hr. by rewrite Hr. }
  split; [| split; [| exact Hload]].
  - unfold SaveMetadata, create. by rewrite Hc.
  - rewrite (Hload _ eq_refl). by destruct pkg.
Qed.

Lemma Metadata_round_trip_witness :
  LoadMetadata wS1 "/nix/store/AAA" "fmt"
  = Ok {| pkgImportPath := "fmt"; Imports := ["errors"; "io"];
          Deps := ["errors"; "io"] |} ∧
  LoadMetadata wS1 "/nix/store/AAA" "text/fmt"
  = Ok {| pkgImportPath := "text/fmt"; Imports := ["errors"; "io"];
          Deps := ["errors"; "io"] |}.
Proof.
  destruct (Metadata_round_trip (S := ()) wS1 "/nix/store/AAA"
              {| pkgImportPath := "fmt"; Imports := ["errors"; "io"];
                 Deps := ["errors"; "io"] |} () [] eq_refl eq_refl)
    as (_ & Hown & Hother).
  split; [exact Hown | exact (Hother "text/fmt" eq_refl)].
Defined.

(** * The two commands, from the outputs to the last effect *)

Section command_facts.
Variable w : World.

Lemma OutputPath_Ok {S} output (s s' : S) t t' dir :
  OutputPath w output s t = (s', t', Ok dir) →
  dir = Go.index (Outputs w) output ∧ dir ≠ "" ∧ s' = s ∧ t' = t ++ [Mkdir dir].
Proof.
  unfold OutputPath.
  destruct (String.eqb_spec (Go.index (Outputs w) output) "") as [Heq | Hne].
  { by intros (? & _)%liftR_Ok. }
  intros H.
  apply bind_Ok in H as (? & s1 & t1 & (_ & -> & ->)%wrapM_Ok%create_Ok & H).
  by apply mret_Ok in H as (-> & -> & ->).
Qed.

End command_facts.

(** X19: the effects of a successful compile command, from the first to the
    last.  Both outputs [lib] and [export] are bound to a path, and their
    directories are created first, [lib] before [export]; then the
    temporary build directory is created and the effects of
    [CompilePackage] on the archive [lib/<base>.a] follow, from the write of
    the importcfg on; the last effect is the write of the sidecar
    [export/<base>.json], which carries the import path of the attributes
    with the result of [Deps]. *)
Theorem compile_effects (w : World) (sdk : GoSDK) (attrs : CompileAttrs)
    (c' : Compilation) (t : list event) :
  compile w sdk attrs (newCompilation sdk attrs) [] = (c', t, Ok ()) →
  let libDir := Go.index (Outputs w) "lib" in
  let exportDir := Go.index (Outputs w) "export" in
  let name := Go.Base (PackagePath attrs) in
  let obj := filepath_Join w [libDir; name +:+ ".a"] in
  let exportData := filepath_Join w [exportDir; name +:+ ".x"] in
  libDir ≠ "" ∧ exportDir ≠ "" ∧
  ∃ l rewrites dir cmd t1 imps deps,
    MkdirTemp w = Some dir ∧
    ScanImports w (goSrcs c') (c_Imports c') (c_ImportMap c') = Ok (l, rewrites) ∧
    compileCommand w obj exportData (CompileFlags attrs)
      (newCompilation sdk attrs) [Mkdir libDir; Mkdir exportDir]
    = (c', t1, Ok cmd) ∧
    Compilation_Deps w c' = Ok (imps, deps) ∧
    t = [Mkdir libDir; Mkdir exportDir; TempDir dir;
         WriteFile (filepath_Join w [dir; "importcfg"])
           (map importmapLine rewrites ++ map (packagefileLine ".x") l)]
        ++ asmBefore w dir c' ++ embedEvents w dir c'
        ++ [Run cmd] ++ asmAfter w dir obj c'
        ++ [SavePackage (filepath_Join w [exportDir; name +:+ ".json"])
              {| pkgImportPath := PackagePath attrs;
                 Imports := imps; Deps := deps |}].
Proof.
  unfold compile. intros H. simpl.
  apply bind_Ok in H
    as (libDir & c1 & t1 & (-> & Hlib & -> & ->)%fatal_Ok%OutputPath_Ok & H).
  apply bind_Ok in H
    as (exportDir & c2 & t2 & (-> & Hexp & -> & ->)%fatal_Ok%OutputPath_Ok & H).
  apply bind_Ok in H as ([] & c3 & t3 & Hcomp%fatal_Ok & H).
  apply bind_Ok in H as (? & c4 & t4 & (-> & -> & ->)%get_Ok & H).
  apply bind_Ok in H as ([imps deps] & c5 & t5 & Hdeps%fatal_Ok & H).
  apply liftR_Ok in Hdeps as (Hdeps & -> & ->).
  apply fatal_Ok in H. unfold SaveMetadata in H.
  apply create_Ok in H as (_ & -> & ->).
  apply CompilePackage_events in Hcomp
    as (l & rewrites & dir & cmd & t1 & Hdir & Hscan & _ & _ & Hcmd & ->).
  split; [done |]. split; [done |].
  exists l, rewrites, dir, cmd, t1, imps, deps.
  split; [done |]. split; [done |]. split; [exact Hcmd |]. split; [done |].
  unfold Package_StorePath. simpl.
  by repeat (rewrite <- ?app_assoc, <- ?app_comm_cons; simpl).
Qed.

Lemma compile_effects_witness :
  ∃ lines rest,
    (compile wAsm sdk1 attrsAsm (newCompilation sdk1 attrsAsm) []).1.2
    = [Mkdir "/nix/store/foo-lib"; Mkdir "/nix/store/foo-export";
       TempDir "/build/builder1";
       WriteFile "/build/builder1/importcfg" lines] ++ rest.
Proof.
  assert (H : (compile wAsm sdk1 attrsAsm (newCompilation sdk1 attrsAsm) []).2
              = Ok ()) by (vm_compute; reflexivity).
  apply run_outcome in H.
  destruct (compile_effects wAsm sdk1 attrsAsm _ _ H)
    as (_ & _ & l & rewrites & dir & cmd & t1 & imps & deps & Hdir & _ & _ & _ & Ht).
  injection Hdir as <-.
  change (Go.index (Outputs wAsm) "lib") with "/nix/store/foo-lib" in Ht.
  change (Go.index (Outputs wAsm) "export") with "/nix/store/foo-export" in Ht.
  change (filepath_Join wAsm ["/build/builder1"; "importcfg"])
    with "/build/builder1/importcfg" in Ht.
  eexists _, _. exact Ht.
Defined.



(** * Failures of the compile command *)

(** X21: a missing output ends the compile command before anything is
    compiled.  Without a path for [lib] the command exits with no effect;
    with [lib] but without [export] it exits when the directory of [lib]
    has already been created, and that directory is the only effect. *)
Theorem compile_missing_output (w : World) (sdk : GoSDK) (attrs : CompileAttrs)
    (c : Compilation) (t : list event) :
  (Go.index (Outputs w) "lib" = "" →
   compile w sdk attrs c t = (c, t, Fatal "fatal")) ∧
  (Go.index (Outputs w) "lib" ≠ "" →
   creates w (Go.index (Outputs w) "lib") = true →
   Go.index (Outputs w) "export" = "" →
   compile w sdk attrs c t
   = (c, t ++ [Mkdir (Go.index (Outputs w) "lib")], Fatal "fatal")).
Proof.
  split.
  - intros Hlib. unfold compile, mbind, M_bind, fatal, OutputPath.
    by rewrite Hlib.
  - intros Hlib Hc Hexp.
    unfold compile, mbind, M_bind, fatal, OutputPath, wrapM, create, emit,
      mret, M_ret.
    destruct (String.eqb_spec (Go.index (Outputs w) "lib") "") as [? | _];
      [done |].
    by rewrite Hc, Hexp.
Qed.

Lemma compile_missing_output_witness :
  compile (wCores "1") sdk1 attrsS1 (newCompilation sdk1 attrsS1) []
  = (newCompilation sdk1 attrsS1, [], Fatal "fatal").
Proof.
  exact (proj1 (compile_missing_output (wCores "1") sdk1 attrsS1
                  (newCompilation sdk1 attrsS1) []) eq_refl).
Defined.

(** X22: an import that cannot be resolved stops [CompilePackage] before
    any effect.  When the sources are classified and the meta packages
    expanded, and the scan of the imports fails, the call returns the error
    of the scan wrapped as a failure to generate the importcfg; nothing has
    been written or run; and the imports of the compilation are still
    unset, so that a call of [Deps] after it panics. *)
Theorem CompilePackage_import_failure (w : World) (obj exportData : string)
    (extraArgs : list string) (c : Compilation) (t : list event)
    (g h s : list string) (deps : gmap string string)
    (importMap : option (gmap string string)) (e : error) :
  sortSrcs w (Srcs c) = Ok (g, h, s) →
  ResolveMetaPackages w (c_Imports c) (c_ImportMap c) = (deps, importMap, Ok ()) →
  ScanImports w g deps importMap = Err e →
  ∃ c',
    CompilePackage w obj exportData extraArgs c t
    = (c', t, Err (ErrWrap "failed to generate compiler importcfg" e)) ∧
    imports c' = None ∧
    c_Imports c' = deps ∧
    Compilation_Deps w c'
    = Panic "Compilation.Deps() called before Compilation.CompilePackage()".
Proof.
  intros Hsort Hres Hscan.
  unfold CompilePackage, compileCommand, mbind, M_bind.
  rewrite Hsort.
  unfold compileImportCfg, mbind, M_bind, get, liftR. simpl.
  rewrite Hres, Hscan. simpl.
  eexists. split; [reflexivity |]. by repeat split.
Qed.

Lemma CompilePackage_import_failure_witness :
  ∃ c',
    CompilePackage wS1 "/nix/store/foo-lib/foo.a" "/nix/store/foo-export/foo.x"
      [] compilationUnbound []
    = (c', [],
       Err (ErrWrap "failed to generate compiler importcfg"
              (ImportError "fmt" "/src/acme/foo/a.go"))) ∧
    imports c' = None ∧
    c_Imports c' = ∅ ∧
    Compilation_Deps wS1 c'
    = Panic "Compilation.Deps() called before Compilation.CompilePackage()".
Proof.
  apply (CompilePackage_import_failure wS1 _ _ _ compilationUnbound []
           ["/src/acme/foo/a.go"; "/src/acme/foo/b.go"] [] [] ∅ None).
  - vm_compute. reflexivity.
  - vm_compute. reflexivity.
  - vm_compute. reflexivity.
Defined.
